(** * murmprince: HDMI palette double buffering and the SD streaming queue

    A shallow embedding of the parts of the firmware that the properties
    below talk about:

    - the HDMI driver's palette path ([graphics_set_palette_hdmi],
      [graphics_set_fade_level], [graphics_restore_sync_colors]), the
      vblank publish ([vsync_swap_buffers]) and the pixel copy of the
      scanline interrupt handler ([dma_handler_HDMI]);
    - the pump-based SD queue ([pump_stream], [sd_async_stream_read],
      [sd_async_stream_seek], ...);
    - the older worker-based SD queue (core 1 worker, streams and one-shot
      requests).

    C integers are modelled as [Z]; every place where the C code narrows a
    value to an unsigned type is written out with [u8], [u16], [u32] or
    [u64].  Arrays are lists, written to with stdpp's [<[i:=x]>]. *)

From Stdlib Require Import ZArith Lia Bool List.
From stdpp Require Import base tactics option list list_numbers.
Import ListNotations.

#[local] Open Scope Z_scope.

(** ** Fixed-width arithmetic *)

Definition u8 (z : Z) : Z := z mod 2 ^ 8.
Definition u16 (z : Z) : Z := z mod 2 ^ 16.
Definition u32 (z : Z) : Z := z mod 2 ^ 32.
Definition u64 (z : Z) : Z := z mod 2 ^ 64.

(** C truth value of a boolean expression used as an integer. *)
Definition b2z (b : bool) : Z := if b then 1 else 0.

(** Array read [a[i]]; every read in the modelled code is in range, the
    default only makes the function total. *)
Definition rd (a : list Z) (i : Z) : Z := default 0 (a !! Z.to_nat i).

(** Array write [a[i] = v]. *)
Definition wr (a : list Z) (i : Z) (v : Z) : list Z := <[Z.to_nat i := v]> a.

(** * The HDMI driver *)

Module Hdmi.

(** Board wiring, fixed at compile time by [board_config.h] and [HDMI.h]:
    the macros [HDMI_PIN_invert_diffpairs], [HDMI_PIN_RGB_notBGR] and
    whether [PICO_PC] is defined. *)
Record board_config := {
  HDMI_PIN_invert_diffpairs : bool;
  HDMI_PIN_RGB_notBGR : bool;
  PICO_PC : bool;
}.

Definition BASE_HDMI_CTRL_INX : Z := 240.
Definition HDMI_CTRL_COUNT : Z := 4.
Definition SCREEN_WIDTH : Z := 320.

(** The test [i >= BASE_HDMI_CTRL_INX && i < (BASE_HDMI_CTRL_INX + HDMI_CTRL_COUNT)]
    that appears in the interrupt handler and in both palette functions. *)
Definition is_ctrl_inx (i : Z) : bool :=
  (BASE_HDMI_CTRL_INX <=? i) && (i <? BASE_HDMI_CTRL_INX + HDMI_CTRL_COUNT).

(** Number of 64-bit words of [conv_color_a] / [conv_color_b]
    (1224 [uint32_t]), and of their lookup-table part (1024 [uint32_t]). *)
Definition CONV_COLOR_WORDS : nat := 612.
Definition CONV_LUT_WORDS : nat := 512.

Section Encoder.
Variable cfg : board_config.

(** One iteration of the loop of [get_ser_diff_data]. *)
Definition ser_diff_step (dataR dataG dataB : Z) (out64 : Z) (i : Z) : Z :=
  let out64 := u64 (Z.shiftl out64 6) in
  let out64 := if i =? 5 then u64 (Z.shiftl out64 2) else out64 in
  let bitR := Z.land (Z.shiftr dataR (9 - i)) 1 in
  let bitG := Z.land (Z.shiftr dataG (9 - i)) 1 in
  let bR := u8 (if PICO_PC cfg then bitG else bitR) in
  let bG := u8 (if PICO_PC cfg then bitR else bitG) in
  let bB := u8 (Z.land (Z.shiftr dataB (9 - i)) 1) in
  let bR := u8 (Z.lor bR (Z.shiftl (Z.lxor bR 1) 1)) in
  let bG := u8 (Z.lor bG (Z.shiftl (Z.lxor bG 1) 1)) in
  let bB := u8 (Z.lor bB (Z.shiftl (Z.lxor bB 1) 1)) in
  let bR := if HDMI_PIN_invert_diffpairs cfg then u8 (Z.lxor bR 3) else bR in
  let bG := if HDMI_PIN_invert_diffpairs cfg then u8 (Z.lxor bG 3) else bG in
  let bB := if HDMI_PIN_invert_diffpairs cfg then u8 (Z.lxor bB 3) else bB in
  let d6 :=
    if HDMI_PIN_RGB_notBGR cfg
    then u8 (Z.lor (Z.lor (Z.shiftl bR 4) (Z.shiftl bG 2)) (Z.shiftl bB 0))
    else u8 (Z.lor (Z.lor (Z.shiftl bB 4) (Z.shiftl bG 2)) (Z.shiftl bR 0)) in
  Z.lor out64 d6.

Definition get_ser_diff_data (dataR dataG dataB : Z) : Z :=
  fold_left (ser_diff_step dataR dataG dataB) (seqZ 0 10) 0.

(** [tmds_encoder]: the bit count, the choice between XOR and XNOR, the
    transition loop over bits 1..7 and the final marker bit. *)
Definition tmds_ones (d8 : Z) : Z :=
  fold_left (fun s1 i => s1 + (if Z.land d8 (Z.shiftl 1 i) =? 0 then 0 else 1))
            (seqZ 0 8) 0.

Definition tmds_is_xnor (d8 : Z) : bool :=
  let s1 := tmds_ones d8 in
  (s1 >? 4) || ((s1 =? 4) && (Z.land d8 1 =? 0)).

Definition tmds_step (d8 : Z) (is_xnor : bool) (st : Z * Z) (i : Z) : Z * Z :=
  let '(d_out, qi) := st in
  let d_out :=
    u16 (Z.lor d_out
           (Z.lxor (Z.lxor (Z.shiftl qi 1) (Z.land d8 (Z.shiftl 1 i)))
                   (Z.shiftl (b2z is_xnor) i))) in
  (d_out, u16 (Z.land d_out (Z.shiftl 1 i))).

Definition tmds_encoder (d8 : Z) : Z :=
  let is_xnor := tmds_is_xnor d8 in
  let d_out := u16 (Z.land d8 1) in
  let '(d_out, _) := fold_left (tmds_step d8 is_xnor) (seqZ 1 7) (d_out, d_out) in
  if is_xnor then u16 (Z.lor d_out (Z.shiftl 1 9))
  else u16 (Z.lor d_out (Z.shiftl 1 8)).

(** The value both palette functions store in the first word of an entry:
    [get_ser_diff_data(tmds_encoder(R), tmds_encoder(G), tmds_encoder(B))]
    for the channels of [color]. *)
Definition clut_word (color : Z) : Z :=
  let R := u8 (Z.land (Z.shiftr color 16) 255) in
  let G := u8 (Z.land (Z.shiftr color 8) 255) in
  let B := u8 (Z.land (Z.shiftr color 0) 255) in
  get_ser_diff_data (u16 (tmds_encoder R)) (u16 (tmds_encoder G)) (u16 (tmds_encoder B)).
End Encoder.

(** The constant [0x0003ffffffffffffl]. *)
Definition DIFF_MASK : Z := 0x0003ffffffffffff.

Definition fade_gamma_table : list Z :=
  [ 255; 253; 251; 249; 247; 245; 243; 241;
    239; 236; 234; 231; 229; 226; 223; 220;
    217; 214; 211; 208; 204; 201; 197; 193;
    189; 185; 181; 176; 172; 167; 162; 156;
    151; 145; 139; 133; 126; 119; 112; 104;
    96;  88;  79;  69;  59;  48;  36;  23;
    0;   0;   0;   0;   0;   0;   0;   0;
    0;   0;   0;   0;   0;   0;   0;   0 ].

Definition apply_fade_to_color (color888 fade_level : Z) : Z :=
  if fade_level =? 0 then color888
  else if fade_level >=? 48 then 0
  else
    let r := u8 (Z.land (Z.shiftr color888 16) 255) in
    let g := u8 (Z.land (Z.shiftr color888 8) 255) in
    let b := u8 (Z.land (Z.shiftr color888 0) 255) in
    let scale := u16 (rd fade_gamma_table fade_level) in
    let r := u8 (Z.shiftr (r * scale) 8) in
    let g := u8 (Z.shiftr (g * scale) 8) in
    let b := u8 (Z.shiftr (b * scale) 8) in
    u32 (Z.lor (Z.lor (Z.shiftl r 16) (Z.shiftl g 8)) b).

(** The driver's globals.  [conv_color_front] and [conv_color_back] are the
    arrays the two pointers of the same names are initialised with
    ([conv_color_a] and [conv_color_b]); the pointers are never reassigned.
    Both arrays are seen as 64-bit words, as the palette code does through
    its [uint64_t*] casts: words 0..511 are the lookup table, words 512..611
    hold the two scanline buffers. *)
Record hdmi_state := {
  palette : list Z;
  palette_original : list Z;
  g_hdmi_fade_level : Z;
  g_hdmi_fade_rows : Z;
  conv_color_front : list Z;
  conv_color_back : list Z;
  conv_color_dirty : bool;
  conv_color_swap_count : Z;
}.

(** Static storage is zero-initialised. *)
Definition hdmi_boot : hdmi_state := {|
  palette := replicate 256 0;
  palette_original := replicate 256 0;
  g_hdmi_fade_level := 0;
  g_hdmi_fade_rows := 0;
  conv_color_front := replicate CONV_COLOR_WORDS 0;
  conv_color_back := replicate CONV_COLOR_WORDS 0;
  conv_color_dirty := false;
  conv_color_swap_count := 0;
|}.

(** The array sizes of the declarations. *)
Definition hdmi_wf (s : hdmi_state) : Prop :=
  length (palette s) = 256%nat /\
  length (palette_original s) = 256%nat /\
  length (conv_color_front s) = CONV_COLOR_WORDS /\
  length (conv_color_back s) = CONV_COLOR_WORDS.

Definition vsync_swap_buffers (s : hdmi_state) : hdmi_state :=
  if conv_color_dirty s then
    {| palette := palette s;
       palette_original := palette_original s;
       g_hdmi_fade_level := g_hdmi_fade_level s;
       g_hdmi_fade_rows := g_hdmi_fade_rows s;
       conv_color_front :=
         take CONV_LUT_WORDS (conv_color_back s) ++ drop CONV_LUT_WORDS (conv_color_front s);
       conv_color_back := conv_color_back s;
       conv_color_dirty := false;
       conv_color_swap_count := u32 (conv_color_swap_count s + 1) |}
  else s.

Section Palette.
Variable cfg : board_config.

(** The two stores
    [conv_color64[i * 2] = ...; conv_color64[i * 2 + 1] = conv_color64[i * 2] ^ 0x0003ffffffffffffl;]
    the second one reads the first word back from the array. *)
Definition write_clut_entry (buf : list Z) (i color : Z) : list Z :=
  let buf := wr buf (i * 2) (clut_word cfg color) in
  wr buf (i * 2 + 1) (Z.lxor (rd buf (i * 2)) DIFF_MASK).

(** The colour [graphics_set_palette_hdmi] stores in [palette[i]]. *)
Definition set_palette_faded (s : hdmi_state) (i color888 : Z) : Z :=
  let row := i / 16 in
  let faded_color := Z.land color888 0x00ffffff in
  if g_hdmi_fade_level s >? 0 then
    let should_fade :=
      (g_hdmi_fade_level s >=? 64) || (g_hdmi_fade_rows s =? 0)
      || negb (Z.land (g_hdmi_fade_rows s) (Z.shiftl 1 row) =? 0) in
    if should_fade then apply_fade_to_color faded_color (g_hdmi_fade_level s)
    else faded_color
  else faded_color.

Definition graphics_set_palette_hdmi (s : hdmi_state) (i color888 : Z) : hdmi_state :=
  let palette_original' := wr (palette_original s) i (Z.land color888 0x00ffffff) in
  let faded_color := set_palette_faded s i color888 in
  let palette' := wr (palette s) i faded_color in
  if is_ctrl_inx i then
    {| palette := palette';
       palette_original := palette_original';
       g_hdmi_fade_level := g_hdmi_fade_level s;
       g_hdmi_fade_rows := g_hdmi_fade_rows s;
       conv_color_front := conv_color_front s;
       conv_color_back := conv_color_back s;
       conv_color_dirty := conv_color_dirty s;
       conv_color_swap_count := conv_color_swap_count s |}
  else
    {| palette := palette';
       palette_original := palette_original';
       g_hdmi_fade_level := g_hdmi_fade_level s;
       g_hdmi_fade_rows := g_hdmi_fade_rows s;
       conv_color_front := conv_color_front s;
       conv_color_back := write_clut_entry (conv_color_back s) i faded_color;
       conv_color_dirty := true;
       conv_color_swap_count := conv_color_swap_count s |}.

(** [b0 = 0b1101010100], [b1 = 0b0010101011], [b2 = 0b0101010100],
    [b3 = 0b1010101011]. *)
Definition sync_b0 : Z := 0x354.
Definition sync_b1 : Z := 0x0ab.
Definition sync_b2 : Z := 0x154.
Definition sync_b3 : Z := 0x2ab.

(** The eight stores of [graphics_restore_sync_colors] into one buffer. *)
Definition write_sync_colors (buf : list Z) : list Z :=
  let base_inx := BASE_HDMI_CTRL_INX in
  let buf := wr buf (2 * base_inx + 0) (get_ser_diff_data cfg sync_b0 sync_b0 sync_b3) in
  let buf := wr buf (2 * base_inx + 1) (get_ser_diff_data cfg sync_b0 sync_b0 sync_b3) in
  let buf := wr buf (2 * (base_inx + 1) + 0) (get_ser_diff_data cfg sync_b0 sync_b0 sync_b2) in
  let buf := wr buf (2 * (base_inx + 1) + 1) (get_ser_diff_data cfg sync_b0 sync_b0 sync_b2) in
  let buf := wr buf (2 * (base_inx + 2) + 0) (get_ser_diff_data cfg sync_b0 sync_b0 sync_b1) in
  let buf := wr buf (2 * (base_inx + 2) + 1) (get_ser_diff_data cfg sync_b0 sync_b0 sync_b1) in
  let buf := wr buf (2 * (base_inx + 3) + 0) (get_ser_diff_data cfg sync_b0 sync_b0 sync_b0) in
  wr buf (2 * (base_inx + 3) + 1) (get_ser_diff_data cfg sync_b0 sync_b0 sync_b0).

Definition graphics_restore_sync_colors (s : hdmi_state) : hdmi_state :=
  {| palette := palette s;
     palette_original := palette_original s;
     g_hdmi_fade_level := g_hdmi_fade_level s;
     g_hdmi_fade_rows := g_hdmi_fade_rows s;
     conv_color_front := write_sync_colors (conv_color_front s);
     conv_color_back := write_sync_colors (conv_color_back s);
     conv_color_dirty := conv_color_dirty s;
     conv_color_swap_count := conv_color_swap_count s |}.

(** The colour [graphics_set_fade_level] stores in [palette[i]]. *)
Definition fade_level_color (fade_level which_rows : Z) (original : Z) (i : Z) : Z :=
  let row := i / 16 in
  if fade_level >? 0 then
    let should_fade :=
      (fade_level >=? 48) || (which_rows =? 0)
      || negb (Z.land which_rows (Z.shiftl 1 row) =? 0) in
    if should_fade then apply_fade_to_color original fade_level else original
  else original.

(** Body of the loop of [graphics_set_fade_level], on the two arrays it
    writes ([palette], back buffer); [palette_original] is only read. *)
Definition fade_level_step (fade_level which_rows : Z) (originals : list Z)
    (acc : list Z * list Z) (i : Z) : list Z * list Z :=
  if is_ctrl_inx i then acc
  else
    let color := fade_level_color fade_level which_rows (rd originals i) i in
    (wr acc.1 i color, write_clut_entry acc.2 i color).

Definition graphics_set_fade_level (s : hdmi_state) (fade_level which_rows : Z) : hdmi_state :=
  let '(palette', back') :=
    fold_left (fade_level_step fade_level which_rows (palette_original s))
              (seqZ 0 256) (palette s, conv_color_back s) in
  let s1 :=
    {| palette := palette';
       palette_original := palette_original s;
       g_hdmi_fade_level := fade_level;
       g_hdmi_fade_rows := which_rows;
       conv_color_front := conv_color_front s;
       conv_color_back := back';
       conv_color_dirty := conv_color_dirty s;
       conv_color_swap_count := conv_color_swap_count s |} in
  let s2 := graphics_restore_sync_colors s1 in
  {| palette := palette s2;
     palette_original := palette_original s2;
     g_hdmi_fade_level := g_hdmi_fade_level s2;
     g_hdmi_fade_rows := g_hdmi_fade_rows s2;
     conv_color_front := conv_color_front s2;
     conv_color_back := conv_color_back s2;
     conv_color_dirty := true;
     conv_color_swap_count := conv_color_swap_count s2 |}.

(** A run of palette writes, each an (index, colour) pair. *)
Definition palette_writes (ws : list (Z * Z)) (s : hdmi_state) : hdmi_state :=
  fold_left (fun s w => graphics_set_palette_hdmi s w.1 w.2) ws s.

(** The colour of the last write to index [i] in a run of writes, if any. *)
Fixpoint last_write (i : Z) (ws : list (Z * Z)) : option Z :=
  match ws with
  | [] => None
  | w :: ws =>
      match last_write i ws with
      | Some c => Some c
      | None => if w.1 =? i then Some w.2 else None
      end
  end.

(** A run of fade calls, each a (level, row mask) pair. *)
Definition fade_calls (fs : list (Z * Z)) (s : hdmi_state) : hdmi_state :=
  fold_left (fun s f => graphics_set_fade_level s f.1 f.2) fs s.
End Palette.

(** ** The pixel copy of the scanline interrupt handler *)

(** [enum graphics_mode_t] is declared in [HDMI.h]; the handler only tells
    [GRAPHICSMODE_DEFAULT] from every other mode. *)
Inductive graphics_mode_t := GRAPHICSMODE_DEFAULT | GRAPHICSMODE_OTHER.

(** The frame source globals.  [graphics_buffer] is [None] for a null
    pointer, otherwise the bytes found at [graphics_buffer[k]]. *)
Record frame_source := {
  graphics_buffer : option (Z -> Z);
  graphics_buffer_width : Z;
  graphics_buffer_height : Z;
  graphics_buffer_shift_x : Z;
  graphics_buffer_shift_y : Z;
  hdmi_graphics_mode : graphics_mode_t;
  g_hdmi_loading_mode : bool;
}.

(** [get_line_buffer]: the offset of the line inside [graphics_buffer]. *)
Definition get_line_buffer (fs : frame_source) (line : Z) : option Z :=
  match graphics_buffer fs with
  | None => None
  | Some _ =>
      if (line <? 0) || (line >=? graphics_buffer_height fs) then None
      else Some (line * graphics_buffer_width fs)
  end.

(** The expression
    [(c >= BASE_HDMI_CTRL_INX && c < (BASE_HDMI_CTRL_INX + HDMI_CTRL_COUNT)) ? 255 : c]
    applied to every pixel read from the frame buffer. *)
Definition remap_ctrl_pixel (c : Z) : Z := if is_ctrl_inx c then 255 else c.

(** [memset(output_buffer, 255, SCREEN_WIDTH)]. *)
Definition blank_pixels : list Z := replicate (Z.to_nat SCREEN_WIDTH) 255.

(** The [GRAPHICSMODE_DEFAULT] case: [input_buffer] is the offset returned
    by [get_line_buffer].  The border loop writes [shift_x] bytes when that
    is positive; the [while] loop then fills the rest of the 320 bytes, and
    its test [input_buffer < input_buffer_end] does not change while it
    runs, since only [x] is advanced. *)
Definition default_mode_pixels (fs : frame_source) (mem : Z -> Z) (input_buffer y : Z)
    : list Z :=
  let shift_x := graphics_buffer_shift_x fs in
  let shift_y := graphics_buffer_shift_y fs in
  if (shift_y >? y) || (y >=? shift_y + graphics_buffer_height fs)
     || (shift_x >=? SCREEN_WIDTH) || (shift_x + graphics_buffer_width fs <? 0)
  then blank_pixels
  else
    let border := replicate (Z.to_nat shift_x) 255 in
    let input_buffer_end := input_buffer + graphics_buffer_width fs in
    let input_buffer := if shift_x <? 0 then input_buffer - shift_x else input_buffer in
    border ++
    map (fun x =>
           if input_buffer <? input_buffer_end
           then remap_ctrl_pixel (u8 (mem (input_buffer + x)))
           else 255)
        (seqZ 0 (SCREEN_WIDTH - Z.of_nat (length border))).

(** The other modes copy 320 bytes of the line. *)
Definition other_mode_pixels (mem : Z -> Z) (input_buffer : Z) : list Z :=
  map (fun k => remap_ctrl_pixel (u8 (mem (input_buffer + k)))) (seqZ 0 SCREEN_WIDTH).

(** What [dma_handler_HDMI] writes at [output_buffer = activ_buf + 72] for an
    odd [line] below [mode.h_width]. *)
Definition active_pixels (fs : frame_source) (line : Z) : list Z :=
  if g_hdmi_loading_mode fs then blank_pixels
  else
    let y := Z.shiftr line 1 in
    match graphics_buffer fs, get_line_buffer fs y with
    | Some mem, Some input_buffer =>
        match hdmi_graphics_mode fs with
        | GRAPHICSMODE_DEFAULT => default_mode_pixels fs mem input_buffer y
        | GRAPHICSMODE_OTHER => other_mode_pixels mem input_buffer
        end
    | _, _ => blank_pixels
    end.

End Hdmi.

#[global] Arguments Hdmi.get_ser_diff_data : simpl never.
#[global] Arguments Hdmi.tmds_encoder : simpl never.
#[global] Arguments Hdmi.clut_word : simpl never.
#[global] Arguments Hdmi.apply_fade_to_color : simpl never.
#[global] Arguments Hdmi.write_clut_entry : simpl never.
#[global] Arguments Hdmi.write_sync_colors : simpl never.
#[global] Arguments Hdmi.fade_level_color : simpl never.

(** * The SD queue *)

(** [(int)] conversion of a value. *)
Definition s32 (z : Z) : Z := (z + 2 ^ 31) mod 2 ^ 32 - 2 ^ 31.

(** FatFS result codes: [FR_OK] and any of the error codes. *)
Inductive FRESULT := FR_OK | FR_DISK_ERR.

(** The storage collaborator (FatFS behind [pop_fs]).  Pointers are
    addresses, 0 being [NULL].  [f_read fil pos btr] is the outcome of
    [f_read(fil, ..., btr, &br)] with the file's read pointer at [pos]: the
    result code and [br]. *)
Record sd_device := {
  pop_fs_open : list Byte.byte -> Z;
  f_size : Z -> Z;
  f_read : Z -> Z -> Z -> FRESULT * Z;
  f_lseek : Z -> Z -> FRESULT;
}.

(** FatFS never reports more bytes read than were asked for, and file sizes
    fit the 32-bit [FSIZE_t]. *)
Definition device_ok (dev : sd_device) : Prop :=
  (forall fil pos btr, 0 <= btr -> 0 <= (f_read dev fil pos btr).2 <= btr) /\
  (forall fil, 0 <= f_size dev fil < 2 ^ 32).

(** ** Pump-based variant (core 0 only) *)

Module SdPump.

Definition SD_ASYNC_STREAM_BUFFER_SAMPLES : Z := 2048.
Definition SD_ASYNC_STREAM_BUFFER_BYTES : Z := SD_ASYNC_STREAM_BUFFER_SAMPLES * 4.
Definition SD_ASYNC_PUMP_CHUNK_SIZE : Z := 512.

Inductive stream_state_t :=
  | STREAM_STATE_CLOSED
  | STREAM_STATE_FILLING_A
  | STREAM_STATE_FILLING_B
  | STREAM_STATE_READY
  | STREAM_STATE_EOF
  | STREAM_STATE_ERROR.

#[global] Instance stream_state_eq_dec : EqDecision stream_state_t.
Proof. solve_decision. Defined.

(** [struct sd_async_stream].  The [int] and [size_t] fields are integers;
    the bytes held by the two buffers are not part of the model, no branch
    of the code below looks at them. *)
Record sd_async_stream := {
  state : stream_state_t;
  file : Z;
  file_size : Z;
  file_pos : Z;
  buffer_a : Z;
  buffer_b : Z;
  buffer_a_valid : Z;
  buffer_b_valid : Z;
  buffer_a_consumed : Z;
  buffer_b_consumed : Z;
  active_buffer : Z;
  fill_offset : Z;
  slot : Z;
}.

Definition set_state (s : sd_async_stream) (v : stream_state_t) : sd_async_stream :=
  {| state := v; file := file s; file_size := file_size s; file_pos := file_pos s;
     buffer_a := buffer_a s; buffer_b := buffer_b s;
     buffer_a_valid := buffer_a_valid s; buffer_b_valid := buffer_b_valid s;
     buffer_a_consumed := buffer_a_consumed s; buffer_b_consumed := buffer_b_consumed s;
     active_buffer := active_buffer s; fill_offset := fill_offset s; slot := slot s |}.

Definition set_file (s : sd_async_stream) (v : Z) : sd_async_stream :=
  {| state := state s; file := v; file_size := file_size s; file_pos := file_pos s;
     buffer_a := buffer_a s; buffer_b := buffer_b s;
     buffer_a_valid := buffer_a_valid s; buffer_b_valid := buffer_b_valid s;
     buffer_a_consumed := buffer_a_consumed s; buffer_b_consumed := buffer_b_consumed s;
     active_buffer := active_buffer s; fill_offset := fill_offset s; slot := slot s |}.

Definition set_file_size (s : sd_async_stream) (v : Z) : sd_async_stream :=
  {| state := state s; file := file s; file_size := v; file_pos := file_pos s;
     buffer_a := buffer_a s; buffer_b := buffer_b s;
     buffer_a_valid := buffer_a_valid s; buffer_b_valid := buffer_b_valid s;
     buffer_a_consumed := buffer_a_consumed s; buffer_b_consumed := buffer_b_consumed s;
     active_buffer := active_buffer s; fill_offset := fill_offset s; slot := slot s |}.

Definition set_file_pos (s : sd_async_stream) (v : Z) : sd_async_stream :=
  {| state := state s; file := file s; file_size := file_size s; file_pos := v;
     buffer_a := buffer_a s; buffer_b := buffer_b s;
     buffer_a_valid := buffer_a_valid s; buffer_b_valid := buffer_b_valid s;
     buffer_a_consumed := buffer_a_consumed s; buffer_b_consumed := buffer_b_consumed s;
     active_buffer := active_buffer s; fill_offset := fill_offset s; slot := slot s |}.

Definition set_buffers (s : sd_async_stream) (a b : Z) : sd_async_stream :=
  {| state := state s; file := file s; file_size := file_size s; file_pos := file_pos s;
     buffer_a := a; buffer_b := b;
     buffer_a_valid := buffer_a_valid s; buffer_b_valid := buffer_b_valid s;
     buffer_a_consumed := buffer_a_consumed s; buffer_b_consumed := buffer_b_consumed s;
     active_buffer := active_buffer s; fill_offset := fill_offset s; slot := slot s |}.

Definition set_buffer_a_valid (s : sd_async_stream) (v : Z) : sd_async_stream :=
  {| state := state s; file := file s; file_size := file_size s; file_pos := file_pos s;
     buffer_a := buffer_a s; buffer_b := buffer_b s;
     buffer_a_valid := v; buffer_b_valid := buffer_b_valid s;
     buffer_a_consumed := buffer_a_consumed s; buffer_b_consumed := buffer_b_consumed s;
     active_buffer := active_buffer s; fill_offset := fill_offset s; slot := slot s |}.

Definition set_buffer_b_valid (s : sd_async_stream) (v : Z) : sd_async_stream :=
  {| state := state s; file := file s; file_size := file_size s; file_pos := file_pos s;
     buffer_a := buffer_a s; buffer_b := buffer_b s;
     buffer_a_valid := buffer_a_valid s; buffer_b_valid := v;
     buffer_a_consumed := buffer_a_consumed s; buffer_b_consumed := buffer_b_consumed s;
     active_buffer := active_buffer s; fill_offset := fill_offset s; slot := slot s |}.

Definition set_buffer_a_consumed (s : sd_async_stream) (v : Z) : sd_async_stream :=
  {| state := state s; file := file s; file_size := file_size s; file_pos := file_pos s;
     buffer_a := buffer_a s; buffer_b := buffer_b s;
     buffer_a_valid := buffer_a_valid s; buffer_b_valid := buffer_b_valid s;
     buffer_a_consumed := v; buffer_b_consumed := buffer_b_consumed s;
     active_buffer := active_buffer s; fill_offset := fill_offset s; slot := slot s |}.

Definition set_buffer_b_consumed (s : sd_async_stream) (v : Z) : sd_async_stream :=
  {| state := state s; file := file s; file_size := file_size s; file_pos := file_pos s;
     buffer_a := buffer_a s; buffer_b := buffer_b s;
     buffer_a_valid := buffer_a_valid s; buffer_b_valid := buffer_b_valid s;
     buffer_a_consumed := buffer_a_consumed s; buffer_b_consumed := v;
     active_buffer := active_buffer s; fill_offset := fill_offset s; slot := slot s |}.

Definition set_active_buffer (s : sd_async_stream) (v : Z) : sd_async_stream :=
  {| state := state s; file := file s; file_size := file_size s; file_pos := file_pos s;
     buffer_a := buffer_a s; buffer_b := buffer_b s;
     buffer_a_valid := buffer_a_valid s; buffer_b_valid := buffer_b_valid s;
     buffer_a_consumed := buffer_a_consumed s; buffer_b_consumed := buffer_b_consumed s;
     active_buffer := v; fill_offset := fill_offset s; slot := slot s |}.

Definition set_fill_offset (s : sd_async_stream) (v : Z) : sd_async_stream :=
  {| state := state s; file := file s; file_size := file_size s; file_pos := file_pos s;
     buffer_a := buffer_a s; buffer_b := buffer_b s;
     buffer_a_valid := buffer_a_valid s; buffer_b_valid := buffer_b_valid s;
     buffer_a_consumed := buffer_a_consumed s; buffer_b_consumed := buffer_b_consumed s;
     active_buffer := active_buffer s; fill_offset := v; slot := slot s |}.

(** Access through the pointers [valid] and [consumed], which point into
    buffer A when the selector is 0 and into buffer B otherwise. *)
Definition valid_of (s : sd_async_stream) (sel : Z) : Z :=
  if sel =? 0 then buffer_a_valid s else buffer_b_valid s.

Definition consumed_of (s : sd_async_stream) (sel : Z) : Z :=
  if sel =? 0 then buffer_a_consumed s else buffer_b_consumed s.

Definition set_valid_of (s : sd_async_stream) (sel : Z) (v : Z) : sd_async_stream :=
  if sel =? 0 then set_buffer_a_valid s v else set_buffer_b_valid s v.

Definition set_consumed_of (s : sd_async_stream) (sel : Z) (v : Z) : sd_async_stream :=
  if sel =? 0 then set_buffer_a_consumed s v else set_buffer_b_consumed s v.

(** Unconsumed bytes of the buffer that is not the active one. *)
Definition other_available (s : sd_async_stream) : Z :=
  valid_of s (1 - active_buffer s) - consumed_of s (1 - active_buffer s).

(** The counters of a stream the code can produce: every buffer holds at
    most [SD_ASYNC_STREAM_BUFFER_BYTES] bytes, of which a prefix has been
    consumed, and the selector is 0 or 1. *)
Definition stream_wf (s : sd_async_stream) : Prop :=
  0 <= buffer_a_consumed s <= buffer_a_valid s /\
  buffer_a_valid s <= SD_ASYNC_STREAM_BUFFER_BYTES /\
  0 <= buffer_b_consumed s <= buffer_b_valid s /\
  buffer_b_valid s <= SD_ASYNC_STREAM_BUFFER_BYTES /\
  (active_buffer s = 0 \/ active_buffer s = 1).

(** The same with the fill position, which stays inside the buffer. *)
Definition stream_inv (s : sd_async_stream) : Prop :=
  stream_wf s /\ 0 <= fill_offset s <= SD_ASYNC_STREAM_BUFFER_BYTES.

Section Device.
Variable dev : sd_device.

(** The tail of [pump_stream] once a buffer is complete, for the branch
    where the file was already exhausted on entry. *)
Definition pump_exhausted (s : sd_async_stream) : sd_async_stream :=
  match state s with
  | STREAM_STATE_FILLING_A =>
      let s := set_buffer_a_valid s (fill_offset s) in
      let s := set_fill_offset s 0 in
      let s := set_buffer_a_consumed s 0 in
      set_state s (if buffer_b_valid s >? 0 then STREAM_STATE_READY else STREAM_STATE_EOF)
  | _ =>
      let s := set_buffer_b_valid s (fill_offset s) in
      let s := set_fill_offset s 0 in
      let s := set_buffer_b_consumed s 0 in
      set_state s (if buffer_a_valid s >? 0 then STREAM_STATE_READY else STREAM_STATE_EOF)
  end.

(** The tail of [pump_stream] after a successful read that filled the
    buffer or reached the end of the file. *)
Definition pump_buffer_done (s : sd_async_stream) : sd_async_stream :=
  match state s with
  | STREAM_STATE_FILLING_A =>
      let s := set_buffer_a_valid s (fill_offset s) in
      let s := set_fill_offset s 0 in
      let s := set_buffer_a_consumed s 0 in
      if (buffer_b_valid s =? 0) && (file_pos s <? file_size s)
      then set_state s STREAM_STATE_FILLING_B
      else set_state s STREAM_STATE_READY
  | _ =>
      let s := set_buffer_b_valid s (fill_offset s) in
      let s := set_fill_offset s 0 in
      let s := set_buffer_b_consumed s 0 in
      set_state s STREAM_STATE_READY
  end.

(** How much [pump_stream] reads in one call. *)
Definition pump_to_read (s : sd_async_stream) : Z :=
  let remaining_in_buffer := u32 (SD_ASYNC_STREAM_BUFFER_BYTES - fill_offset s) in
  let remaining_in_file := u32 (file_size s - file_pos s) in
  let to_read := SD_ASYNC_PUMP_CHUNK_SIZE in
  let to_read := if to_read >? remaining_in_buffer then remaining_in_buffer else to_read in
  if to_read >? remaining_in_file then remaining_in_file else to_read.

Definition pump_stream (s : sd_async_stream) : bool * sd_async_stream :=
  match state s with
  | STREAM_STATE_CLOSED | STREAM_STATE_READY
  | STREAM_STATE_EOF | STREAM_STATE_ERROR => (false, s)
  | _ =>
      if file_pos s >=? file_size s then (true, pump_exhausted s)
      else
        match f_read dev (file s) (file_pos s) (pump_to_read s) with
        | (FR_OK, br) =>
            let s := set_fill_offset s (s32 (fill_offset s + br)) in
            let s := set_file_pos s (u32 (file_pos s + br)) in
            if (fill_offset s >=? SD_ASYNC_STREAM_BUFFER_BYTES) || (file_pos s >=? file_size s)
            then (true, pump_buffer_done s)
            else (true, s)
        | (_, _) => (true, set_state s STREAM_STATE_ERROR)
        end
  end.

(** Body of the loop of [sd_async_pump] for one stream. *)
Definition pump_slot (s : sd_async_stream) : bool * sd_async_stream :=
  let s :=
    match state s with
    | STREAM_STATE_READY =>
        let inactive := 1 - active_buffer s in
        if (inactive =? 0) && (buffer_a_valid s =? 0) && (file_pos s <? file_size s)
        then set_fill_offset (set_state s STREAM_STATE_FILLING_A) 0
        else if (inactive =? 1) && (buffer_b_valid s =? 0) && (file_pos s <? file_size s)
        then set_fill_offset (set_state s STREAM_STATE_FILLING_B) 0
        else s
    | _ => s
    end in
  pump_stream s.

Definition sd_async_pump (g_initialized : bool) (streams : list sd_async_stream)
    : bool * list sd_async_stream :=
  if negb g_initialized then (false, streams)
  else
    let rs := map pump_slot streams in
    (existsb fst rs, map snd rs).

(** The initial synchronous fill of [sd_async_stream_open]; the bound on
    the number of iterations only makes the definition structural. *)
Fixpoint open_fill_b (fuel : nat) (s : sd_async_stream) : sd_async_stream :=
  match fuel with
  | O => s
  | S fuel =>
      match state s with
      | STREAM_STATE_FILLING_B =>
          let '(w, s) := pump_stream s in
          if w then open_fill_b fuel s else s
      | _ => s
      end
  end.

Fixpoint open_fill (fuel : nat) (s : sd_async_stream) : sd_async_stream :=
  match fuel with
  | O => s
  | S fuel =>
      match state s with
      | STREAM_STATE_FILLING_A | STREAM_STATE_FILLING_B =>
          let '(w, s) := pump_stream s in
          if negb w then s
          else
            match state s with
            | STREAM_STATE_FILLING_B => open_fill_b fuel s
            | _ => open_fill fuel s
            end
      | _ => s
      end
  end.

(** [sd_async_stream_open] on the slot [s] it found closed, with the two
    pointers [psram_malloc] returned; [None] is the [NULL] result. *)
Definition sd_async_stream_open (fuel : nat) (s : sd_async_stream)
    (path : list Byte.byte) (mem_a mem_b : Z) : option sd_async_stream * sd_async_stream :=
  let s := set_file s (pop_fs_open dev path) in
  if file s =? 0 then (None, s)
  else
    let s := set_file_size s (f_size dev (file s)) in
    let s := set_file_pos s 0 in
    let s := set_buffers s mem_a mem_b in
    if (buffer_a s =? 0) || (buffer_b s =? 0) then (None, set_file s 0)
    else
      let s := set_buffer_a_valid s 0 in
      let s := set_buffer_b_valid s 0 in
      let s := set_buffer_a_consumed s 0 in
      let s := set_buffer_b_consumed s 0 in
      let s := set_active_buffer s 0 in
      let s := set_fill_offset s 0 in
      let s := set_state s STREAM_STATE_FILLING_A in
      let s := open_fill fuel s in
      (Some s, s).

(** The copy at the end of [sd_async_stream_read], entered with the
    selector of the buffer to drain and its [available] count. *)
Definition read_copy (s : sd_async_stream) (sel available max_bytes : Z)
    : Z * sd_async_stream :=
  if available <=? 0 then
    ((if decide (state s = STREAM_STATE_EOF) then -1 else 0), s)
  else
    let to_copy := if max_bytes <? u32 available then max_bytes else u32 available in
    (s32 to_copy, set_consumed_of s sel (consumed_of s sel + s32 to_copy)).

(** [sd_async_stream_read] on a non-null handle.  [dest] is not looked at
    by this variant. *)
Definition sd_async_stream_read (s : sd_async_stream) (dest max_bytes : Z)
    : Z * sd_async_stream :=
  match state s with
  | STREAM_STATE_ERROR | STREAM_STATE_CLOSED => (-1, s)
  | _ =>
      let sel := active_buffer s in
      let available := valid_of s sel - consumed_of s sel in
      if available <=? 0 then
        let other := 1 - active_buffer s in
        let other_valid := if other =? 0 then buffer_a_valid s else buffer_b_valid s in
        if other_valid >? 0 then
          let s := set_valid_of s sel 0 in
          let s := set_consumed_of s sel 0 in
          let s := set_active_buffer s other in
          let available := valid_of s other - consumed_of s other in
          read_copy s other available max_bytes
        else if decide (state s = STREAM_STATE_EOF) then (-1, s)
        else (0, s)
      else read_copy s sel available max_bytes
  end.

Definition sd_async_stream_available (s : sd_async_stream) : Z :=
  if active_buffer s =? 0 then buffer_a_valid s - buffer_a_consumed s
  else buffer_b_valid s - buffer_b_consumed s.

Definition sd_async_stream_eof (s : sd_async_stream) : bool :=
  bool_decide (state s = STREAM_STATE_EOF) && (sd_async_stream_available s <=? 0).

Definition sd_async_stream_seek (s : sd_async_stream) (position : Z)
    : Z * sd_async_stream :=
  if file s =? 0 then (-1, s)
  else
    match f_lseek dev (file s) position with
    | FR_OK =>
        let s := set_file_pos s position in
        let s := set_buffer_a_valid s 0 in
        let s := set_buffer_b_valid s 0 in
        let s := set_buffer_a_consumed s 0 in
        let s := set_buffer_b_consumed s 0 in
        let s := set_active_buffer s 0 in
        let s := set_fill_offset s 0 in
        if position <? file_size s
        then (0, set_state s STREAM_STATE_FILLING_A)
        else (0, set_state s STREAM_STATE_EOF)
    | _ => (-1, set_state s STREAM_STATE_ERROR)
    end.

Definition sd_async_stream_close (s : sd_async_stream) : sd_async_stream :=
  let s := if file s =? 0 then s else set_file s 0 in
  let s := set_buffers s 0 0 in
  set_state s STREAM_STATE_CLOSED.

Definition sd_async_stream_size (s : sd_async_stream) : Z := file_size s.

Definition sd_async_stream_tell (s : sd_async_stream) : Z :=
  let buffered :=
    if active_buffer s =? 0
    then buffer_a_valid s - buffer_a_consumed s + buffer_b_valid s
    else buffer_b_valid s - buffer_b_consumed s + buffer_a_valid s in
  if file_pos s >? u32 buffered then u32 (file_pos s - u32 buffered) else 0.
End Device.

End SdPump.

(** ** Worker-based variant (core 1 services the queue) *)

Module SdWorker.

Definition SD_ASYNC_STREAM_BUFFER_SAMPLES : Z := 2048.
Definition SD_ASYNC_STREAM_BUFFER_BYTES : Z := SD_ASYNC_STREAM_BUFFER_SAMPLES * 4.
Definition SD_ASYNC_MAX_REQUESTS : nat := 8.
Definition SD_ASYNC_MAX_PATH : nat := 256.
Definition SD_READ_CHUNK_SIZE : Z := 512.
Definition SD_ASYNC_INVALID_REQ : Z := 0.

Inductive stream_state_t :=
  | STREAM_STATE_CLOSED
  | STREAM_STATE_OPENING
  | STREAM_STATE_FILLING_A
  | STREAM_STATE_FILLING_B
  | STREAM_STATE_READY
  | STREAM_STATE_SEEKING
  | STREAM_STATE_EOF
  | STREAM_STATE_ERROR.

#[global] Instance stream_state_eq_dec : EqDecision stream_state_t.
Proof. solve_decision. Defined.

(** [strncpy(d, path, SD_ASYNC_MAX_PATH - 1); d[SD_ASYNC_MAX_PATH - 1] = 0]:
    the string left in [d]. *)
Definition copy_path (path : list Byte.byte) : list Byte.byte :=
  take (SD_ASYNC_MAX_PATH - 1) path.

Record sd_async_stream := {
  state : stream_state_t;
  file : Z;
  file_size : Z;
  file_pos : Z;
  buffer_a : Z;
  buffer_b : Z;
  buffer_a_valid : Z;
  buffer_b_valid : Z;
  buffer_a_consumed : Z;
  buffer_b_consumed : Z;
  active_buffer : Z;
  path : list Byte.byte;
  seek_target : Z;
  slot : Z;
}.

Definition set_state (s : sd_async_stream) (v : stream_state_t) : sd_async_stream :=
  {| state := v; file := file s; file_size := file_size s; file_pos := file_pos s;
     buffer_a := buffer_a s; buffer_b := buffer_b s;
     buffer_a_valid := buffer_a_valid s; buffer_b_valid := buffer_b_valid s;
     buffer_a_consumed := buffer_a_consumed s; buffer_b_consumed := buffer_b_consumed s;
     active_buffer := active_buffer s; path := path s; seek_target := seek_target s;
     slot := slot s |}.

Definition set_file (s : sd_async_stream) (f sz : Z) : sd_async_stream :=
  {| state := state s; file := f; file_size := sz; file_pos := file_pos s;
     buffer_a := buffer_a s; buffer_b := buffer_b s;
     buffer_a_valid := buffer_a_valid s; buffer_b_valid := buffer_b_valid s;
     buffer_a_consumed := buffer_a_consumed s; buffer_b_consumed := buffer_b_consumed s;
     active_buffer := active_buffer s; path := path s; seek_target := seek_target s;
     slot := slot s |}.

Definition set_file_pos (s : sd_async_stream) (v : Z) : sd_async_stream :=
  {| state := state s; file := file s; file_size := file_size s; file_pos := v;
     buffer_a := buffer_a s; buffer_b := buffer_b s;
     buffer_a_valid := buffer_a_valid s; buffer_b_valid := buffer_b_valid s;
     buffer_a_consumed := buffer_a_consumed s; buffer_b_consumed := buffer_b_consumed s;
     active_buffer := active_buffer s; path := path s; seek_target := seek_target s;
     slot := slot s |}.

Definition set_buffers (s : sd_async_stream) (a b : Z) : sd_async_stream :=
  {| state := state s; file := file s; file_size := file_size s; file_pos := file_pos s;
     buffer_a := a; buffer_b := b;
     buffer_a_valid := buffer_a_valid s; buffer_b_valid := buffer_b_valid s;
     buffer_a_consumed := buffer_a_consumed s; buffer_b_consumed := buffer_b_consumed s;
     active_buffer := active_buffer s; path := path s; seek_target := seek_target s;
     slot := slot s |}.

Definition set_buffer_a_valid (s : sd_async_stream) (v : Z) : sd_async_stream :=
  {| state := state s; file := file s; file_size := file_size s; file_pos := file_pos s;
     buffer_a := buffer_a s; buffer_b := buffer_b s;
     buffer_a_valid := v; buffer_b_valid := buffer_b_valid s;
     buffer_a_consumed := buffer_a_consumed s; buffer_b_consumed := buffer_b_consumed s;
     active_buffer := active_buffer s; path := path s; seek_target := seek_target s;
     slot := slot s |}.

Definition set_buffer_b_valid (s : sd_async_stream) (v : Z) : sd_async_stream :=
  {| state := state s; file := file s; file_size := file_size s; file_pos := file_pos s;
     buffer_a := buffer_a s; buffer_b := buffer_b s;
     buffer_a_valid := buffer_a_valid s; buffer_b_valid := v;
     buffer_a_consumed := buffer_a_consumed s; buffer_b_consumed := buffer_b_consumed s;
     active_buffer := active_buffer s; path := path s; seek_target := seek_target s;
     slot := slot s |}.

Definition set_buffer_a_consumed (s : sd_async_stream) (v : Z) : sd_async_stream :=
  {| state := state s; file := file s; file_size := file_size s; file_pos := file_pos s;
     buffer_a := buffer_a s; buffer_b := buffer_b s;
     buffer_a_valid := buffer_a_valid s; buffer_b_valid := buffer_b_valid s;
     buffer_a_consumed := v; buffer_b_consumed := buffer_b_consumed s;
     active_buffer := active_buffer s; path := path s; seek_target := seek_target s;
     slot := slot s |}.

Definition set_buffer_b_consumed (s : sd_async_stream) (v : Z) : sd_async_stream :=
  {| state := state s; file := file s; file_size := file_size s; file_pos := file_pos s;
     buffer_a := buffer_a s; buffer_b := buffer_b s;
     buffer_a_valid := buffer_a_valid s; buffer_b_valid := buffer_b_valid s;
     buffer_a_consumed := buffer_a_consumed s; buffer_b_consumed := v;
     active_buffer := active_buffer s; path := path s; seek_target := seek_target s;
     slot := slot s |}.

Definition set_active_buffer (s : sd_async_stream) (v : Z) : sd_async_stream :=
  {| state := state s; file := file s; file_size := file_size s; file_pos := file_pos s;
     buffer_a := buffer_a s; buffer_b := buffer_b s;
     buffer_a_valid := buffer_a_valid s; buffer_b_valid := buffer_b_valid s;
     buffer_a_consumed := buffer_a_consumed s; buffer_b_consumed := buffer_b_consumed s;
     active_buffer := v; path := path s; seek_target := seek_target s;
     slot := slot s |}.

Definition set_path (s : sd_async_stream) (v : list Byte.byte) : sd_async_stream :=
  {| state := state s; file := file s; file_size := file_size s; file_pos := file_pos s;
     buffer_a := buffer_a s; buffer_b := buffer_b s;
     buffer_a_valid := buffer_a_valid s; buffer_b_valid := buffer_b_valid s;
     buffer_a_consumed := buffer_a_consumed s; buffer_b_consumed := buffer_b_consumed s;
     active_buffer := active_buffer s; path := v; seek_target := seek_target s;
     slot := slot s |}.

Definition set_seek_target (s : sd_async_stream) (v : Z) : sd_async_stream :=
  {| state := state s; file := file s; file_size := file_size s; file_pos := file_pos s;
     buffer_a := buffer_a s; buffer_b := buffer_b s;
     buffer_a_valid := buffer_a_valid s; buffer_b_valid := buffer_b_valid s;
     buffer_a_consumed := buffer_a_consumed s; buffer_b_consumed := buffer_b_consumed s;
     active_buffer := active_buffer s; path := path s; seek_target := v;
     slot := slot s |}.

Definition valid_of (s : sd_async_stream) (sel : Z) : Z :=
  if sel =? 0 then buffer_a_valid s else buffer_b_valid s.

Definition consumed_of (s : sd_async_stream) (sel : Z) : Z :=
  if sel =? 0 then buffer_a_consumed s else buffer_b_consumed s.

Definition set_valid_of (s : sd_async_stream) (sel : Z) (v : Z) : sd_async_stream :=
  if sel =? 0 then set_buffer_a_valid s v else set_buffer_b_valid s v.

Definition set_consumed_of (s : sd_async_stream) (sel : Z) (v : Z) : sd_async_stream :=
  if sel =? 0 then set_buffer_a_consumed s v else set_buffer_b_consumed s v.

(** Unconsumed bytes of the buffer that is not the active one. *)
Definition other_available (s : sd_async_stream) : Z :=
  valid_of s (1 - active_buffer s) - consumed_of s (1 - active_buffer s).

Definition stream_wf (s : sd_async_stream) : Prop :=
  0 <= buffer_a_consumed s <= buffer_a_valid s /\
  buffer_a_valid s <= SD_ASYNC_STREAM_BUFFER_BYTES /\
  0 <= buffer_b_consumed s <= buffer_b_valid s /\
  buffer_b_valid s <= SD_ASYNC_STREAM_BUFFER_BYTES /\
  (active_buffer s = 0 \/ active_buffer s = 1).

(** The same with the [size_t] fields in their range, and with the buffer
    that is being filled marked empty. *)
Definition stream_inv (s : sd_async_stream) : Prop :=
  stream_wf s /\
  0 <= file_pos s < 2 ^ 32 /\ 0 <= file_size s < 2 ^ 32 /\
  0 <= seek_target s < 2 ^ 32 /\
  (state s = STREAM_STATE_OPENING -> buffer_a_valid s = 0 /\ buffer_b_valid s = 0) /\
  (state s = STREAM_STATE_FILLING_A -> buffer_a_valid s = 0) /\
  (state s = STREAM_STATE_FILLING_B -> buffer_b_valid s = 0).

(** One-shot requests. *)
Inductive req_state_t :=
  | REQ_STATE_FREE
  | REQ_STATE_PENDING
  | REQ_STATE_IN_PROGRESS
  | REQ_STATE_COMPLETE
  | REQ_STATE_ERROR.

#[global] Instance req_state_eq_dec : EqDecision req_state_t.
Proof. solve_decision. Defined.

Record oneshot_request_t := {
  req_state : req_state_t;
  req_path : list Byte.byte;
  req_dest : Z;
  req_max_bytes : Z;
  req_result : Z;
  req_id : Z;
}.

(** The queue globals that the one-shot functions use. *)
Record sd_queue := {
  requests : list oneshot_request_t;
  g_initialized : bool;
  g_next_req_id : Z;
}.

(** State after [sd_async_init]: [memset(requests, 0, ...)], first id 1. *)
Definition free_request : oneshot_request_t :=
  {| req_state := REQ_STATE_FREE; req_path := []; req_dest := 0;
     req_max_bytes := 0; req_result := 0; req_id := 0 |}.

Definition sd_async_init : sd_queue :=
  {| requests := replicate SD_ASYNC_MAX_REQUESTS free_request;
     g_initialized := true;
     g_next_req_id := 1 |}.

Section Device.
Variable dev : sd_device.

(** [chunked_sd_read] on a file whose read pointer is at [pos].  Every
    iteration that does not leave the loop adds at least one byte, so
    [total_bytes] iterations are enough. *)
Fixpoint chunked_sd_read_loop (fuel : nat) (fil pos total_bytes bytes_read : Z) : Z :=
  match fuel with
  | O => bytes_read
  | S fuel =>
      if bytes_read <? total_bytes then
        let chunk := u32 (total_bytes - bytes_read) in
        let chunk := if chunk >? SD_READ_CHUNK_SIZE then SD_READ_CHUNK_SIZE else chunk in
        match f_read dev fil (pos + bytes_read) chunk with
        | (FR_OK, br) =>
            let bytes_read := u32 (bytes_read + br) in
            if br <? chunk then bytes_read
            else chunked_sd_read_loop fuel fil pos total_bytes bytes_read
        | (_, _) => 0
        end
      else bytes_read
  end.

Definition chunked_sd_read (fil pos total_bytes : Z) : Z :=
  chunked_sd_read_loop (Z.to_nat total_bytes) fil pos total_bytes 0.

(** The byte count a fill asks for. *)
Definition fill_to_read (s : sd_async_stream) : Z :=
  let to_read := SD_ASYNC_STREAM_BUFFER_BYTES in
  if u32 (file_pos s + to_read) >? file_size s
  then u32 (file_size s - file_pos s) else to_read.

(** [process_stream_work], one definition per case; the recursive calls of
    the C function go from OPENING and SEEKING to FILLING_A and from
    FILLING_A to FILLING_B. *)
Definition work_filling_b (s : sd_async_stream) : sd_async_stream :=
  if (file s =? 0) || (file_pos s >=? file_size s) then
    let s := set_buffer_b_valid s 0 in
    set_state s (if buffer_a_valid s >? 0 then STREAM_STATE_READY else STREAM_STATE_EOF)
  else
    let to_read := fill_to_read s in
    let br := chunked_sd_read (file s) (file_pos s) to_read in
    if (br =? 0) && (to_read >? 0) then set_state s STREAM_STATE_ERROR
    else
      let s := set_buffer_b_valid s (s32 br) in
      let s := set_buffer_b_consumed s 0 in
      let s := set_file_pos s (u32 (file_pos s + br)) in
      set_state s STREAM_STATE_READY.

Definition work_filling_a (s : sd_async_stream) : sd_async_stream :=
  if (file s =? 0) || (file_pos s >=? file_size s) then
    let s := set_buffer_a_valid s 0 in
    set_state s (if buffer_b_valid s >? 0 then STREAM_STATE_READY else STREAM_STATE_EOF)
  else
    let to_read := fill_to_read s in
    let br := chunked_sd_read (file s) (file_pos s) to_read in
    if (br =? 0) && (to_read >? 0) then set_state s STREAM_STATE_ERROR
    else
      let s := set_buffer_a_valid s (s32 br) in
      let s := set_buffer_a_consumed s 0 in
      let s := set_file_pos s (u32 (file_pos s + br)) in
      if (buffer_b_valid s =? 0) && (file_pos s <? file_size s)
      then work_filling_b (set_state s STREAM_STATE_FILLING_B)
      else set_state s STREAM_STATE_READY.

Definition work_opening (s : sd_async_stream) : sd_async_stream :=
  let f := pop_fs_open dev (path s) in
  let s := set_file s f (if f =? 0 then file_size s else f_size dev f) in
  if file s =? 0 then set_state s STREAM_STATE_ERROR
  else
    let s := set_file_pos s 0 in
    work_filling_a (set_state s STREAM_STATE_FILLING_A).

Definition work_seeking (s : sd_async_stream) : sd_async_stream :=
  if file s =? 0 then set_state s STREAM_STATE_ERROR
  else
    match f_lseek dev (file s) (seek_target s) with
    | FR_OK =>
        let s := set_file_pos s (seek_target s) in
        let s := set_buffer_a_valid s 0 in
        let s := set_buffer_b_valid s 0 in
        let s := set_buffer_a_consumed s 0 in
        let s := set_buffer_b_consumed s 0 in
        let s := set_active_buffer s 0 in
        work_filling_a (set_state s STREAM_STATE_FILLING_A)
    | _ => set_state s STREAM_STATE_ERROR
    end.

Definition process_stream_work (s : sd_async_stream) : sd_async_stream :=
  match state s with
  | STREAM_STATE_OPENING => work_opening s
  | STREAM_STATE_FILLING_A => work_filling_a s
  | STREAM_STATE_FILLING_B => work_filling_b s
  | STREAM_STATE_SEEKING => work_seeking s
  | _ => s
  end.

(** What one iteration of [core1_worker] does with one stream. *)
Definition worker_stream_pass (s : sd_async_stream) : sd_async_stream :=
  let s :=
    match state s with
    | STREAM_STATE_CLOSED | STREAM_STATE_READY
    | STREAM_STATE_EOF | STREAM_STATE_ERROR => s
    | _ => process_stream_work s
    end in
  match state s with
  | STREAM_STATE_READY =>
      let inactive := 1 - active_buffer s in
      if (inactive =? 0) && (buffer_a_valid s =? 0) && (file_pos s <? file_size s)
      then process_stream_work (set_state s STREAM_STATE_FILLING_A)
      else if (inactive =? 1) && (buffer_b_valid s =? 0) && (file_pos s <? file_size s)
      then process_stream_work (set_state s STREAM_STATE_FILLING_B)
      else s
  | _ => s
  end.

(** [sd_async_stream_open] on the slot [s] it found closed, with the two
    pointers [psram_malloc] returned.  The caller spins while core 1 opens
    the file and fills the buffers; [None] is the [NULL] result. *)
Definition sd_async_stream_open (s : sd_async_stream) (p : list Byte.byte)
    (mem_a mem_b : Z) : option sd_async_stream * sd_async_stream :=
  let s := set_buffers s mem_a mem_b in
  if (buffer_a s =? 0) || (buffer_b s =? 0) then (None, set_buffers s 0 0)
  else
    let s := set_file s 0 0 in
    let s := set_file_pos s 0 in
    let s := set_buffer_a_valid s 0 in
    let s := set_buffer_b_valid s 0 in
    let s := set_buffer_a_consumed s 0 in
    let s := set_buffer_b_consumed s 0 in
    let s := set_active_buffer s 0 in
    let s := set_seek_target s 0 in
    let s := set_path s (copy_path p) in
    let s := set_state s STREAM_STATE_OPENING in
    let s := process_stream_work s in
    if decide (state s = STREAM_STATE_ERROR)
    then (None, set_state (set_buffers s 0 0) STREAM_STATE_CLOSED)
    else (Some s, s).

Definition read_copy (s : sd_async_stream) (sel available max_bytes : Z)
    : Z * sd_async_stream :=
  if available <=? 0 then
    ((if decide (state s = STREAM_STATE_EOF) then -1 else 0), s)
  else
    let to_copy := if max_bytes <? u32 available then max_bytes else u32 available in
    (s32 to_copy, set_consumed_of s sel (consumed_of s sel + s32 to_copy)).

(** [sd_async_stream_read] on a non-null handle; [dest] is an address. *)
Definition sd_async_stream_read (s : sd_async_stream) (dest max_bytes : Z)
    : Z * sd_async_stream :=
  if (dest =? 0) || (max_bytes =? 0) then (0, s)
  else if decide (state s = STREAM_STATE_ERROR) then (-1, s)
  else
    let sel := active_buffer s in
    let available := valid_of s sel - consumed_of s sel in
    if available <=? 0 then
      let other := 1 - active_buffer s in
      let other_valid := if other =? 0 then buffer_a_valid s else buffer_b_valid s in
      if other_valid >? 0 then
        let s := set_valid_of s sel 0 in
        let s := set_consumed_of s sel 0 in
        let s := set_active_buffer s other in
        let available := valid_of s other - consumed_of s other in
        read_copy s other available max_bytes
      else if decide (state s = STREAM_STATE_EOF) then (-1, s)
      else (0, s)
    else read_copy s sel available max_bytes.

Definition sd_async_stream_available (s : sd_async_stream) : Z :=
  if active_buffer s =? 0 then buffer_a_valid s - buffer_a_consumed s
  else buffer_b_valid s - buffer_b_consumed s.

Definition sd_async_stream_eof (s : sd_async_stream) : bool :=
  bool_decide (state s = STREAM_STATE_EOF) && (sd_async_stream_available s <=? 0).

(** [sd_async_stream_seek]: the caller posts the request and spins until
    core 1 has taken the stream out of SEEKING; the worker's part is
    [process_stream_work]. *)
Definition sd_async_stream_seek (s : sd_async_stream) (position : Z)
    : Z * sd_async_stream :=
  if decide (state s = STREAM_STATE_ERROR) then (-1, s)
  else
    let s := set_seek_target s position in
    let s := set_state s STREAM_STATE_SEEKING in
    let s := process_stream_work s in
    ((if decide (state s = STREAM_STATE_ERROR) then -1 else 0), s).

(** [sd_async_stream_close]: waits for core 1 to finish pending work on
    the stream, then releases it. *)
Definition sd_async_stream_close (s : sd_async_stream) : sd_async_stream :=
  let s := process_stream_work s in
  let s := set_file s 0 (file_size s) in
  let s := set_buffers s 0 0 in
  set_state s STREAM_STATE_CLOSED.

(** *** One-shot requests *)

Definition set_request (r : oneshot_request_t) (st : req_state_t) (res : Z)
    : oneshot_request_t :=
  {| req_state := st; req_path := req_path r; req_dest := req_dest r;
     req_max_bytes := req_max_bytes r; req_result := res; req_id := req_id r |}.

Definition process_oneshot_work (r : oneshot_request_t) : oneshot_request_t :=
  let f := pop_fs_open dev (req_path r) in
  if f =? 0 then set_request r REQ_STATE_ERROR (-1)
  else
    let file_size := f_size dev f in
    let to_read := if req_max_bytes r <? file_size then req_max_bytes r else file_size in
    match f_read dev f 0 to_read with
    | (FR_OK, br) => set_request r REQ_STATE_COMPLETE (s32 br)
    | (_, _) => set_request r REQ_STATE_ERROR (-1)
    end.

(** The loop over [requests] of one iteration of [core1_worker]. *)
Definition worker_request_slot (r : oneshot_request_t) : oneshot_request_t :=
  match req_state r with
  | REQ_STATE_PENDING =>
      process_oneshot_work (set_request r REQ_STATE_IN_PROGRESS (req_result r))
  | _ => r
  end.

Definition worker_requests_pass (q : sd_queue) : sd_queue :=
  {| requests := worker_request_slot <$> requests q;
     g_initialized := g_initialized q;
     g_next_req_id := g_next_req_id q |}.
End Device.

(** A slot [sd_async_read_file] may take. *)
Definition slot_reusable (r : oneshot_request_t) : bool :=
  match req_state r with
  | REQ_STATE_FREE | REQ_STATE_COMPLETE | REQ_STATE_ERROR => true
  | _ => false
  end.

(** The scan [for (i = 0; i < SD_ASYNC_MAX_REQUESTS; i++) if (...) { r = &requests[i]; break; }]. *)
Fixpoint find_slot (P : oneshot_request_t -> bool) (rs : list oneshot_request_t)
    : option nat :=
  match rs with
  | [] => None
  | r :: rs => if P r then Some O else S <$> find_slot P rs
  end.

(** [sd_async_read_file]; [path] is [None] for a null pointer.  Returns the
    request id. *)
Definition sd_async_read_file (q : sd_queue) (path : option (list Byte.byte))
    (dest max_bytes : Z) : Z * sd_queue :=
  match path with
  | None => (SD_ASYNC_INVALID_REQ, q)
  | Some path =>
      if negb (g_initialized q) || (dest =? 0) then (SD_ASYNC_INVALID_REQ, q)
      else
        match find_slot slot_reusable (requests q) with
        | None => (SD_ASYNC_INVALID_REQ, q)
        | Some i =>
            let r :=
              {| req_state := REQ_STATE_PENDING; req_path := copy_path path;
                 req_dest := dest; req_max_bytes := max_bytes; req_result := 0;
                 req_id := g_next_req_id q |} in
            let next := u32 (g_next_req_id q + 1) in
            let next := if next =? SD_ASYNC_INVALID_REQ then 1 else next in
            (req_id r,
             {| requests := <[i := r]> (requests q);
                g_initialized := g_initialized q;
                g_next_req_id := next |})
        end
  end.

Definition has_id (req : Z) (r : oneshot_request_t) : bool := req_id r =? req.

Definition sd_async_is_complete (q : sd_queue) (req : Z) : bool :=
  if req =? SD_ASYNC_INVALID_REQ then true
  else
    match find_slot (has_id req) (requests q) with
    | Some i =>
        match requests q !! i with
        | Some r =>
            bool_decide (req_state r = REQ_STATE_COMPLETE)
            || bool_decide (req_state r = REQ_STATE_ERROR)
        | None => true
        end
    | None => true
    end.

Definition sd_async_get_result (q : sd_queue) (req : Z) : Z :=
  if req =? SD_ASYNC_INVALID_REQ then -1
  else
    match find_slot (has_id req) (requests q) with
    | Some i =>
        match requests q !! i with
        | Some r => req_result r
        | None => -1
        end
    | None => -1
    end.

(** The request [sd_async_is_complete] and [sd_async_get_result] look at for
    an id: the first slot that carries it. *)
Definition request_of (q : sd_queue) (req : Z) : option oneshot_request_t :=
  match find_slot (has_id req) (requests q) with
  | Some i => requests q !! i
  | None => None
  end.

Definition cancel_slot (req : Z) (r : oneshot_request_t) : bool :=
  (req_id r =? req) && bool_decide (req_state r = REQ_STATE_PENDING).

Definition sd_async_cancel (q : sd_queue) (req : Z) : sd_queue :=
  if req =? SD_ASYNC_INVALID_REQ then q
  else
    match find_slot (cancel_slot req) (requests q) with
    | Some i =>
        {| requests :=
             alter (fun r =>
                      {| req_state := REQ_STATE_FREE; req_path := req_path r;
                         req_dest := req_dest r; req_max_bytes := req_max_bytes r;
                         req_result := req_result r; req_id := req_id r |})
                   i (requests q);
           g_initialized := g_initialized q;
           g_next_req_id := g_next_req_id q |}
    | None => q
    end.

(** Slot [i] holds the pending request [rid] for the stored path [p], and no
    other slot carries that id. *)
Definition pending_at (q : sd_queue) (i : nat) (rid : Z) (p : list Byte.byte) : Prop :=
  (exists r, requests q !! i = Some r /\ req_id r = rid /\
             req_state r = REQ_STATE_PENDING /\ req_path r = p) /\
  (forall j r', j <> i -> requests q !! j = Some r' -> req_id r' <> rid).

(** Every id in the table is older than the next id to be handed out. *)
Definition ids_below (q : sd_queue) : Prop :=
  0 < g_next_req_id q /\
  Forall (fun r => req_id r < g_next_req_id q) (requests q).

(** Requests submitted one after the other; each is (path, dest, max_bytes).
    The ids handed out are dropped. *)
Definition submit_all (later : list (list Byte.byte * Z * Z)) (q : sd_queue) : sd_queue :=
  fold_left (fun q rq => (sd_async_read_file q (Some rq.1.1) rq.1.2 rq.2).2) later q.

End SdWorker.

(** * Concrete inputs used by the examples *)

Module Fixtures.

(** A board wiring. *)
Definition example_board : Hdmi.board_config :=
  {| Hdmi.HDMI_PIN_invert_diffpairs := false;
     Hdmi.HDMI_PIN_RGB_notBGR := true;
     Hdmi.PICO_PC := false |}.

(** A healthy card on which every path names one file of [size] bytes; a
    read delivers what is left of the file, up to the count asked for. *)
Definition card_with_file (size : Z) : sd_device :=
  {| pop_fs_open := fun _ => 1;
     f_size := fun _ => size;
     f_read := fun _ pos btr => (FR_OK, Z.max 0 (Z.min btr (size - pos)));
     f_lseek := fun _ _ => FR_OK |}.

(** A card on which files open and seek but every read fails. *)
Definition card_read_fails (size : Z) : sd_device :=
  {| pop_fs_open := fun _ => 1;
     f_size := fun _ => size;
     f_read := fun _ _ _ => (FR_DISK_ERR, 0);
     f_lseek := fun _ _ => FR_OK |}.

(** A card on which no path can be opened. *)
Definition card_without_files : sd_device :=
  {| pop_fs_open := fun _ => 0;
     f_size := fun _ => 0;
     f_read := fun _ _ _ => (FR_DISK_ERR, 0);
     f_lseek := fun _ _ => FR_DISK_ERR |}.

(** The path "x.dat". *)
Definition some_path : list Byte.byte :=
  [Byte.x78; Byte.x2e; Byte.x64; Byte.x61; Byte.x74].

(** A slot of [streams] after [sd_async_init], in either variant. *)
Definition pump_closed_slot : SdPump.sd_async_stream :=
  {| SdPump.state := SdPump.STREAM_STATE_CLOSED; SdPump.file := 0;
     SdPump.file_size := 0; SdPump.file_pos := 0;
     SdPump.buffer_a := 0; SdPump.buffer_b := 0;
     SdPump.buffer_a_valid := 0; SdPump.buffer_b_valid := 0;
     SdPump.buffer_a_consumed := 0; SdPump.buffer_b_consumed := 0;
     SdPump.active_buffer := 0; SdPump.fill_offset := 0; SdPump.slot := 0 |}.

Definition worker_closed_slot : SdWorker.sd_async_stream :=
  {| SdWorker.state := SdWorker.STREAM_STATE_CLOSED; SdWorker.file := 0;
     SdWorker.file_size := 0; SdWorker.file_pos := 0;
     SdWorker.buffer_a := 0; SdWorker.buffer_b := 0;
     SdWorker.buffer_a_valid := 0; SdWorker.buffer_b_valid := 0;
     SdWorker.buffer_a_consumed := 0; SdWorker.buffer_b_consumed := 0;
     SdWorker.active_buffer := 0; SdWorker.path := [];
     SdWorker.seek_target := 0; SdWorker.slot := 0 |}.

(** A 10000-byte file opened for streaming, then 8192 bytes read from it:
    buffer A is used up and buffer B holds the remaining 1808 bytes. *)
Definition pump_first_buffer_drained : SdPump.sd_async_stream :=
  let dev := card_with_file 10000 in
  let s := (SdPump.sd_async_stream_open dev 64 pump_closed_slot some_path 4096 16384).2 in
  (SdPump.sd_async_stream_read s 32768 8192).2.

Definition worker_first_buffer_drained : SdWorker.sd_async_stream :=
  let dev := card_with_file 10000 in
  let s := (SdWorker.sd_async_stream_open dev worker_closed_slot some_path 4096 16384).2 in
  (SdWorker.sd_async_stream_read s 32768 8192).2.

(** An empty file opened for streaming with the worker variant. *)
Definition worker_empty_file : SdWorker.sd_async_stream :=
  (SdWorker.sd_async_stream_open (card_with_file 0) worker_closed_slot some_path 4096 16384).2.

Definition pump_empty_file : SdPump.sd_async_stream :=
  (SdPump.sd_async_stream_open (card_with_file 0) 64 pump_closed_slot
     some_path 4096 16384).2.

(** A 20000-byte file opened with the worker variant; the reader uses up
    buffer A and moves on to buffer B, and the worker's refill of buffer A
    then meets a card whose reads fail. *)
Definition worker_failed_stream : SdWorker.sd_async_stream :=
  let s := (SdWorker.sd_async_stream_open (card_with_file 20000) worker_closed_slot
              some_path 4096 16384).2 in
  let s := (SdWorker.sd_async_stream_read s 32768 8192).2 in
  let s := (SdWorker.sd_async_stream_read s 32768 100).2 in
  SdWorker.worker_stream_pass (card_read_fails 20000) s.

(** A file opened with the pump variant on a card whose reads fail. *)
Definition pump_failed_stream : SdPump.sd_async_stream :=
  (SdPump.sd_async_stream_open (card_read_fails 10000) 64 pump_closed_slot
     some_path 4096 16384).2.

(** Requests for the byte counts [counts] are submitted in that order on a
    freshly initialised queue, against a card without files; the worker then
    makes one pass.  For every request, in submission order: what
    [sd_async_is_complete] and [sd_async_get_result] answer and the state of
    the request. *)
Definition submit_counts (counts : list Z) : list Z * SdWorker.sd_queue :=
  fold_left
    (fun acc n =>
       let r := SdWorker.sd_async_read_file acc.2 (Some some_path) 32768 n in
       (acc.1 ++ [r.1], r.2))
    counts ([], SdWorker.sd_async_init).

Definition oneshot_scenario (counts : list Z)
    : list (bool * Z * option SdWorker.req_state_t) :=
  let '(ids, q) := submit_counts counts in
  let q := SdWorker.worker_requests_pass card_without_files q in
  (fun rid =>
     (SdWorker.sd_async_is_complete q rid, SdWorker.sd_async_get_result q rid,
      SdWorker.req_state <$> SdWorker.request_of q rid)) <$> ids.

End Fixtures.

(** * Vocabulary for the properties of the encoders *)

Module HdmiWire.

(** Number of positions [i < n - 1] at which bit [i] and bit [i + 1] of [v]
    differ: the level changes on the wire when the [n] low bits of [v] are
    sent one after the other. *)
Definition bit_transitions (n : nat) (v : Z) : Z :=
  Z.of_nat (length (filter (fun i => Z.testbit v i <> Z.testbit v (i + 1))
                           (seqZ 0 (Z.of_nat n - 1)))).

(** What makes a 10-bit symbol [q] a transition-minimised code of the byte
    [d], [x] telling whether the XNOR form was chosen. *)
Definition symbol_law (d q : Z) (x : bool) : bool :=
  (256 <=? q) && (q <? 768)
  && eqb (Z.testbit q 9) x && eqb (Z.testbit q 8) (negb x)
  && eqb (Z.testbit q 0) (Z.testbit d 0)
  && forallb (fun i => eqb (Z.testbit d i)
                           (xorb (xorb (Z.testbit q i) (Z.testbit q (i - 1))) x))
             (seqZ 1 7)
  && (bit_transitions 8 (Z.land q 255) <=? 3)
  && (bit_transitions 10 q <=? 5).

(** No two arguments in [l] have the same image under [f]; the images are
    tabulated once. *)
Definition distinct_on (f : Z -> Z) (l : list Z) : bool :=
  let t := map (fun d => (d, f d)) l in
  forallb (fun a => forallb (fun b => implb (a.2 =? b.2) (a.1 =? b.1)) t) t.

(** The channel of a colour at bit offset [k] (16 red, 8 green, 0 blue). *)
Definition colour_channel (k color : Z) : Z := Z.land (Z.shiftr color k) 255.

Definition table_decreasing (l : list Z) : bool :=
  forallb (fun i => rd l (i + 1) <=? rd l i) (seqZ 0 63).

(** The input whose bits travel on lane [k] of the word built by
    [get_ser_diff_data] (lane 0 is the lowest pair of bits of every 6-bit
    group; the names are those of the parameters). *)
Definition ser_lane_source (cfg : Hdmi.board_config) (dataR dataG dataB : Z) (k : Z) : Z :=
  let r := if Hdmi.PICO_PC cfg then dataG else dataR in
  let g := if Hdmi.PICO_PC cfg then dataR else dataG in
  if Hdmi.HDMI_PIN_RGB_notBGR cfg
  then (if k =? 2 then r else if k =? 1 then g else dataB)
  else (if k =? 2 then dataB else if k =? 1 then g else r).

(** Bit offset in the word of the 6-bit group built by iteration [i]. *)
Definition ser_group_pos (i : Z) : Z :=
  if i <? 5 then 32 + 6 * (4 - i) else 6 * (9 - i).

(** The pair of bits sent for a data bit: the bit and its complement. *)
Definition ser_pair (cfg : Hdmi.board_config) (bit : bool) : Z :=
  if xorb bit (Hdmi.HDMI_PIN_invert_diffpairs cfg) then 1 else 2.

Definition ser_group (cfg : Hdmi.board_config) (dataR dataG dataB i : Z) : Z :=
  16 * ser_pair cfg (Z.testbit (ser_lane_source cfg dataR dataG dataB 2) (9 - i))
  + 4 * ser_pair cfg (Z.testbit (ser_lane_source cfg dataR dataG dataB 1) (9 - i))
  + ser_pair cfg (Z.testbit (ser_lane_source cfg dataR dataG dataB 0) (9 - i)).

End HdmiWire.

(** * The scanline interrupt of the HDMI driver *)

Module HdmiIrq.
Import Hdmi.

(** [video_mode[0]]: [h_total] and [h_width], the only fields the interrupt
    handler reads. *)
Definition h_total : Z := 524.
Definition h_width : Z := 480.

(** The two scanline buffers are [dma_lines[0] = &conv_color_front[1024]] and
    [dma_lines[1] = &conv_color_front[1124]]: 400 bytes each, which are the
    64-bit words 512..561 and 562..611 of the front buffer.  The handler
    addresses them as bytes; the RP2350 is little-endian. *)
Definition LINE_BYTES : Z := 400.
Definition LINE_WORDS : nat := 50.

Definition line_word_index (k : Z) : nat := Z.to_nat (512 + 50 * k).

Definition word_bytes (w : Z) : list Z :=
  (fun j => Z.land (Z.shiftr w (8 * j)) 255) <$> seqZ 0 8.

Fixpoint pack_words (bytes : list Z) : list Z :=
  match bytes with
  | b0 :: b1 :: b2 :: b3 :: b4 :: b5 :: b6 :: b7 :: rest =>
      (b0 + 2 ^ 8 * b1 + 2 ^ 16 * b2 + 2 ^ 24 * b3 + 2 ^ 32 * b4 + 2 ^ 40 * b5
       + 2 ^ 48 * b6 + 2 ^ 56 * b7) :: pack_words rest
  | _ => []
  end.

(** The bytes of scanline buffer [k], and the front buffer once that
    scanline buffer holds [bytes]. *)
Definition line_bytes (front : list Z) (k : Z) : list Z :=
  concat (word_bytes <$> take LINE_WORDS (drop (line_word_index k) front)).

Definition store_line (front : list Z) (k : Z) (bytes : list Z) : list Z :=
  take (line_word_index k) front ++ pack_words bytes
  ++ drop (line_word_index k + LINE_WORDS) front.

(** [memset(buf + off, v, n)] and a run of byte stores starting at
    [buf + off], on a byte array. *)
Definition memset (buf : list Z) (off v n : Z) : list Z :=
  take (Z.to_nat off) buf ++ replicate (Z.to_nat n) (u8 v)
  ++ drop (Z.to_nat (off + n)) buf.

Definition store_bytes (buf : list Z) (off : Z) (bytes : list Z) : list Z :=
  take (Z.to_nat off) buf ++ bytes ++ drop (Z.to_nat off + length bytes) buf.

(** What the handler leaves in [activ_buf] for the line it has just counted:
    a visible line ([line < mode.h_width]), the line of the vertical sync
    pulse, or a blank line. *)
Definition build_scanline (fs : frame_source) (line : Z) (activ_buf : list Z) : list Z :=
  if line <? h_width then
    let buf := store_bytes activ_buf 72 (active_pixels fs line) in
    let buf := memset buf 48 BASE_HDMI_CTRL_INX 24 in
    let buf := memset buf 0 (BASE_HDMI_CTRL_INX + 1) 48 in
    memset buf 392 BASE_HDMI_CTRL_INX 8
  else if (line >=? 490) && (line <? 492) then
    let buf := memset activ_buf 48 (BASE_HDMI_CTRL_INX + 2) 352 in
    memset buf 0 (BASE_HDMI_CTRL_INX + 3) 48
  else
    let buf := memset activ_buf 48 BASE_HDMI_CTRL_INX 352 in
    memset buf 0 (BASE_HDMI_CTRL_INX + 1) 48.

(** The driver state the handler works on: the palette state, the handler's
    static counters, and [dma_read_sel], the index of the entry of
    [DMA_BUF_ADDR] whose address the handler last gave to the control
    channel ([dma_channel_set_read_addr]): the scanline buffer the DMA
    sends next. *)
Record irq_state := {
  drv : hdmi_state;
  line : Z;
  inx_buf_dma : Z;
  irq_inx : Z;
  hdmi_irq_count : Z;
  hdmi_fifo_underrun_count : Z;
  dma_read_sel : Z;
}.

Definition is_byte (b : Z) : Prop := 0 <= b < 256.

Definition set_front (s : hdmi_state) (front : list Z) : hdmi_state :=
  {| palette := palette s;
     palette_original := palette_original s;
     g_hdmi_fade_level := g_hdmi_fade_level s;
     g_hdmi_fade_rows := g_hdmi_fade_rows s;
     conv_color_front := front;
     conv_color_back := conv_color_back s;
     conv_color_dirty := conv_color_dirty s;
     conv_color_swap_count := conv_color_swap_count s |}.

(** [dma_handler_HDMI]; [tx_fifo_empty] is what
    [pio_sm_is_tx_fifo_empty(PIO_VIDEO, SM_video)] answers. *)
Definition dma_handler_HDMI (fs : frame_source) (tx_fifo_empty : bool) (st : irq_state)
    : irq_state :=
  let irq_count := u32 (hdmi_irq_count st + 1) in
  let underrun :=
    if tx_fifo_empty then u32 (hdmi_fifo_underrun_count st + 1)
    else hdmi_fifo_underrun_count st in
  let inx := u32 (irq_inx st + 1) in
  let read_sel := Z.land (inx_buf_dma st) 1 in
  let '(line', drv') :=
    if line st >=? h_total then (0, vsync_swap_buffers (drv st))
    else (u32 (line st + 1), drv st) in
  if Z.land line' 1 =? 0 then
    {| drv := drv'; line := line'; inx_buf_dma := inx_buf_dma st; irq_inx := inx;
       hdmi_irq_count := irq_count; hdmi_fifo_underrun_count := underrun;
       dma_read_sel := read_sel |}
  else
    let inx_buf := u32 (inx_buf_dma st + 1) in
    let sel := Z.land inx_buf 1 in
    let activ_buf := line_bytes (conv_color_front drv') sel in
    let front := store_line (conv_color_front drv') sel (build_scanline fs line' activ_buf) in
    {| drv := set_front drv' front; line := line'; inx_buf_dma := inx_buf;
       irq_inx := inx; hdmi_irq_count := irq_count;
       hdmi_fifo_underrun_count := underrun; dma_read_sel := read_sel |}.

(** The line the handler counts next, and the palette state once it has
    counted it: the end of the frame is where the palette is published. *)
Definition next_line (st : irq_state) : Z :=
  if line st >=? h_total then 0 else u32 (line st + 1).

Definition next_drv (st : irq_state) : hdmi_state :=
  if line st >=? h_total then vsync_swap_buffers (drv st) else drv st.

(** Everything of the palette state but the scanline area of the front
    buffer. *)
Definition same_tables (s s' : hdmi_state) : Prop :=
  palette s' = palette s /\
  palette_original s' = palette_original s /\
  g_hdmi_fade_level s' = g_hdmi_fade_level s /\
  g_hdmi_fade_rows s' = g_hdmi_fade_rows s /\
  take CONV_LUT_WORDS (conv_color_front s') = take CONV_LUT_WORDS (conv_color_front s) /\
  conv_color_back s' = conv_color_back s /\
  conv_color_dirty s' = conv_color_dirty s /\
  conv_color_swap_count s' = conv_color_swap_count s.

(** The handler state right after [hdmi_init] has installed the handler. *)
Definition irq_boot (s : hdmi_state) : irq_state :=
  {| drv := s; line := 0; inx_buf_dma := 0; irq_inx := 0; hdmi_irq_count := 0;
     hdmi_fifo_underrun_count := 0; dma_read_sel := 0 |}.

Section Tables.
Variable cfg : board_config.

(** The part of [hdmi_init] that fills the lookup tables: every
    non-reserved entry is programmed from [palette], then the four sync
    entries are stored in [conv_color_a] and in [conv_color_b] (the arrays
    behind the front and the back pointer). *)
Definition hdmi_init_palette (s : hdmi_state) : hdmi_state :=
  fold_left
    (fun s ci => if is_ctrl_inx ci then s
                 else graphics_set_palette_hdmi cfg s (u8 ci) (rd (palette s) ci))
    (seqZ 0 256) s.

Definition hdmi_init_tables (s : hdmi_state) : hdmi_state :=
  let s := hdmi_init_palette s in
  {| palette := palette s;
     palette_original := palette_original s;
     g_hdmi_fade_level := g_hdmi_fade_level s;
     g_hdmi_fade_rows := g_hdmi_fade_rows s;
     conv_color_front := write_sync_colors cfg (conv_color_front s);
     conv_color_back := write_sync_colors cfg (conv_color_back s);
     conv_color_dirty := conv_color_dirty s;
     conv_color_swap_count := conv_color_swap_count s |}.

(** The calls that reach the driver once it runs: the palette API from the
    main program and the scanline interrupt. *)
Inductive driver_call :=
  | Call_set_palette (i color888 : Z)
  | Call_set_fade_level (fade_level which_rows : Z)
  | Call_restore_sync_colors
  | Call_irq (fs : frame_source) (tx_fifo_empty : bool).

Definition with_drv (st : irq_state) (s : hdmi_state) : irq_state :=
  {| drv := s; line := line st; inx_buf_dma := inx_buf_dma st; irq_inx := irq_inx st;
     hdmi_irq_count := hdmi_irq_count st;
     hdmi_fifo_underrun_count := hdmi_fifo_underrun_count st;
     dma_read_sel := dma_read_sel st |}.

Definition driver_step (st : irq_state) (c : driver_call) : irq_state :=
  match c with
  | Call_set_palette i color888 =>
      with_drv st (graphics_set_palette_hdmi cfg (drv st) i color888)
  | Call_set_fade_level fade_level which_rows =>
      with_drv st (graphics_set_fade_level cfg (drv st) fade_level which_rows)
  | Call_restore_sync_colors => with_drv st (graphics_restore_sync_colors cfg (drv st))
  | Call_irq fs tx_fifo_empty => dma_handler_HDMI fs tx_fifo_empty st
  end.

Definition driver_run (cs : list driver_call) (st : irq_state) : irq_state :=
  fold_left driver_step cs st.

(** A run of interrupts, each with the frame source it finds and the state
    of the TX FIFO. *)
Definition irq_calls (ins : list (frame_source * bool)) : list driver_call :=
  (fun i => Call_irq i.1 i.2) <$> ins.

(** The eight words of the four sync entries (words 480..487), and the
    values [graphics_restore_sync_colors] gives them. *)
Definition sync_entries (buf : list Z) : list Z := take 8 (drop 480 buf).

Definition sync_words : list Z :=
  sync_entries (write_sync_colors cfg (replicate CONV_COLOR_WORDS 0)).

Definition sync_ok (s : hdmi_state) : Prop :=
  sync_entries (conv_color_front s) = sync_words /\
  sync_entries (conv_color_back s) = sync_words.

(** The calls a C caller can make: a palette index is a [uint8_t]. *)
Definition call_ok (c : driver_call) : Prop :=
  match c with
  | Call_set_palette i _ => 0 <= i < 256
  | _ => True
  end.
End Tables.

End HdmiIrq.

#[global] Arguments HdmiIrq.build_scanline : simpl never.
#[global] Arguments HdmiIrq.dma_handler_HDMI : simpl never.
#[global] Arguments HdmiIrq.line_bytes : simpl never.
#[global] Arguments HdmiIrq.store_line : simpl never.

(** * Further concrete inputs *)

Module Samples.

(** A 320 by 240 frame buffer in the default mode whose byte at offset [k]
    is [k]. *)
Definition striped_screen : Hdmi.frame_source :=
  {| Hdmi.graphics_buffer := Some (fun k => k);
     Hdmi.graphics_buffer_width := 320;
     Hdmi.graphics_buffer_height := 240;
     Hdmi.graphics_buffer_shift_x := 0;
     Hdmi.graphics_buffer_shift_y := 0;
     Hdmi.hdmi_graphics_mode := Hdmi.GRAPHICSMODE_DEFAULT;
     Hdmi.g_hdmi_loading_mode := false |}.

End Samples.
(** * Streams in use *)

(** A card on which a read that stays inside the file delivers every byte
    asked for. *)
Definition device_reads_fully (dev : sd_device) : Prop :=
  forall fil pos btr,
    0 <= pos -> 0 <= btr -> pos + btr <= f_size dev fil ->
    f_read dev fil pos btr = (FR_OK, btr).

(** ** A handle of the pump-based variant and its user *)

Module PumpSession.
Import SdPump.

(** What the owner of a handle does with it; [Call_pump] is the turn of the
    handle's slot in the loop of [sd_async_pump]. *)
Inductive stream_call :=
  | Call_read (dest max_bytes : Z)
  | Call_pump
  | Call_seek (position : Z).

(** [max_bytes] and [position] are [size_t] values. *)
Definition call_ok (c : stream_call) : Prop :=
  match c with
  | Call_read _ max_bytes => 0 <= max_bytes < 2 ^ 32
  | Call_pump => True
  | Call_seek position => 0 <= position < 2 ^ 32
  end.

(** A seek that aims before byte [size]. *)
Definition seek_inside (size : Z) (c : stream_call) : Prop :=
  match c with
  | Call_seek position => position < size
  | _ => True
  end.

(** The handle, and the place in the file its user has reached: the
    position of the last seek that returned 0 (the start of the file
    without one) plus the counts returned by the reads made since. *)
Record session := {
  handle : sd_async_stream;
  user_pos : Z;
}.

Section Device.
Variable dev : sd_device.

Definition session_step (u : session) (c : stream_call) : session :=
  match c with
  | Call_read dest max_bytes =>
      let r := sd_async_stream_read (handle u) dest max_bytes in
      {| handle := r.2;
         user_pos := if 0 <? r.1 then user_pos u + r.1 else user_pos u |}
  | Call_pump =>
      {| handle := (pump_slot dev (handle u)).2; user_pos := user_pos u |}
  | Call_seek position =>
      let r := sd_async_stream_seek dev (handle u) position in
      {| handle := r.2;
         user_pos := if r.1 =? 0 then position else user_pos u |}
  end.

Definition session_run (cs : list stream_call) (u : session) : session :=
  fold_left session_step cs u.
End Device.

(** The bytes fetched from the file are those handed out, those waiting in
    the two buffers and those of the fill in progress; a buffer that is
    being filled, and the consumed count of the buffer that is not the
    active one, are at 0. *)
Definition accounted (L : Z) (s : sd_async_stream) : Prop :=
  stream_inv s /\ 0 <= L /\ 0 <= file_size s < 2 ^ 32 /\ file_pos s < 2 ^ 32 /\
  file_pos s = L + (buffer_a_valid s - buffer_a_consumed s)
               + (buffer_b_valid s - buffer_b_consumed s) + fill_offset s /\
  consumed_of s (1 - active_buffer s) = 0 /\
  (state s = STREAM_STATE_FILLING_A -> buffer_a_valid s = 0) /\
  (state s = STREAM_STATE_FILLING_B -> buffer_b_valid s = 0) /\
  (state s = STREAM_STATE_READY \/ state s = STREAM_STATE_EOF \/
   state s = STREAM_STATE_CLOSED -> fill_offset s = 0).

(** A stream that is neither closed nor at the end of its file, and whose
    fill, if one is in progress, has bytes left to fetch. *)
Definition live (s : sd_async_stream) : Prop :=
  state s <> STREAM_STATE_EOF /\ state s <> STREAM_STATE_CLOSED /\
  (state s = STREAM_STATE_FILLING_A \/ state s = STREAM_STATE_FILLING_B ->
   file_pos s < file_size s).

(** The stream once the fill of a buffer has fetched [n] more bytes and is
    complete. *)
Definition filled_a (s : sd_async_stream) (n : Z) : sd_async_stream :=
  {| state := if (buffer_b_valid s =? 0) && (file_pos s + n <? file_size s)
              then STREAM_STATE_FILLING_B else STREAM_STATE_READY;
     file := file s; file_size := file_size s; file_pos := file_pos s + n;
     buffer_a := buffer_a s; buffer_b := buffer_b s;
     buffer_a_valid := fill_offset s + n; buffer_b_valid := buffer_b_valid s;
     buffer_a_consumed := 0; buffer_b_consumed := buffer_b_consumed s;
     active_buffer := active_buffer s; fill_offset := 0; slot := slot s |}.

Definition filled_b (s : sd_async_stream) (n : Z) : sd_async_stream :=
  {| state := STREAM_STATE_READY;
     file := file s; file_size := file_size s; file_pos := file_pos s + n;
     buffer_a := buffer_a s; buffer_b := buffer_b s;
     buffer_a_valid := buffer_a_valid s; buffer_b_valid := fill_offset s + n;
     buffer_a_consumed := buffer_a_consumed s; buffer_b_consumed := 0;
     active_buffer := active_buffer s; fill_offset := 0; slot := slot s |}.

(** What a fill has left to fetch: the room in the buffer or the rest of
    the file. *)
Definition fill_rest (s : sd_async_stream) : Z :=
  Z.min (SD_ASYNC_STREAM_BUFFER_BYTES - fill_offset s) (file_size s - file_pos s).

End PumpSession.

(** ** Concrete streams *)

Module StreamSamples.

(** The handle [sd_async_stream_open] returns for a 10000-byte file, pump
    variant. *)
Definition pump_opened : SdPump.sd_async_stream :=
  (SdPump.sd_async_stream_open (Fixtures.card_with_file 10000) 64
     Fixtures.pump_closed_slot Fixtures.some_path 4096 16384).2.

(** A user that reads, lets the pump run, seeks back into the file and
    reads again. *)
Definition pump_calls : list PumpSession.stream_call :=
  [PumpSession.Call_read 32768 8192; PumpSession.Call_read 32768 100;
   PumpSession.Call_pump; PumpSession.Call_read 32768 5000;
   PumpSession.Call_seek 9000; PumpSession.Call_pump;
   PumpSession.Call_read 32768 50; PumpSession.Call_read 32768 4000;
   PumpSession.Call_read 32768 16].

(** The same with the worker variant. *)
Definition worker_opened : SdWorker.sd_async_stream :=
  (SdWorker.sd_async_stream_open (Fixtures.card_with_file 10000)
     Fixtures.worker_closed_slot Fixtures.some_path 4096 16384).2.

End StreamSamples.
(** ** A handle of the worker-based variant and its user *)

Module WorkerSession.
Import SdWorker.

(** [sd_async_stream_tell] of the worker variant; [buffered] is a
    [size_t]. *)
Definition sd_async_stream_tell (s : sd_async_stream) : Z :=
  let buffered :=
    if active_buffer s =? 0
    then u32 (u32 (buffer_a_valid s - buffer_a_consumed s) + buffer_b_valid s)
    else u32 (u32 (buffer_b_valid s - buffer_b_consumed s) + buffer_a_valid s) in
  if file_pos s >=? buffered then u32 (file_pos s - buffered) else 0.

(** What the owner of a handle does with it; [Call_worker] is one turn of
    [core1_worker] over the handle's slot. *)
Inductive stream_call :=
  | Call_read (dest max_bytes : Z)
  | Call_worker
  | Call_seek (position : Z).

Definition call_ok (c : stream_call) : Prop :=
  match c with
  | Call_read _ max_bytes => 0 <= max_bytes < 2 ^ 32
  | Call_worker => True
  | Call_seek position => 0 <= position < 2 ^ 32
  end.

Definition seek_inside (size : Z) (c : stream_call) : Prop :=
  match c with
  | Call_seek position => position < size
  | _ => True
  end.

Record session := {
  handle : sd_async_stream;
  user_pos : Z;
}.

Section Device.
Variable dev : sd_device.

Definition session_step (u : session) (c : stream_call) : session :=
  match c with
  | Call_read dest max_bytes =>
      let r := sd_async_stream_read (handle u) dest max_bytes in
      {| handle := r.2;
         user_pos := if 0 <? r.1 then user_pos u + r.1 else user_pos u |}
  | Call_worker =>
      {| handle := worker_stream_pass dev (handle u); user_pos := user_pos u |}
  | Call_seek position =>
      let r := sd_async_stream_seek dev (handle u) position in
      {| handle := r.2;
         user_pos := if r.1 =? 0 then position else user_pos u |}
  end.

Definition session_run (cs : list stream_call) (u : session) : session :=
  fold_left session_step cs u.
End Device.

(** The states in which the worker leaves a stream. *)
Definition settled (s : sd_async_stream) : Prop :=
  state s = STREAM_STATE_READY \/ state s = STREAM_STATE_EOF \/
  state s = STREAM_STATE_ERROR.

(** The bytes fetched from the file are those handed out and those waiting
    in the two buffers, and nothing of the buffer that is not the active
    one has been consumed. *)
Definition counted (L : Z) (s : sd_async_stream) : Prop :=
  file_pos s = L + (buffer_a_valid s - buffer_a_consumed s)
               + (buffer_b_valid s - buffer_b_consumed s) /\
  consumed_of s (1 - active_buffer s) = 0.

Definition accounted (L : Z) (s : sd_async_stream) : Prop :=
  stream_inv s /\ settled s /\ 0 <= L /\
  file_size s + SD_ASYNC_STREAM_BUFFER_BYTES <= 2 ^ 32 /\
  (state s <> STREAM_STATE_ERROR -> counted L s).

(** A stream with its file open that is READY or in ERROR. *)
Definition live (s : sd_async_stream) : Prop :=
  (state s = STREAM_STATE_READY \/ state s = STREAM_STATE_ERROR) /\ file s <> 0.

End WorkerSession.

Module WorkerSamples.

(** A user of the worker variant that reads, lets the worker run, seeks back
    into the file and reads again. *)
Definition worker_calls : list WorkerSession.stream_call :=
  [WorkerSession.Call_read 32768 8192; WorkerSession.Call_read 32768 100;
   WorkerSession.Call_worker; WorkerSession.Call_read 32768 5000;
   WorkerSession.Call_seek 9000; WorkerSession.Call_worker;
   WorkerSession.Call_read 32768 50; WorkerSession.Call_read 32768 4000;
   WorkerSession.Call_read 32768 16].

End WorkerSamples.

(** * Properties of the HDMI driver *)

(** One step of a left fold, stated once for every loop below. *)
Lemma fold_left_cons_eq {A B} (F : A -> B -> A) (x : B) (l : list B) (a : A) :
  fold_left F (x :: l) a = fold_left F l (F a x).
Proof. reflexivity. Qed.

Section HdmiFacts.
Import Hdmi.
Variable cfg : board_config.

(** ** Array reads and writes *)

Lemma wr_length (a : list Z) i v : length (wr a i v) = length a.
Proof. unfold wr. apply length_insert. Qed.

Lemma lookup_wr_eq (a : list Z) i v :
  (Z.to_nat i < length a)%nat -> wr a i v !! Z.to_nat i = Some v.
Proof. intros H. unfold wr. by apply list_lookup_insert_eq. Qed.

Lemma lookup_wr_ne (a : list Z) i v (k : nat) :
  Z.to_nat i <> k -> wr a i v !! k = a !! k.
Proof. intros H. unfold wr. by apply list_lookup_insert_ne. Qed.

Lemma rd_wr_eq (a : list Z) i v :
  (Z.to_nat i < length a)%nat -> rd (wr a i v) i = v.
Proof. intros H. unfold rd. by rewrite lookup_wr_eq. Qed.

(** ** The reserved range *)

Lemma is_ctrl_inx_spec i : is_ctrl_inx i = true <-> 240 <= i <= 243.
Proof.
  unfold is_ctrl_inx, BASE_HDMI_CTRL_INX, HDMI_CTRL_COUNT.
  rewrite andb_true_iff, Z.leb_le, Z.ltb_lt. lia.
Qed.

Lemma is_ctrl_inx_false i : is_ctrl_inx i = false <-> ~ 240 <= i <= 243.
Proof.
  rewrite <- is_ctrl_inx_spec. destruct (is_ctrl_inx i); split; congruence.
Qed.

Lemma remap_ctrl_pixel_safe c : is_ctrl_inx (remap_ctrl_pixel c) = false.
Proof.
  unfold remap_ctrl_pixel. destruct (is_ctrl_inx c) eqn:E; [reflexivity | exact E].
Qed.

Lemma blank_pixels_safe : Forall (fun b => is_ctrl_inx b = false) blank_pixels.
Proof. unfold blank_pixels. apply Forall_replicate. reflexivity. Qed.

Lemma default_mode_pixels_safe fs mem input y :
  Forall (fun b => is_ctrl_inx b = false) (default_mode_pixels fs mem input y).
Proof.
  unfold default_mode_pixels.
  destruct (_ || _); [apply blank_pixels_safe |].
  apply Forall_app. split.
  - apply Forall_replicate. reflexivity.
  - apply Forall_map, Forall_forall. intros x _. simpl.
    destruct (_ <? _); [apply remap_ctrl_pixel_safe | reflexivity].
Qed.

Lemma other_mode_pixels_safe mem input :
  Forall (fun b => is_ctrl_inx b = false) (other_mode_pixels mem input).
Proof.
  unfold other_mode_pixels. apply Forall_map, Forall_forall.
  intros x _. apply remap_ctrl_pixel_safe.
Qed.

Lemma active_pixels_safe fs line :
  Forall (fun b => is_ctrl_inx b = false) (active_pixels fs line).
Proof.
  unfold active_pixels.
  destruct (g_hdmi_loading_mode fs); [apply blank_pixels_safe |].
  destruct (graphics_buffer fs) as [mem |]; [| apply blank_pixels_safe].
  destruct (get_line_buffer fs _) as [input |]; [| apply blank_pixels_safe].
  destruct (hdmi_graphics_mode fs).
  - apply default_mode_pixels_safe.
  - apply other_mode_pixels_safe.
Qed.

(** C8: for every pixel byte [c] read from the frame buffer, the value the
    interrupt handler writes into the active pixel region is never one of
    the reserved indices 240..243: the four reserved values become 255 and
    every other value is written unchanged; hence no byte of the 320 active
    pixels of a scanline is reserved, whatever the frame source. *)
Theorem remap_guard_never_reserved (c : Z) :
  ~ (240 <= remap_ctrl_pixel c <= 243) /\
  remap_ctrl_pixel c = (if decide (240 <= c <= 243) then 255 else c) /\
  (forall fs line, Forall (fun b => ~ (240 <= b <= 243)) (active_pixels fs line)).
Proof.
  split; [| split].
  - apply is_ctrl_inx_false, remap_ctrl_pixel_safe.
  - unfold remap_ctrl_pixel. destruct (is_ctrl_inx c) eqn:E.
    + apply is_ctrl_inx_spec in E. by rewrite decide_True.
    + apply is_ctrl_inx_false in E. by rewrite decide_False.
  - intros fs line. eapply Forall_impl; [apply active_pixels_safe |].
    intros b Hb. by apply is_ctrl_inx_false.
Qed.

(** ** One lookup-table entry *)

Lemma write_clut_entry_length buf i c :
  length (write_clut_entry cfg buf i c) = length buf.
Proof. unfold write_clut_entry. by rewrite !wr_length. Qed.

Lemma write_clut_entry_fst buf i c :
  0 <= i -> (Z.to_nat (i * 2 + 1) < length buf)%nat ->
  write_clut_entry cfg buf i c !! Z.to_nat (i * 2) = Some (clut_word cfg c).
Proof.
  intros Hi Hlen. unfold write_clut_entry.
  rewrite lookup_wr_ne by lia. apply lookup_wr_eq. lia.
Qed.

Lemma write_clut_entry_snd buf i c :
  0 <= i -> (Z.to_nat (i * 2 + 1) < length buf)%nat ->
  write_clut_entry cfg buf i c !! Z.to_nat (i * 2 + 1)
  = Some (Z.lxor (clut_word cfg c) DIFF_MASK).
Proof.
  intros Hi Hlen. unfold write_clut_entry.
  rewrite lookup_wr_eq by (rewrite wr_length; lia).
  rewrite rd_wr_eq by lia. reflexivity.
Qed.

Lemma write_clut_entry_other buf i c (k : nat) :
  k <> Z.to_nat (i * 2) -> k <> Z.to_nat (i * 2 + 1) ->
  write_clut_entry cfg buf i c !! k = buf !! k.
Proof.
  intros H1 H2. unfold write_clut_entry.
  rewrite !lookup_wr_ne by congruence. reflexivity.
Qed.

(** ** [graphics_set_palette_hdmi] *)

Lemma set_palette_front s i c :
  conv_color_front (graphics_set_palette_hdmi cfg s i c) = conv_color_front s.
Proof. unfold graphics_set_palette_hdmi. by destruct (is_ctrl_inx i). Qed.

Lemma set_palette_fade_params s i c :
  g_hdmi_fade_level (graphics_set_palette_hdmi cfg s i c) = g_hdmi_fade_level s /\
  g_hdmi_fade_rows (graphics_set_palette_hdmi cfg s i c) = g_hdmi_fade_rows s.
Proof. unfold graphics_set_palette_hdmi. by destruct (is_ctrl_inx i). Qed.

Lemma set_palette_faded_params s1 s2 i c :
  g_hdmi_fade_level s1 = g_hdmi_fade_level s2 ->
  g_hdmi_fade_rows s1 = g_hdmi_fade_rows s2 ->
  set_palette_faded s1 i c = set_palette_faded s2 i c.
Proof. intros H1 H2. unfold set_palette_faded. by rewrite H1, H2. Qed.

Lemma set_palette_wf s i c :
  hdmi_wf s -> hdmi_wf (graphics_set_palette_hdmi cfg s i c).
Proof.
  intros (Hp & Ho & Hf & Hb). unfold graphics_set_palette_hdmi, hdmi_wf.
  destruct (is_ctrl_inx i); simpl;
    rewrite ?wr_length, ?write_clut_entry_length; auto.
Qed.

Lemma set_palette_reserved s i c :
  is_ctrl_inx i = true ->
  conv_color_back (graphics_set_palette_hdmi cfg s i c) = conv_color_back s /\
  conv_color_dirty (graphics_set_palette_hdmi cfg s i c) = conv_color_dirty s.
Proof. intros H. unfold graphics_set_palette_hdmi. by rewrite H. Qed.

Lemma set_palette_visible s i c :
  is_ctrl_inx i = false ->
  conv_color_back (graphics_set_palette_hdmi cfg s i c)
  = write_clut_entry cfg (conv_color_back s) i (set_palette_faded s i c) /\
  conv_color_dirty (graphics_set_palette_hdmi cfg s i c) = true.
Proof. intros H. unfold graphics_set_palette_hdmi. by rewrite H. Qed.

Lemma set_palette_back_lookup s i c :
  hdmi_wf s -> 0 <= i < 256 -> is_ctrl_inx i = false ->
  let b := conv_color_back (graphics_set_palette_hdmi cfg s i c) in
  b !! Z.to_nat (i * 2) = Some (clut_word cfg (set_palette_faded s i c)) /\
  b !! Z.to_nat (i * 2 + 1)
    = Some (Z.lxor (clut_word cfg (set_palette_faded s i c)) DIFF_MASK) /\
  (forall k : nat, k <> Z.to_nat (i * 2) -> k <> Z.to_nat (i * 2 + 1) ->
     b !! k = conv_color_back s !! k).
Proof.
  intros (Hp & Ho & Hf & Hb) Hi Hr b. subst b.
  destruct (set_palette_visible s i c Hr) as [-> _].
  unfold CONV_COLOR_WORDS in Hb. repeat split.
  - apply write_clut_entry_fst; lia.
  - apply write_clut_entry_snd; lia.
  - intros k H1 H2. by apply write_clut_entry_other.
Qed.

(** C7: a palette write to a reserved index (240..243) leaves the whole
    encoded back buffer, the front buffer and the dirty flag as they were;
    a write to any other index stores that index's two encoded 64-bit
    words in the back buffer, leaves every other word of it unchanged and
    sets the dirty flag. *)
Theorem set_palette_encoded_frame (s : hdmi_state) (i c : Z) :
  hdmi_wf s -> 0 <= i < 256 ->
  let s' := graphics_set_palette_hdmi cfg s i c in
  (240 <= i <= 243 ->
     conv_color_back s' = conv_color_back s /\
     conv_color_front s' = conv_color_front s /\
     conv_color_dirty s' = conv_color_dirty s) /\
  (~ 240 <= i <= 243 ->
     conv_color_back s' !! Z.to_nat (i * 2)
       = Some (clut_word cfg (set_palette_faded s i c)) /\
     conv_color_back s' !! Z.to_nat (i * 2 + 1)
       = Some (Z.lxor (clut_word cfg (set_palette_faded s i c)) DIFF_MASK) /\
     (forall k : nat, k <> Z.to_nat (i * 2) -> k <> Z.to_nat (i * 2 + 1) ->
        conv_color_back s' !! k = conv_color_back s !! k) /\
     conv_color_front s' = conv_color_front s /\
     conv_color_dirty s' = true).
Proof.
  intros Hwf Hi s'. subst s'. split.
  - intros Hr. apply is_ctrl_inx_spec in Hr.
    destruct (set_palette_reserved s i c Hr) as [-> ->].
    by rewrite set_palette_front.
  - intros Hr. apply is_ctrl_inx_false in Hr.
    destruct (set_palette_back_lookup s i c Hwf Hi Hr) as (H1 & H2 & H3).
    destruct (set_palette_visible s i c Hr) as [_ Hd].
    rewrite set_palette_front. auto.
Qed.

(** ** [graphics_restore_sync_colors] *)

Lemma write_sync_colors_length buf :
  length (write_sync_colors cfg buf) = length buf.
Proof. unfold write_sync_colors. by rewrite !wr_length. Qed.

Lemma write_sync_colors_other buf (k : nat) :
  (k < 480 \/ 487 < k)%nat -> write_sync_colors cfg buf !! k = buf !! k.
Proof.
  intros Hk. unfold write_sync_colors, BASE_HDMI_CTRL_INX.
  rewrite !lookup_wr_ne by lia. reflexivity.
Qed.

(** ** The loop of [graphics_set_fade_level] *)

Section FadeLoop.
Variables (fade_level which_rows : Z) (originals : list Z).

Let step := fade_level_step cfg fade_level which_rows originals.
Let color (i : Z) := fade_level_color fade_level which_rows (rd originals i) i.

Lemma fade_loop_length (l : list Z) acc :
  length (fold_left step l acc).1 = length acc.1 /\
  length (fold_left step l acc).2 = length acc.2.
Proof.
  revert acc. induction l as [| j l IH]; intros acc; [done |].
  simpl. destruct (IH (step acc j)) as [-> ->].
  unfold step, fade_level_step. destruct (is_ctrl_inx j); [done |].
  simpl. by rewrite wr_length, write_clut_entry_length.
Qed.

(** Entries of indices the loop does not visit, or skips, are untouched. *)
Lemma fade_loop_palette_other (l : list Z) acc (i : Z) :
  0 <= i -> Forall (fun j => 0 <= j) l ->
  (i ∉ l \/ is_ctrl_inx i = true) ->
  (fold_left step l acc).1 !! Z.to_nat i = acc.1 !! Z.to_nat i.
Proof.
  intros Hi Hl. revert acc.
  induction Hl as [| j l Hj Hl IH]; intros acc Hn; [done |].
  simpl. rewrite IH.
  - unfold step, fade_level_step. destruct (is_ctrl_inx j) eqn:Ej; [done |].
    simpl. apply lookup_wr_ne.
    destruct Hn as [Hn | Hn].
    + rewrite not_elem_of_cons in Hn. lia.
    + intros Heq. assert (j = i) by lia. congruence.
  - destruct Hn as [Hn | Hn]; [| by right].
    left. rewrite not_elem_of_cons in Hn. by destruct Hn.
Qed.

Lemma fade_loop_back_other (l : list Z) acc (k : nat) :
  Forall (fun j => 0 <= j) l ->
  (forall j, j ∈ l -> is_ctrl_inx j = false ->
             k <> Z.to_nat (j * 2) /\ k <> Z.to_nat (j * 2 + 1)) ->
  (fold_left step l acc).2 !! k = acc.2 !! k.
Proof.
  intros Hl. revert acc.
  induction Hl as [| j l Hj Hl IH]; intros acc Hn; [done |].
  simpl. rewrite IH.
  - unfold step, fade_level_step. destruct (is_ctrl_inx j) eqn:Ej; [done |].
    simpl. destruct (Hn j) as [H1 H2]; [left | done |].
    by apply write_clut_entry_other.
  - intros j' Hj' Hc. apply Hn; [by right | done].
Qed.

(** Entries of the indices the loop visits and does not skip. *)
Lemma fade_loop_visited (l : list Z) acc (i : Z) :
  Forall (fun j => 0 <= j < 256) l ->
  length acc.1 = 256%nat -> length acc.2 = CONV_COLOR_WORDS ->
  i ∈ l -> is_ctrl_inx i = false ->
  let r := fold_left step l acc in
  r.1 !! Z.to_nat i = Some (color i) /\
  r.2 !! Z.to_nat (i * 2) = Some (clut_word cfg (color i)) /\
  r.2 !! Z.to_nat (i * 2 + 1) = Some (Z.lxor (clut_word cfg (color i)) DIFF_MASK).
Proof.
  intros Hl. revert acc.
  induction Hl as [| j l Hj Hl IH]; intros acc Hp Hb Hin Hc; [by inversion Hin |].
  simpl. destruct (decide (i ∈ l)) as [Hil | Hil].
  - apply IH; [| | done | done].
    + unfold step, fade_level_step. destruct (is_ctrl_inx j); [done |].
      simpl. by rewrite wr_length.
    + unfold step, fade_level_step. destruct (is_ctrl_inx j); [done |].
      simpl. by rewrite write_clut_entry_length.
  - assert (j = i) as -> by (apply elem_of_cons in Hin as [? | ?]; done).
    assert (Forall (fun j => 0 <= j) l) as Hl0.
    { eapply Forall_impl; [exact Hl |]. simpl. lia. }
    rewrite fade_loop_palette_other by (auto; lia).
    rewrite !fade_loop_back_other; try done.
    + unfold step, fade_level_step. rewrite Hc. simpl.
      unfold CONV_COLOR_WORDS in Hb. repeat split.
      * apply lookup_wr_eq. lia.
      * apply write_clut_entry_fst; lia.
      * apply write_clut_entry_snd; lia.
    + intros j Hjl _. rewrite Forall_forall in Hl0.
      specialize (Hl0 j Hjl). simpl in Hl0.
      assert (j <> i) by congruence. lia.
    + intros j Hjl _. rewrite Forall_forall in Hl0.
      specialize (Hl0 j Hjl). simpl in Hl0.
      assert (j <> i) by congruence. lia.
Qed.
End FadeLoop.

Lemma seqZ_256_range : Forall (fun j => 0 <= j < 256) (seqZ 0 256).
Proof. apply Forall_forall. intros j Hj. apply elem_of_seqZ in Hj. lia. Qed.

(** The state [graphics_set_fade_level] leaves, field by field. *)
Lemma set_fade_level_fields s level rows :
  let r := fold_left (fade_level_step cfg level rows (palette_original s))
                     (seqZ 0 256) (palette s, conv_color_back s) in
  let s' := graphics_set_fade_level cfg s level rows in
  palette s' = r.1 /\
  palette_original s' = palette_original s /\
  g_hdmi_fade_level s' = level /\
  g_hdmi_fade_rows s' = rows /\
  conv_color_front s' = write_sync_colors cfg (conv_color_front s) /\
  conv_color_back s' = write_sync_colors cfg r.2 /\
  conv_color_dirty s' = true.
Proof.
  intros r s'. subst r s'. unfold graphics_set_fade_level.
  destruct (fold_left _ _ _) as [p b]. repeat split.
Qed.

Lemma set_fade_level_wf s level rows :
  hdmi_wf s -> hdmi_wf (graphics_set_fade_level cfg s level rows).
Proof.
  intros (Hp & Ho & Hf & Hb).
  destruct (set_fade_level_fields s level rows) as (E1 & E2 & _ & _ & E5 & E6 & _).
  unfold hdmi_wf. rewrite E1, E2, E5, E6, !write_sync_colors_length.
  destruct (fade_loop_length level rows (palette_original s) (seqZ 0 256)
              (palette s, conv_color_back s)) as [-> ->].
  cbn [fst snd]. repeat split; assumption.
Qed.

Lemma set_fade_level_entry s level rows i :
  hdmi_wf s -> 0 <= i < 256 -> is_ctrl_inx i = false ->
  let s' := graphics_set_fade_level cfg s level rows in
  let color := fade_level_color level rows (rd (palette_original s) i) i in
  palette s' !! Z.to_nat i = Some color /\
  conv_color_back s' !! Z.to_nat (i * 2) = Some (clut_word cfg color) /\
  conv_color_back s' !! Z.to_nat (i * 2 + 1)
    = Some (Z.lxor (clut_word cfg color) DIFF_MASK).
Proof.
  intros (Hp & Ho & Hf & Hb) Hi Hc s' color. subst s' color.
  destruct (set_fade_level_fields s level rows) as (E1 & _ & _ & _ & _ & E6 & _).
  rewrite E1, E6. apply is_ctrl_inx_false in Hc as Hc'.
  rewrite !write_sync_colors_other by lia.
  apply fade_loop_visited; auto using seqZ_256_range.
  apply elem_of_seqZ. lia.
Qed.

Lemma fade_calls_cons f fs s :
  fade_calls cfg (f :: fs) s = fade_calls cfg fs (graphics_set_fade_level cfg s f.1 f.2).
Proof.
  exact (fold_left_cons_eq (fun s f => graphics_set_fade_level cfg s f.1 f.2) f fs s).
Qed.

Lemma fade_calls_originals fs s :
  hdmi_wf s ->
  hdmi_wf (fade_calls cfg fs s) /\
  palette_original (fade_calls cfg fs s) = palette_original s.
Proof.
  revert s. induction fs as [| f fs IH]; intros s Hwf.
  - split; [exact Hwf | reflexivity].
  - rewrite fade_calls_cons.
    destruct (IH (graphics_set_fade_level cfg s f.1 f.2)) as [Hw Ho].
    { apply set_fade_level_wf, Hwf. }
    split; [exact Hw |]. rewrite Ho.
    destruct (set_fade_level_fields s f.1 f.2) as (_ & Hf & _). exact Hf.
Qed.

(** C10: after a palette write to a non-reserved index [i], and after a
    fade-level call for every non-reserved index [i], the two 64-bit words
    of entry [i] in the back buffer are [w] and [w XOR 0x0003ffffffffffff]. *)
Theorem clut_pair_is_complement (s : hdmi_state) (i : Z) :
  hdmi_wf s -> 0 <= i < 256 -> ~ 240 <= i <= 243 ->
  (forall c,
     let b := conv_color_back (graphics_set_palette_hdmi cfg s i c) in
     exists w, b !! Z.to_nat (2 * i) = Some w /\
               b !! Z.to_nat (2 * i + 1) = Some (Z.lxor w 0x0003ffffffffffff)) /\
  (forall level rows,
     let b := conv_color_back (graphics_set_fade_level cfg s level rows) in
     exists w, b !! Z.to_nat (2 * i) = Some w /\
               b !! Z.to_nat (2 * i + 1) = Some (Z.lxor w 0x0003ffffffffffff)).
Proof.
  intros Hwf Hi Hr. replace (2 * i) with (i * 2) by lia. split.
  - intros c b. subst b. apply is_ctrl_inx_false in Hr.
    destruct (set_palette_back_lookup s i c Hwf Hi Hr) as (H1 & H2 & _). eauto.
  - intros level rows b. subst b. apply is_ctrl_inx_false in Hr.
    destruct (set_fade_level_entry s level rows i Hwf Hi Hr) as (_ & H1 & H2).
    eauto.
Qed.

Lemma fade_level_color_zero rows original i :
  fade_level_color 0 rows original i = original.
Proof. reflexivity. Qed.

(** C6: after any run of fade-level calls, a call with level 0 (and any
    row mask) leaves in every non-reserved entry of [palette] exactly the
    value stored for it in [palette_original], and [palette_original] is
    what it was before the first of the calls. *)
Theorem fade_zero_restores_originals (s : hdmi_state) (fs : list (Z * Z)) (m : Z) :
  hdmi_wf s ->
  let s' := graphics_set_fade_level cfg (fade_calls cfg fs s) 0 m in
  palette_original s' = palette_original s /\
  (forall i, 0 <= i < 256 -> ~ 240 <= i <= 243 ->
     is_Some (palette_original s !! Z.to_nat i) /\
     palette s' !! Z.to_nat i = palette_original s !! Z.to_nat i).
Proof.
  intros Hwf s'. subst s'.
  destruct (fade_calls_originals fs s Hwf) as [Hwf' Ho].
  split.
  - destruct (set_fade_level_fields (fade_calls cfg fs s) 0 m) as (_ & -> & _).
    exact Ho.
  - intros i Hi Hr. apply is_ctrl_inx_false in Hr.
    destruct (set_fade_level_entry _ 0 m i Hwf' Hi Hr) as (-> & _).
    rewrite fade_level_color_zero, Ho.
    destruct Hwf as (_ & Hlen & _).
    destruct (lookup_lt_is_Some_2 (palette_original s) (Z.to_nat i)) as [x Hx]; [lia |].
    unfold rd. rewrite Hx. split; [by eexists | done].
Qed.

(** ** Runs of palette writes and the publish *)

Lemma palette_writes_cons w ws s :
  palette_writes cfg (w :: ws) s
  = palette_writes cfg ws (graphics_set_palette_hdmi cfg s w.1 w.2).
Proof.
  exact (fold_left_cons_eq (fun s w => graphics_set_palette_hdmi cfg s w.1 w.2) w ws s).
Qed.

Lemma set_palette_dirty s i c :
  conv_color_dirty (graphics_set_palette_hdmi cfg s i c)
  = conv_color_dirty s || negb (is_ctrl_inx i).
Proof.
  unfold graphics_set_palette_hdmi. destruct (is_ctrl_inx i); simpl.
  - by rewrite orb_false_r.
  - by rewrite orb_true_r.
Qed.

(** Words of the back buffer outside the entry of [i]. *)
Lemma set_palette_back_other s i c (k : nat) :
  0 <= i < 256 ->
  k <> Z.to_nat (i * 2) -> k <> Z.to_nat (i * 2 + 1) ->
  conv_color_back (graphics_set_palette_hdmi cfg s i c) !! k = conv_color_back s !! k.
Proof.
  intros Hi H1 H2. destruct (is_ctrl_inx i) eqn:E.
  - by destruct (set_palette_reserved s i c E) as [-> _].
  - destruct (set_palette_visible s i c E) as [-> _].
    by apply write_clut_entry_other.
Qed.

Lemma palette_writes_spec ws :
  forall s, hdmi_wf s -> Forall (fun w => 0 <= w.1 < 256) ws ->
  let s' := palette_writes cfg ws s in
  hdmi_wf s' /\
  conv_color_front s' = conv_color_front s /\
  g_hdmi_fade_level s' = g_hdmi_fade_level s /\
  g_hdmi_fade_rows s' = g_hdmi_fade_rows s /\
  conv_color_dirty s'
    = conv_color_dirty s || existsb (fun w => negb (is_ctrl_inx w.1)) ws /\
  (forall i, 0 <= i < 256 -> is_ctrl_inx i = false ->
     match last_write i ws with
     | Some c =>
         conv_color_back s' !! Z.to_nat (i * 2)
           = Some (clut_word cfg (set_palette_faded s i c)) /\
         conv_color_back s' !! Z.to_nat (i * 2 + 1)
           = Some (Z.lxor (clut_word cfg (set_palette_faded s i c)) DIFF_MASK)
     | None =>
         conv_color_back s' !! Z.to_nat (i * 2) = conv_color_back s !! Z.to_nat (i * 2) /\
         conv_color_back s' !! Z.to_nat (i * 2 + 1)
           = conv_color_back s !! Z.to_nat (i * 2 + 1)
     end) /\
  (forall k : nat, (480 <= k <= 487 \/ 512 <= k)%nat ->
     conv_color_back s' !! k = conv_color_back s !! k).
Proof.
  induction ws as [| w ws IH]; intros s Hwf Hr s'; subst s'.
  - unfold palette_writes. cbn [fold_left existsb]. rewrite orb_false_r.
    do 5 (split; [done |]). split; [| done].
    intros i _ _. by cbn [last_write].
  - rewrite palette_writes_cons. inversion Hr as [| ? ? Hw Hr']; subst.
    pose proof (set_palette_wf s w.1 w.2 Hwf) as Hwf1.
    destruct (set_palette_fade_params s w.1 w.2) as [Hl1 Hr1].
    destruct (IH _ Hwf1 Hr') as (Hwf' & Hf & Hl & Hrw & Hd & Hacc & Hres).
    split; [exact Hwf' |].
    split; [by rewrite Hf, set_palette_front |].
    split; [congruence |].
    split; [congruence |].
    split; [| split].
    + rewrite Hd, set_palette_dirty. cbn [existsb]. by rewrite orb_assoc.
    + intros i Hi Hc. specialize (Hacc i Hi Hc). cbn [last_write].
      destruct (last_write i ws) as [c |].
      * by rewrite <- (set_palette_faded_params _ s i c Hl1 Hr1).
      * destruct Hacc as [-> ->]. destruct (Z.eqb_spec w.1 i) as [E | E].
        -- rewrite E in *.
           by destruct (set_palette_back_lookup s i w.2 Hwf Hi Hc) as (? & ? & _).
        -- split; apply set_palette_back_other; auto; lia.
    + intros k Hk. rewrite (Hres k Hk).
      destruct (is_ctrl_inx w.1) eqn:E.
      * by destruct (set_palette_reserved s w.1 w.2 E) as [-> _].
      * apply is_ctrl_inx_false in E as E'.
        apply set_palette_back_other; auto; lia.
Qed.

Lemma vsync_swap_buffers_dirty s :
  conv_color_dirty s = true ->
  conv_color_front (vsync_swap_buffers s)
    = take CONV_LUT_WORDS (conv_color_back s) ++ drop CONV_LUT_WORDS (conv_color_front s) /\
  conv_color_back (vsync_swap_buffers s) = conv_color_back s /\
  conv_color_dirty (vsync_swap_buffers s) = false.
Proof. intros H. unfold vsync_swap_buffers. by rewrite H. Qed.

Lemma vsync_swap_buffers_clean s :
  conv_color_dirty s = false -> vsync_swap_buffers s = s.
Proof. intros H. unfold vsync_swap_buffers. by rewrite H. Qed.

(** C1: during a run of palette writes the front buffer does not change at
    all; the back buffer holds, for every non-reserved index, the encoding
    of the last colour written to it (and its old words if none was), with
    the reserved entries and the scanline area untouched; the dirty flag is
    set as soon as one write went to a non-reserved index.  The publish then
    does nothing when the flag is clear, and when it is set it makes the
    lookup-table words of the front buffer equal to those of the back
    buffer, keeps the rest of the front buffer and clears the flag. *)
Theorem palette_writes_visible_at_publish (s : hdmi_state) (ws : list (Z * Z)) :
  hdmi_wf s -> Forall (fun w => 0 <= w.1 < 256) ws ->
  let s' := palette_writes cfg ws s in
  let p := vsync_swap_buffers s' in
  conv_color_front s' = conv_color_front s /\
  conv_color_dirty s'
    = conv_color_dirty s || existsb (fun w => negb (is_ctrl_inx w.1)) ws /\
  (forall i, 0 <= i < 256 -> ~ 240 <= i <= 243 ->
     match last_write i ws with
     | Some c =>
         conv_color_back s' !! Z.to_nat (i * 2)
           = Some (clut_word cfg (set_palette_faded s i c)) /\
         conv_color_back s' !! Z.to_nat (i * 2 + 1)
           = Some (Z.lxor (clut_word cfg (set_palette_faded s i c)) DIFF_MASK)
     | None =>
         conv_color_back s' !! Z.to_nat (i * 2) = conv_color_back s !! Z.to_nat (i * 2) /\
         conv_color_back s' !! Z.to_nat (i * 2 + 1)
           = conv_color_back s !! Z.to_nat (i * 2 + 1)
     end) /\
  (forall k : nat, (480 <= k <= 487 \/ 512 <= k)%nat ->
     conv_color_back s' !! k = conv_color_back s !! k) /\
  (conv_color_dirty s' = false -> p = s') /\
  (conv_color_dirty s' = true ->
     take CONV_LUT_WORDS (conv_color_front p) = take CONV_LUT_WORDS (conv_color_back s') /\
     drop CONV_LUT_WORDS (conv_color_front p) = drop CONV_LUT_WORDS (conv_color_front s) /\
     conv_color_back p = conv_color_back s' /\
     conv_color_dirty p = false).
Proof.
  intros Hwf Hr s' p. subst s' p.
  destruct (palette_writes_spec ws s Hwf Hr) as (Hwf' & Hf & _ & _ & Hd & Hacc & Hres).
  split; [exact Hf |]. split; [exact Hd |].
  split; [| split; [exact Hres |]; split].
  - intros i Hi Hc. apply Hacc; [exact Hi | by apply is_ctrl_inx_false].
  - apply vsync_swap_buffers_clean.
  - intros Hdirty.
    destruct (vsync_swap_buffers_dirty _ Hdirty) as (-> & -> & ->).
    destruct Hwf' as (_ & _ & Hlf & Hlb).
    unfold CONV_COLOR_WORDS, CONV_LUT_WORDS in *.
    assert (length (take 512 (conv_color_back (palette_writes cfg ws s))) = 512%nat)
      as Hlen by (rewrite length_take; lia).
    repeat split.
    + rewrite take_app_length'; [reflexivity | by rewrite Hlen].
    + rewrite drop_app_length'; [by rewrite Hf | by rewrite Hlen].
Qed.
End HdmiFacts.

(** ** The driver on concrete inputs *)

Lemma hdmi_boot_wf : Hdmi.hdmi_wf Hdmi.hdmi_boot.
Proof. repeat split. Qed.

Lemma palette_writes_visible_at_publish_witness :
  let ws := [(5, 0xFF0000); (241, 0x00FF00); (5, 0x0000FF)] in
  let s' := Hdmi.palette_writes Fixtures.example_board ws Hdmi.hdmi_boot in
  Hdmi.conv_color_front s' = Hdmi.conv_color_front Hdmi.hdmi_boot /\
  take Hdmi.CONV_LUT_WORDS (Hdmi.conv_color_front (Hdmi.vsync_swap_buffers s'))
    = take Hdmi.CONV_LUT_WORDS (Hdmi.conv_color_back s').
Proof.
  intros ws s'.
  assert (Forall (fun w : Z * Z => 0 <= w.1 < 256) ws) as Hr.
  { repeat constructor; simpl; lia. }
  destruct (palette_writes_visible_at_publish Fixtures.example_board
              Hdmi.hdmi_boot ws hdmi_boot_wf Hr) as (H1 & H2 & _ & _ & _ & H6).
  split; [exact H1 |].
  apply H6. rewrite H2. reflexivity.
Defined.

Lemma fade_zero_restores_originals_witness :
  let b := Fixtures.example_board in
  let s := Hdmi.graphics_set_palette_hdmi b Hdmi.hdmi_boot 5 0xFF0000 in
  Hdmi.palette (Hdmi.graphics_set_fade_level b (Hdmi.fade_calls b [(20, 0); (63, 1)] s) 0 0)
    !! 5%nat = Some 0xFF0000.
Proof.
  intros b s.
  destruct (fade_zero_restores_originals b s [(20, 0); (63, 1)] 0
              (set_palette_wf b _ 5 0xFF0000 hdmi_boot_wf)) as [_ H].
  destruct (H 5 ltac:(lia) ltac:(lia)) as [_ E].
  change (Z.to_nat 5) with 5%nat in E. rewrite E. reflexivity.
Defined.

Lemma set_palette_encoded_frame_witness :
  let b := Fixtures.example_board in
  let s1 := Hdmi.graphics_set_palette_hdmi b Hdmi.hdmi_boot 5 0xFF0000 in
  let s2 := Hdmi.graphics_set_palette_hdmi b s1 241 0x00FF00 in
  Hdmi.conv_color_dirty s1 = true /\
  Hdmi.conv_color_back s2 = Hdmi.conv_color_back s1 /\
  Hdmi.conv_color_dirty s2 = Hdmi.conv_color_dirty s1.
Proof.
  intros b s1 s2.
  destruct (set_palette_encoded_frame b Hdmi.hdmi_boot 5 0xFF0000
              hdmi_boot_wf ltac:(lia)) as [_ H1].
  destruct (H1 ltac:(lia)) as (_ & _ & _ & _ & Hd).
  destruct (set_palette_encoded_frame b s1 241 0x00FF00
              (set_palette_wf b _ 5 0xFF0000 hdmi_boot_wf) ltac:(lia)) as [H2 _].
  destruct (H2 ltac:(lia)) as (Hb & _ & Hd2).
  split; [exact Hd |]. split; [exact Hb | exact Hd2].
Defined.

Lemma clut_pair_is_complement_witness :
  let b := Hdmi.conv_color_back
             (Hdmi.graphics_set_palette_hdmi Fixtures.example_board Hdmi.hdmi_boot 5 0xFF0000) in
  exists w, b !! 10%nat = Some w /\ b !! 11%nat = Some (Z.lxor w 0x0003ffffffffffff).
Proof.
  destruct (clut_pair_is_complement Fixtures.example_board Hdmi.hdmi_boot 5
              hdmi_boot_wf ltac:(lia) ltac:(lia)) as [H _].
  exact (H 0xFF0000).
Defined.

(** * Properties of the SD queue *)

Lemma u32_small z : 0 <= z < 2 ^ 32 -> u32 z = z.
Proof. intros H. unfold u32. by apply Z.mod_small. Qed.

Lemma s32_small z : - 2 ^ 31 <= z < 2 ^ 31 -> s32 z = z.
Proof. intros H. unfold s32. rewrite Z.mod_small; lia. Qed.

(** ** Streams of the pump-based variant *)

Section PumpFacts.
Import SdPump.

Lemma pump_available_active s :
  valid_of s (active_buffer s) - consumed_of s (active_buffer s)
  = sd_async_stream_available s.
Proof.
  unfold sd_async_stream_available, valid_of, consumed_of.
  by destruct (active_buffer s =? 0).
Qed.

Lemma pump_available_bounds s :
  stream_wf s ->
  0 <= sd_async_stream_available s < 2 ^ 31 /\ 0 <= other_available s < 2 ^ 31.
Proof.
  intros (Ha & Hav & Hb & Hbv & Hact).
  unfold SD_ASYNC_STREAM_BUFFER_BYTES, SD_ASYNC_STREAM_BUFFER_SAMPLES in *.
  unfold sd_async_stream_available, other_available, valid_of, consumed_of.
  destruct Hact as [-> | ->]; simpl; lia.
Qed.

(** The copy, for a positive [available] count. *)
Lemma pump_read_copy s sel available n :
  0 < available < 2 ^ 31 -> 0 <= n < 2 ^ 32 ->
  read_copy s sel available n
  = (Z.min n available,
     set_consumed_of s sel (consumed_of s sel + Z.min n available)).
Proof.
  intros Ha Hn. unfold read_copy.
  destruct (Z.leb_spec available 0); [lia |].
  rewrite (u32_small available) by lia.
  destruct (Z.ltb_spec n available).
  - rewrite s32_small, Z.min_l by lia. reflexivity.
  - rewrite s32_small, Z.min_r by lia. reflexivity.
Qed.

Lemma pump_read_copy_empty s sel available n :
  available <= 0 ->
  read_copy s sel available n
  = ((if decide (state s = STREAM_STATE_EOF) then -1 else 0), s).
Proof.
  intros Ha. unfold read_copy. destruct (Z.leb_spec available 0); [done | lia].
Qed.

(** What a read does, by the fill level of the two buffers: it drains the
    active buffer when that holds data, and otherwise switches to the
    other buffer if that one is marked valid. *)
Lemma pump_read_active s dest n :
  stream_wf s -> 0 <= n < 2 ^ 32 ->
  state s <> STREAM_STATE_ERROR -> state s <> STREAM_STATE_CLOSED ->
  0 < sd_async_stream_available s ->
  let m := Z.min n (sd_async_stream_available s) in
  let s' := set_consumed_of s (active_buffer s) (consumed_of s (active_buffer s) + m) in
  sd_async_stream_read s dest n = (m, s') /\
  sd_async_stream_available s' = sd_async_stream_available s - m.
Proof.
  intros Hwf Hn He Hc Hpos m s'. subst m s'.
  destruct (pump_available_bounds s Hwf) as [Hlt _]. split.
  - unfold sd_async_stream_read.
    destruct (state s) eqn:Est; try congruence;
      rewrite pump_available_active;
      (destruct (Z.leb_spec (sd_async_stream_available s) 0); [lia |]);
      by rewrite pump_read_copy by lia.
  - unfold sd_async_stream_available, set_consumed_of, consumed_of.
    destruct (active_buffer s =? 0) eqn:E; simpl; rewrite E; lia.
Qed.

Lemma pump_read_swap s dest n :
  stream_wf s ->
  state s <> STREAM_STATE_ERROR -> state s <> STREAM_STATE_CLOSED ->
  sd_async_stream_available s <= 0 ->
  0 < valid_of s (1 - active_buffer s) ->
  let other := 1 - active_buffer s in
  let s1 := set_active_buffer
              (set_consumed_of (set_valid_of s (active_buffer s) 0) (active_buffer s) 0)
              other in
  state s1 = state s /\
  sd_async_stream_read s dest n = read_copy s1 other (other_available s) n /\
  (forall m, sd_async_stream_available
               (set_consumed_of s1 other (consumed_of s1 other + m))
             = other_available s - m).
Proof.
  intros (Ha & Hav & Hb & Hbv & Hact) He Hc Hz Hov other s1. subst other s1.
  unfold sd_async_stream_read, sd_async_stream_available, other_available,
    valid_of, consumed_of, set_valid_of, set_consumed_of in *.
  destruct Hact as [Hact | Hact]; rewrite Hact in *; simpl in *.
  - split; [reflexivity |]. split; [| intros m; lia].
    destruct (state s) eqn:Est; try congruence;
      (destruct (Z.leb_spec (buffer_a_valid s - buffer_a_consumed s) 0); [| lia]);
      (destruct (Z.gtb_spec (buffer_b_valid s) 0); [| lia]); reflexivity.
  - split; [reflexivity |]. split; [| intros m; lia].
    destruct (state s) eqn:Est; try congruence;
      (destruct (Z.leb_spec (buffer_b_valid s - buffer_b_consumed s) 0); [| lia]);
      (destruct (Z.gtb_spec (buffer_a_valid s) 0); [| lia]); reflexivity.
Qed.

Lemma pump_read_starved s dest n :
  state s <> STREAM_STATE_ERROR -> state s <> STREAM_STATE_CLOSED ->
  sd_async_stream_available s <= 0 ->
  valid_of s (1 - active_buffer s) <= 0 ->
  sd_async_stream_read s dest n
  = ((if decide (state s = STREAM_STATE_EOF) then -1 else 0), s).
Proof.
  intros He Hc Hz Hov.
  unfold sd_async_stream_read. unfold valid_of in Hov.
  destruct (state s) eqn:Est; try congruence;
    rewrite pump_available_active;
    (destruct (Z.leb_spec (sd_async_stream_available s) 0); [| lia]);
    (destruct (Z.gtb_spec (if 1 - active_buffer s =? 0 then buffer_a_valid s
                           else buffer_b_valid s) 0); [lia |]);
    by repeat case_decide.
Qed.

Lemma pump_read_dead s dest n :
  state s = STREAM_STATE_ERROR \/ state s = STREAM_STATE_CLOSED ->
  sd_async_stream_read s dest n = (-1, s).
Proof. intros [H | H]; unfold sd_async_stream_read; by rewrite H. Qed.

(** The three facts the stream properties below are built from. *)
Lemma pump_read_bound s dest n :
  stream_wf s -> 0 <= n < 2 ^ 32 ->
  (sd_async_stream_read s dest n).1
  <= Z.min n (if 0 <? sd_async_stream_available s
              then sd_async_stream_available s else other_available s).
Proof.
  intros Hwf Hn. destruct (pump_available_bounds s Hwf) as [Ha Ho].
  destruct (decide (state s = STREAM_STATE_ERROR)) as [He | He].
  { rewrite pump_read_dead by auto. simpl. destruct (0 <? _); lia. }
  destruct (decide (state s = STREAM_STATE_CLOSED)) as [Hc | Hc].
  { rewrite pump_read_dead by auto. simpl. destruct (0 <? _); lia. }
  destruct (Z.ltb_spec 0 (sd_async_stream_available s)) as [Hpos | Hz].
  - destruct (pump_read_active s dest n Hwf Hn He Hc Hpos) as [-> _]. simpl. lia.
  - destruct (Z.ltb_spec 0 (valid_of s (1 - active_buffer s))) as [Hov | Hov].
    + destruct (pump_read_swap s dest n Hwf He Hc Hz Hov) as (_ & -> & _).
      destruct (Z.ltb_spec 0 (other_available s)).
      * rewrite pump_read_copy by lia. simpl. lia.
      * rewrite pump_read_copy_empty by lia. simpl. case_decide; lia.
    + rewrite pump_read_starved by auto. simpl. case_decide; lia.
Qed.

Lemma pump_read_available s dest n :
  stream_wf s -> 0 <= n < 2 ^ 32 ->
  0 < (sd_async_stream_read s dest n).1 ->
  sd_async_stream_available (sd_async_stream_read s dest n).2
  = (if 0 <? sd_async_stream_available s
     then sd_async_stream_available s else other_available s)
    - (sd_async_stream_read s dest n).1.
Proof.
  intros Hwf Hn. destruct (pump_available_bounds s Hwf) as [Ha Ho].
  destruct (decide (state s = STREAM_STATE_ERROR)) as [He | He].
  { rewrite pump_read_dead by auto. simpl. lia. }
  destruct (decide (state s = STREAM_STATE_CLOSED)) as [Hc | Hc].
  { rewrite pump_read_dead by auto. simpl. lia. }
  destruct (Z.ltb_spec 0 (sd_async_stream_available s)) as [Hpos | Hz].
  - destruct (pump_read_active s dest n Hwf Hn He Hc Hpos) as [-> E]. simpl.
    intros _. exact E.
  - destruct (Z.ltb_spec 0 (valid_of s (1 - active_buffer s))) as [Hov | Hov].
    + destruct (pump_read_swap s dest n Hwf He Hc Hz Hov) as (_ & -> & E).
      destruct (Z.ltb_spec 0 (other_available s)).
      * rewrite pump_read_copy by lia. simpl. intros _. apply E.
      * rewrite pump_read_copy_empty by lia. simpl. case_decide; lia.
    + rewrite pump_read_starved by auto. simpl. case_decide; lia.
Qed.

Lemma pump_read_eof_drained s dest n :
  stream_wf s -> state s = STREAM_STATE_EOF ->
  sd_async_stream_available s <= 0 -> other_available s <= 0 ->
  (sd_async_stream_read s dest n).1 = -1.
Proof.
  intros Hwf Hs Hz Ho.
  assert (state s <> STREAM_STATE_ERROR) as He by congruence.
  assert (state s <> STREAM_STATE_CLOSED) as Hc by congruence.
  destruct (Z.ltb_spec 0 (valid_of s (1 - active_buffer s))) as [Hov | Hov].
  - destruct (pump_read_swap s dest n Hwf He Hc Hz Hov) as (Hst & -> & _).
    rewrite pump_read_copy_empty by lia. cbn [fst]. rewrite Hst, Hs. by case_decide.
  - rewrite pump_read_starved by auto. cbn [fst]. rewrite Hs. by case_decide.
Qed.

(** Reads keep the counters of a stream within their bounds. *)
Lemma pump_read_wf s dest n :
  stream_wf s -> 0 <= n < 2 ^ 32 -> stream_wf (sd_async_stream_read s dest n).2.
Proof.
  intros Hwf Hn. destruct (pump_available_bounds s Hwf) as [Ha Ho].
  assert (forall t sel m,
            stream_wf t -> 0 <= m <= valid_of t sel - consumed_of t sel ->
            stream_wf (set_consumed_of t sel (consumed_of t sel + m))) as Hcons.
  { intros t sel m (? & ? & ? & ? & ?) Hm.
    unfold stream_wf, set_consumed_of, valid_of, consumed_of in *.
    destruct (sel =? 0); simpl; repeat split; try lia; auto. }
  destruct (decide (state s = STREAM_STATE_ERROR)) as [He | He].
  { by rewrite pump_read_dead by auto. }
  destruct (decide (state s = STREAM_STATE_CLOSED)) as [Hc | Hc].
  { by rewrite pump_read_dead by auto. }
  destruct (Z.ltb_spec 0 (sd_async_stream_available s)) as [Hpos | Hz].
  - destruct (pump_read_active s dest n Hwf Hn He Hc Hpos) as [-> _]. simpl.
    apply Hcons; [exact Hwf |]. rewrite pump_available_active. lia.
  - assert (stream_wf
              (set_active_buffer
                 (set_consumed_of (set_valid_of s (active_buffer s) 0) (active_buffer s) 0)
                 (1 - active_buffer s))
            /\ valid_of (set_active_buffer
                 (set_consumed_of (set_valid_of s (active_buffer s) 0) (active_buffer s) 0)
                 (1 - active_buffer s)) (1 - active_buffer s)
               - consumed_of (set_active_buffer
                 (set_consumed_of (set_valid_of s (active_buffer s) 0) (active_buffer s) 0)
                 (1 - active_buffer s)) (1 - active_buffer s)
               = other_available s) as [Hwf1 Hoa].
    { destruct Hwf as (? & ? & ? & ? & Hact).
      unfold stream_wf, other_available, set_valid_of, set_consumed_of, valid_of,
        consumed_of, SD_ASYNC_STREAM_BUFFER_BYTES, SD_ASYNC_STREAM_BUFFER_SAMPLES in *.
      destruct Hact as [Hact | Hact]; rewrite Hact; simpl; repeat split; lia. }
    destruct (Z.ltb_spec 0 (valid_of s (1 - active_buffer s))) as [Hov | Hov].
    + destruct (pump_read_swap s dest n Hwf He Hc Hz Hov) as (_ & -> & _).
      destruct (Z.ltb_spec 0 (other_available s)).
      * rewrite pump_read_copy by lia. simpl. apply Hcons; [exact Hwf1 |].
        rewrite Hoa. lia.
      * by rewrite pump_read_copy_empty by lia.
    + by rewrite pump_read_starved by auto.
Qed.

(** Seeking a stream that is in the ERROR state. *)
Lemma pump_seek_state dev s position :
  file s <> 0 -> f_lseek dev (file s) position = FR_OK ->
  (sd_async_stream_seek dev s position).1 = 0 /\
  state (sd_async_stream_seek dev s position).2
  = (if position <? file_size s then STREAM_STATE_FILLING_A else STREAM_STATE_EOF).
Proof.
  intros Hf Hl. unfold sd_async_stream_seek.
  destruct (Z.eqb_spec (file s) 0); [done |]. rewrite Hl. simpl.
  by destruct (position <? file_size s).
Qed.

(** Everything else leaves a stream in the ERROR state as it is. *)
Lemma pump_error_kept dev s :
  state s = STREAM_STATE_ERROR ->
  (forall dest n, sd_async_stream_read s dest n = (-1, s)) /\
  pump_stream dev s = (false, s) /\
  pump_slot dev s = (false, s) /\
  (forall position,
     f_lseek dev (file s) position <> FR_OK \/ file s = 0 ->
     state (sd_async_stream_seek dev s position).2 = STREAM_STATE_ERROR).
Proof.
  intros He. repeat split.
  - intros dest n. apply pump_read_dead. by left.
  - unfold pump_stream. by rewrite He.
  - unfold pump_slot. rewrite He. unfold pump_stream. by rewrite He.
  - intros position [Hl | Hf]; unfold sd_async_stream_seek.
    + destruct (file s =? 0); [done |].
      by destruct (f_lseek dev (file s) position).
    + by rewrite Hf.
Qed.

(** *** The bounds on the counters are an invariant of the stream *)

Lemma pump_exhausted_inv s : stream_inv s -> stream_inv (pump_exhausted s).
Proof.
  intros [(Ha & Hav & Hb & Hbv & Hact) Hfo].
  unfold pump_exhausted, stream_inv, stream_wf in *.
  destruct (state s); simpl; repeat split; try lia; exact Hact.
Qed.

Lemma pump_buffer_done_inv s : stream_inv s -> stream_inv (pump_buffer_done s).
Proof.
  intros [(Ha & Hav & Hb & Hbv & Hact) Hfo].
  unfold pump_buffer_done, stream_inv, stream_wf in *.
  destruct (state s); simpl;
    try destruct ((buffer_b_valid s =? 0) && (file_pos s <? file_size s));
    simpl; repeat split; try lia; exact Hact.
Qed.

Lemma set_state_inv s st : stream_inv s -> stream_inv (set_state s st).
Proof. done. Qed.

Lemma pump_to_read_bounds s :
  0 <= fill_offset s <= SD_ASYNC_STREAM_BUFFER_BYTES ->
  0 <= pump_to_read s <= SD_ASYNC_STREAM_BUFFER_BYTES - fill_offset s.
Proof.
  intros Hfo. unfold pump_to_read.
  unfold SD_ASYNC_STREAM_BUFFER_BYTES, SD_ASYNC_STREAM_BUFFER_SAMPLES,
    SD_ASYNC_PUMP_CHUNK_SIZE in *.
  rewrite (u32_small (2048 * 4 - fill_offset s)) by lia.
  assert (0 <= u32 (file_size s - file_pos s)) as Hrem
    by (unfold u32; apply Z.mod_pos_bound; lia).
  destruct (Z.gtb_spec 512 (2048 * 4 - fill_offset s));
    match goal with |- context [?a >? ?b] => destruct (Z.gtb_spec a b) end; lia.
Qed.

Lemma pump_stream_inv dev s :
  device_ok dev -> stream_inv s -> stream_inv (pump_stream dev s).2.
Proof.
  intros Hdev Hinv. unfold pump_stream.
  destruct (state s) eqn:Est; try exact Hinv.
  all: destruct (file_pos s >=? file_size s); [by apply pump_exhausted_inv |].
  all: destruct Hinv as [Hwf Hfo].
  all: pose proof (pump_to_read_bounds s Hfo) as Hn.
  all: pose proof (proj1 Hdev (file s) (file_pos s) (pump_to_read s) ltac:(lia)) as Hbr.
  all: destruct (f_read dev (file s) (file_pos s) (pump_to_read s)) as [[] br];
         simpl in Hbr; [| exact (conj Hwf Hfo)].
  all: unfold SD_ASYNC_STREAM_BUFFER_BYTES, SD_ASYNC_STREAM_BUFFER_SAMPLES in *.
  all: rewrite s32_small by lia.
  all: match goal with |- context [if ?b then _ else _] => destruct b end.
  all: try (apply pump_buffer_done_inv).
  all: split; [exact Hwf | simpl].
  all: unfold SD_ASYNC_STREAM_BUFFER_BYTES, SD_ASYNC_STREAM_BUFFER_SAMPLES; lia.
Qed.

Lemma pump_slot_inv dev s :
  device_ok dev -> stream_inv s -> stream_inv (pump_slot dev s).2.
Proof.
  intros Hdev Hinv. unfold pump_slot. apply pump_stream_inv; [exact Hdev |].
  destruct Hinv as [Hwf Hfo].
  unfold SD_ASYNC_STREAM_BUFFER_BYTES, SD_ASYNC_STREAM_BUFFER_SAMPLES in *.
  destruct (state s); try (by split).
  repeat match goal with |- context [if ?b then _ else _] => destruct b end;
    (split; [exact Hwf | simpl]);
    unfold SD_ASYNC_STREAM_BUFFER_BYTES, SD_ASYNC_STREAM_BUFFER_SAMPLES; lia.
Qed.

Lemma pump_read_fill_offset s dest n :
  fill_offset (sd_async_stream_read s dest n).2 = fill_offset s.
Proof.
  unfold sd_async_stream_read, read_copy, set_consumed_of, set_valid_of.
  destruct (state s); try done;
    repeat match goal with |- context [if ?b then _ else _] => destruct b end;
    done.
Qed.

Lemma pump_read_inv s dest n :
  stream_inv s -> 0 <= n < 2 ^ 32 -> stream_inv (sd_async_stream_read s dest n).2.
Proof.
  intros [Hwf Hfo] Hn. split; [by apply pump_read_wf |].
  by rewrite pump_read_fill_offset.
Qed.

Lemma pump_seek_inv dev s position :
  stream_inv s -> stream_inv (sd_async_stream_seek dev s position).2.
Proof.
  intros Hinv. unfold sd_async_stream_seek.
  destruct (file s =? 0); [exact Hinv |].
  destruct (f_lseek dev (file s) position); [| exact Hinv].
  unfold stream_inv, stream_wf, SD_ASYNC_STREAM_BUFFER_BYTES,
    SD_ASYNC_STREAM_BUFFER_SAMPLES.
  destruct (position <? _); simpl; repeat split; try lia; by left.
Qed.

Lemma open_fill_b_inv dev fuel :
  device_ok dev -> forall s, stream_inv s -> stream_inv (open_fill_b dev fuel s).
Proof.
  intros Hdev. induction fuel as [| fuel IH]; intros s Hinv; [exact Hinv |].
  simpl. destruct (state s); try exact Hinv.
  pose proof (pump_stream_inv dev s Hdev Hinv) as Hp.
  destruct (pump_stream dev s) as [w s']. simpl in Hp.
  destruct w; [by apply IH | exact Hp].
Qed.

Lemma open_fill_inv dev fuel :
  device_ok dev -> forall s, stream_inv s -> stream_inv (open_fill dev fuel s).
Proof.
  intros Hdev. induction fuel as [| fuel IH]; intros s Hinv; [exact Hinv |].
  simpl. destruct (state s); try exact Hinv.
  all: pose proof (pump_stream_inv dev s Hdev Hinv) as Hp.
  all: destruct (pump_stream dev s) as [w s']; simpl in Hp.
  all: destruct w; simpl; [| exact Hp].
  all: destruct (state s'); try (by apply IH); by apply open_fill_b_inv.
Qed.

(** Every handle [sd_async_stream_open] returns satisfies the bounds. *)
Lemma pump_open_inv dev fuel s path mem_a mem_b s' :
  device_ok dev ->
  (sd_async_stream_open dev fuel s path mem_a mem_b).1 = Some s' ->
  stream_inv s'.
Proof.
  intros Hdev. unfold sd_async_stream_open.
  repeat match goal with |- context [if ?b then _ else _] => destruct b end;
    try done.
  simpl. intros [= <-]. apply open_fill_inv; [exact Hdev |].
  unfold stream_inv, stream_wf, SD_ASYNC_STREAM_BUFFER_BYTES,
    SD_ASYNC_STREAM_BUFFER_SAMPLES.
  simpl. repeat split; lia.
Qed.
End PumpFacts.

(** ** Streams of the worker-based variant *)

Section WorkerFacts.
Import SdWorker.

Lemma worker_available_active s :
  valid_of s (active_buffer s) - consumed_of s (active_buffer s)
  = sd_async_stream_available s.
Proof.
  unfold sd_async_stream_available, valid_of, consumed_of.
  by destruct (active_buffer s =? 0).
Qed.

Lemma worker_available_bounds s :
  stream_wf s ->
  0 <= sd_async_stream_available s < 2 ^ 31 /\ 0 <= other_available s < 2 ^ 31.
Proof.
  intros (Ha & Hav & Hb & Hbv & Hact).
  unfold SD_ASYNC_STREAM_BUFFER_BYTES, SD_ASYNC_STREAM_BUFFER_SAMPLES in *.
  unfold sd_async_stream_available, other_available, valid_of, consumed_of.
  destruct Hact as [-> | ->]; simpl; lia.
Qed.

Lemma worker_read_copy s sel available n :
  0 < available < 2 ^ 31 -> 0 <= n < 2 ^ 32 ->
  read_copy s sel available n
  = (Z.min n available,
     set_consumed_of s sel (consumed_of s sel + Z.min n available)).
Proof.
  intros Ha Hn. unfold read_copy.
  destruct (Z.leb_spec available 0); [lia |].
  rewrite (u32_small available) by lia.
  destruct (Z.ltb_spec n available).
  - rewrite s32_small, Z.min_l by lia. reflexivity.
  - rewrite s32_small, Z.min_r by lia. reflexivity.
Qed.

Lemma worker_read_copy_empty s sel available n :
  available <= 0 ->
  read_copy s sel available n
  = ((if decide (state s = STREAM_STATE_EOF) then -1 else 0), s).
Proof.
  intros Ha. unfold read_copy. destruct (Z.leb_spec available 0); [done | lia].
Qed.

(** The guard on the arguments. *)
Lemma worker_read_guard s dest n :
  dest = 0 \/ n = 0 -> sd_async_stream_read s dest n = (0, s).
Proof.
  intros H. unfold sd_async_stream_read.
  destruct (Z.eqb_spec dest 0), (Z.eqb_spec n 0); simpl; try done. lia.
Qed.

Lemma worker_read_unguarded dest n :
  dest <> 0 -> n <> 0 -> (dest =? 0) || (n =? 0) = false.
Proof. intros Hd Hn. destruct (Z.eqb_spec dest 0), (Z.eqb_spec n 0); done. Qed.

Lemma worker_read_dead s dest n :
  dest <> 0 -> n <> 0 -> state s = STREAM_STATE_ERROR ->
  sd_async_stream_read s dest n = (-1, s).
Proof.
  intros Hd Hn He. unfold sd_async_stream_read.
  rewrite worker_read_unguarded by done. by case_decide.
Qed.

Lemma worker_read_active s dest n :
  stream_wf s -> 0 <= n < 2 ^ 32 -> dest <> 0 -> n <> 0 ->
  state s <> STREAM_STATE_ERROR ->
  0 < sd_async_stream_available s ->
  let m := Z.min n (sd_async_stream_available s) in
  let s' := set_consumed_of s (active_buffer s) (consumed_of s (active_buffer s) + m) in
  sd_async_stream_read s dest n = (m, s') /\
  sd_async_stream_available s' = sd_async_stream_available s - m.
Proof.
  intros Hwf Hn Hd Hn0 He Hpos m s'. subst m s'.
  destruct (worker_available_bounds s Hwf) as [Hlt _]. split.
  - unfold sd_async_stream_read.
    rewrite worker_read_unguarded by done. case_decide; [done |].
    rewrite worker_available_active.
    destruct (Z.leb_spec (sd_async_stream_available s) 0); [lia |].
    by rewrite worker_read_copy by lia.
  - unfold sd_async_stream_available, set_consumed_of, consumed_of.
    destruct (active_buffer s =? 0) eqn:E; simpl; rewrite E; lia.
Qed.

Lemma worker_read_swap s dest n :
  stream_wf s -> dest <> 0 -> n <> 0 ->
  state s <> STREAM_STATE_ERROR ->
  sd_async_stream_available s <= 0 ->
  0 < valid_of s (1 - active_buffer s) ->
  let other := 1 - active_buffer s in
  let s1 := set_active_buffer
              (set_consumed_of (set_valid_of s (active_buffer s) 0) (active_buffer s) 0)
              other in
  state s1 = state s /\
  sd_async_stream_read s dest n = read_copy s1 other (other_available s) n /\
  (forall m, sd_async_stream_available
               (set_consumed_of s1 other (consumed_of s1 other + m))
             = other_available s - m).
Proof.
  intros (Ha & Hav & Hb & Hbv & Hact) Hd Hn0 He Hz Hov other s1. subst other s1.
  unfold sd_async_stream_read. rewrite worker_read_unguarded by done.
  case_decide; [done |].
  unfold sd_async_stream_available, other_available,
    valid_of, consumed_of, set_valid_of, set_consumed_of in *.
  destruct Hact as [Hact | Hact]; rewrite Hact in *; simpl in *.
  - split; [reflexivity |]. split; [| intros m; lia].
    destruct (Z.leb_spec (buffer_a_valid s - buffer_a_consumed s) 0); [| lia].
    destruct (Z.gtb_spec (buffer_b_valid s) 0); [| lia]. reflexivity.
  - split; [reflexivity |]. split; [| intros m; lia].
    destruct (Z.leb_spec (buffer_b_valid s - buffer_b_consumed s) 0); [| lia].
    destruct (Z.gtb_spec (buffer_a_valid s) 0); [| lia]. reflexivity.
Qed.

Lemma worker_read_starved s dest n :
  dest <> 0 -> n <> 0 -> state s <> STREAM_STATE_ERROR ->
  sd_async_stream_available s <= 0 ->
  valid_of s (1 - active_buffer s) <= 0 ->
  sd_async_stream_read s dest n
  = ((if decide (state s = STREAM_STATE_EOF) then -1 else 0), s).
Proof.
  intros Hd Hn0 He Hz Hov.
  unfold sd_async_stream_read. rewrite worker_read_unguarded by done.
  case_decide; [done |]. unfold valid_of in Hov.
  rewrite worker_available_active.
  destruct (Z.leb_spec (sd_async_stream_available s) 0); [| lia].
  destruct (Z.gtb_spec (if 1 - active_buffer s =? 0 then buffer_a_valid s
                        else buffer_b_valid s) 0); [lia |].
  by repeat case_decide.
Qed.

Lemma worker_read_bound s dest n :
  stream_wf s -> 0 <= n < 2 ^ 32 ->
  (sd_async_stream_read s dest n).1
  <= Z.min n (if 0 <? sd_async_stream_available s
              then sd_async_stream_available s else other_available s).
Proof.
  intros Hwf Hn. destruct (worker_available_bounds s Hwf) as [Ha Ho].
  destruct (decide (dest = 0 \/ n = 0)) as [Hg | Hg].
  { rewrite worker_read_guard by done. simpl. destruct (0 <? _); lia. }
  assert (dest <> 0 /\ n <> 0) as [Hd Hn0] by lia.
  destruct (decide (state s = STREAM_STATE_ERROR)) as [He | He].
  { rewrite worker_read_dead by auto. simpl. destruct (0 <? _); lia. }
  destruct (Z.ltb_spec 0 (sd_async_stream_available s)) as [Hpos | Hz].
  - destruct (worker_read_active s dest n Hwf Hn Hd Hn0 He Hpos) as [-> _]. simpl. lia.
  - destruct (Z.ltb_spec 0 (valid_of s (1 - active_buffer s))) as [Hov | Hov].
    + destruct (worker_read_swap s dest n Hwf Hd Hn0 He Hz Hov) as (_ & -> & _).
      destruct (Z.ltb_spec 0 (other_available s)).
      * rewrite worker_read_copy by lia. simpl. lia.
      * rewrite worker_read_copy_empty by lia. simpl. case_decide; lia.
    + rewrite worker_read_starved by auto. simpl. case_decide; lia.
Qed.

Lemma worker_read_available s dest n :
  stream_wf s -> 0 <= n < 2 ^ 32 ->
  0 < (sd_async_stream_read s dest n).1 ->
  sd_async_stream_available (sd_async_stream_read s dest n).2
  = (if 0 <? sd_async_stream_available s
     then sd_async_stream_available s else other_available s)
    - (sd_async_stream_read s dest n).1.
Proof.
  intros Hwf Hn. destruct (worker_available_bounds s Hwf) as [Ha Ho].
  destruct (decide (dest = 0 \/ n = 0)) as [Hg | Hg].
  { rewrite worker_read_guard by done. simpl. lia. }
  assert (dest <> 0 /\ n <> 0) as [Hd Hn0] by lia.
  destruct (decide (state s = STREAM_STATE_ERROR)) as [He | He].
  { rewrite worker_read_dead by auto. simpl. lia. }
  destruct (Z.ltb_spec 0 (sd_async_stream_available s)) as [Hpos | Hz].
  - destruct (worker_read_active s dest n Hwf Hn Hd Hn0 He Hpos) as [-> E]. simpl.
    intros _. exact E.
  - destruct (Z.ltb_spec 0 (valid_of s (1 - active_buffer s))) as [Hov | Hov].
    + destruct (worker_read_swap s dest n Hwf Hd Hn0 He Hz Hov) as (_ & -> & E).
      destruct (Z.ltb_spec 0 (other_available s)).
      * rewrite worker_read_copy by lia. simpl. intros _. apply E.
      * rewrite worker_read_copy_empty by lia. simpl. case_decide; lia.
    + rewrite worker_read_starved by auto. simpl. case_decide; lia.
Qed.

Lemma worker_read_eof_drained s dest n :
  stream_wf s -> state s = STREAM_STATE_EOF ->
  sd_async_stream_available s <= 0 -> other_available s <= 0 ->
  (sd_async_stream_read s dest n).1 = (if (dest =? 0) || (n =? 0) then 0 else -1).
Proof.
  intros Hwf Hs Hz Ho.
  destruct (decide (dest = 0 \/ n = 0)) as [Hg | Hg].
  { rewrite worker_read_guard by done.
    destruct (Z.eqb_spec dest 0), (Z.eqb_spec n 0); simpl; try done. lia. }
  assert (dest <> 0 /\ n <> 0) as [Hd Hn0] by lia.
  rewrite worker_read_unguarded by done.
  assert (state s <> STREAM_STATE_ERROR) as He by congruence.
  destruct (Z.ltb_spec 0 (valid_of s (1 - active_buffer s))) as [Hov | Hov].
  - destruct (worker_read_swap s dest n Hwf Hd Hn0 He Hz Hov) as (Hst & -> & _).
    rewrite worker_read_copy_empty by lia. cbn [fst]. rewrite Hst, Hs. by case_decide.
  - rewrite worker_read_starved by auto. cbn [fst]. rewrite Hs. by case_decide.
Qed.

(** A stream in the ERROR state is left as it is by every operation of
    this variant but close. *)
Lemma worker_error_kept dev s :
  state s = STREAM_STATE_ERROR ->
  (forall dest n, (sd_async_stream_read s dest n).2 = s) /\
  (forall position, sd_async_stream_seek dev s position = (-1, s)) /\
  worker_stream_pass dev s = s.
Proof.
  intros He. repeat split.
  - intros dest n. unfold sd_async_stream_read.
    destruct ((dest =? 0) || (n =? 0)); [done |]. by case_decide.
  - intros position. unfold sd_async_stream_seek. by case_decide.
  - unfold worker_stream_pass. by rewrite He; simpl; rewrite He.
Qed.

(** *** The bounds on the counters are an invariant of the stream *)

Lemma chunked_sd_read_loop_bounds dev fuel fil pos total :
  device_ok dev -> 0 <= total < 2 ^ 32 ->
  forall bytes_read, 0 <= bytes_read <= total ->
  0 <= chunked_sd_read_loop dev fuel fil pos total bytes_read <= total.
Proof.
  intros [Hdev _] Ht. induction fuel as [| fuel IH]; intros bytes_read Hb; [exact Hb |].
  simpl. destruct (Z.ltb_spec bytes_read total); [| exact Hb].
  rewrite (u32_small (total - bytes_read)) by lia.
  unfold SD_READ_CHUNK_SIZE.
  set (chunk := if total - bytes_read >? 512 then 512 else total - bytes_read).
  assert (0 <= chunk <= total - bytes_read) as Hchunk.
  { subst chunk. destruct (Z.gtb_spec (total - bytes_read) 512); lia. }
  pose proof (Hdev fil (pos + bytes_read) chunk ltac:(lia)) as Hbr.
  destruct (f_read dev fil (pos + bytes_read) chunk) as [[] br]; simpl in Hbr; [| lia].
  rewrite (u32_small (bytes_read + br)) by lia.
  destruct (br <? chunk); [lia |]. apply IH. lia.
Qed.

Lemma fill_to_read_bounds s :
  0 <= file_pos s < file_size s -> file_size s < 2 ^ 32 ->
  0 <= fill_to_read s <= SD_ASYNC_STREAM_BUFFER_BYTES.
Proof.
  intros Hp Hs. unfold fill_to_read, SD_ASYNC_STREAM_BUFFER_BYTES,
    SD_ASYNC_STREAM_BUFFER_SAMPLES.
  rewrite (u32_small (file_size s - file_pos s)) by lia.
  destruct (Z.gtb_spec (u32 (file_pos s + 2048 * 4)) (file_size s)) as [Hgt | Hle];
    [| lia].
  destruct (Z.lt_ge_cases (file_pos s + 2048 * 4) (2 ^ 32)) as [Hsmall | Hwrap].
  - rewrite u32_small in Hgt by lia. lia.
  - assert (u32 (file_pos s + 2048 * 4) = file_pos s + 2048 * 4 - 2 ^ 32) as E.
    { unfold u32. symmetry. apply (Z.mod_unique _ _ 1); lia. }
    rewrite E in Hgt. lia.
Qed.

Ltac worker_inv_crush :=
  unfold stream_inv, stream_wf, SD_ASYNC_STREAM_BUFFER_BYTES,
    SD_ASYNC_STREAM_BUFFER_SAMPLES in *;
  simpl; repeat split; try lia; try done; try tauto.

Lemma work_filling_b_inv dev s :
  device_ok dev -> stream_inv s -> state s = STREAM_STATE_FILLING_B ->
  stream_inv (work_filling_b dev s).
Proof.
  intros Hdev ((Ha & Hav & Hb & Hbv & Hact) & Hpos & Hsize & Hseek & _ & _ & Hfb) Hst.
  specialize (Hfb Hst). unfold work_filling_b.
  destruct (file s =? 0); [| destruct (Z.geb_spec (file_pos s) (file_size s))]; simpl.
  1,2: destruct (buffer_a_valid s >? 0); worker_inv_crush.
  pose proof (fill_to_read_bounds s ltac:(lia) ltac:(lia)) as Hto.
  unfold SD_ASYNC_STREAM_BUFFER_BYTES, SD_ASYNC_STREAM_BUFFER_SAMPLES in *.
  pose proof (chunked_sd_read_loop_bounds dev (Z.to_nat (fill_to_read s)) (file s)
                (file_pos s) (fill_to_read s) Hdev ltac:(lia) 0 ltac:(lia)) as Hbr.
  fold (chunked_sd_read dev (file s) (file_pos s) (fill_to_read s)) in Hbr.
  destruct ((chunked_sd_read dev (file s) (file_pos s) (fill_to_read s) =? 0)
            && (fill_to_read s >? 0)).
  { worker_inv_crush. }
  rewrite s32_small by lia.
  assert (0 <= u32 (file_pos s + chunked_sd_read dev (file s) (file_pos s)
                                   (fill_to_read s)) < 2 ^ 32)
    by (unfold u32; apply Z.mod_pos_bound; lia).
  worker_inv_crush.
Qed.

Lemma work_filling_a_inv dev s :
  device_ok dev -> stream_inv s -> state s = STREAM_STATE_FILLING_A ->
  stream_inv (work_filling_a dev s).
Proof.
  intros Hdev ((Ha & Hav & Hb & Hbv & Hact) & Hpos & Hsize & Hseek & _ & Hfa & _) Hst.
  specialize (Hfa Hst). unfold work_filling_a.
  destruct (file s =? 0); [| destruct (Z.geb_spec (file_pos s) (file_size s))]; simpl.
  1,2: destruct (buffer_b_valid s >? 0); worker_inv_crush.
  pose proof (fill_to_read_bounds s ltac:(lia) ltac:(lia)) as Hto.
  unfold SD_ASYNC_STREAM_BUFFER_BYTES, SD_ASYNC_STREAM_BUFFER_SAMPLES in *.
  pose proof (chunked_sd_read_loop_bounds dev (Z.to_nat (fill_to_read s)) (file s)
                (file_pos s) (fill_to_read s) Hdev ltac:(lia) 0 ltac:(lia)) as Hbr.
  fold (chunked_sd_read dev (file s) (file_pos s) (fill_to_read s)) in Hbr.
  destruct ((chunked_sd_read dev (file s) (file_pos s) (fill_to_read s) =? 0)
            && (fill_to_read s >? 0)).
  { worker_inv_crush. }
  rewrite s32_small by lia.
  assert (0 <= u32 (file_pos s + chunked_sd_read dev (file s) (file_pos s)
                                   (fill_to_read s)) < 2 ^ 32)
    by (unfold u32; apply Z.mod_pos_bound; lia).
  simpl.
  destruct (Z.eqb_spec (buffer_b_valid s) 0) as [Eb | Eb]; simpl.
  - match goal with |- context [if ?b then _ else _] => destruct b end.
    + apply work_filling_b_inv; [exact Hdev | | done]. worker_inv_crush.
    + worker_inv_crush.
  - worker_inv_crush.
Qed.

Lemma process_stream_work_inv dev s :
  device_ok dev -> stream_inv s -> stream_inv (process_stream_work dev s).
Proof.
  intros Hdev Hinv. unfold process_stream_work.
  destruct (state s) eqn:Est; try exact Hinv.
  - unfold work_opening. pose proof (proj2 Hdev (pop_fs_open dev (path s))) as Hsz.
    destruct Hinv as ((Ha & Hav & Hb & Hbv & Hact) & Hpos & Hsize & Hseek & Ho & _).
    destruct (Ho Est) as [Hoa Hob].
    destruct (Z.eqb_spec (pop_fs_open dev (path s)) 0) as [E | E]; simpl.
    + rewrite E. simpl. worker_inv_crush.
    + destruct (Z.eqb_spec (pop_fs_open dev (path s)) 0); [done |].
      apply work_filling_a_inv; [exact Hdev | | done]. worker_inv_crush.
  - by apply work_filling_a_inv.
  - by apply work_filling_b_inv.
  - unfold work_seeking.
    destruct Hinv as ((Ha & Hav & Hb & Hbv & Hact) & Hpos & Hsize & Hseek & _).
    destruct (file s =? 0); [worker_inv_crush |].
    destruct (f_lseek dev (file s) (seek_target s)); [| worker_inv_crush].
    apply work_filling_a_inv; [exact Hdev | | done]. worker_inv_crush.
Qed.

Lemma worker_stream_pass_inv dev s :
  device_ok dev -> stream_inv s -> stream_inv (worker_stream_pass dev s).
Proof.
  intros Hdev Hinv. unfold worker_stream_pass.
  set (s1 := match state s with
             | STREAM_STATE_CLOSED | STREAM_STATE_READY
             | STREAM_STATE_EOF | STREAM_STATE_ERROR => s
             | _ => process_stream_work dev s
             end).
  assert (stream_inv s1) as H1.
  { subst s1. destruct (state s); try exact Hinv; by apply process_stream_work_inv. }
  clearbody s1. destruct (state s1) eqn:Est; try exact H1.
  destruct H1 as ((Ha & Hav & Hb & Hbv & Hact) & Hpos & Hsize & Hseek & _).
  destruct (1 - active_buffer s1 =? 0); simpl.
  - destruct (Z.eqb_spec (buffer_a_valid s1) 0) as [Ea | Ea]; simpl.
    + destruct (file_pos s1 <? file_size s1); simpl.
      * apply process_stream_work_inv; [exact Hdev |]. worker_inv_crush.
      * destruct (1 - active_buffer s1 =? 1); simpl; [| worker_inv_crush; congruence].
        destruct (buffer_b_valid s1 =? 0); simpl; worker_inv_crush; congruence.
    + destruct (1 - active_buffer s1 =? 1); simpl; [| worker_inv_crush; congruence].
      destruct (Z.eqb_spec (buffer_b_valid s1) 0) as [Eb | Eb]; simpl;
        [| worker_inv_crush; congruence].
      destruct (file_pos s1 <? file_size s1); simpl; [| worker_inv_crush; congruence].
      apply process_stream_work_inv; [exact Hdev |]. worker_inv_crush.
  - destruct (1 - active_buffer s1 =? 1); simpl; [| worker_inv_crush; congruence].
    destruct (Z.eqb_spec (buffer_b_valid s1) 0) as [Eb | Eb]; simpl;
      [| worker_inv_crush; congruence].
    destruct (file_pos s1 <? file_size s1); simpl; [| worker_inv_crush; congruence].
    apply process_stream_work_inv; [exact Hdev |]. worker_inv_crush.
Qed.

Lemma worker_read_fields s dest n :
  let s' := (sd_async_stream_read s dest n).2 in
  state s' = state s /\ file_pos s' = file_pos s /\ file_size s' = file_size s /\
  seek_target s' = seek_target s /\
  (buffer_a_valid s' = buffer_a_valid s \/ buffer_a_valid s' = 0) /\
  (buffer_b_valid s' = buffer_b_valid s \/ buffer_b_valid s' = 0).
Proof.
  unfold sd_async_stream_read, read_copy, set_consumed_of, set_valid_of.
  repeat match goal with
         | |- context [if ?b then _ else _] => destruct b
         end; simpl; repeat split; auto.
Qed.

Lemma worker_read_wf s dest n :
  stream_wf s -> 0 <= n < 2 ^ 32 -> stream_wf (sd_async_stream_read s dest n).2.
Proof.
  intros Hwf Hn.
  assert (forall t sel m,
            stream_wf t -> 0 <= m <= valid_of t sel - consumed_of t sel ->
            stream_wf (set_consumed_of t sel (consumed_of t sel + m))) as Hcons.
  { intros t sel m (? & ? & ? & ? & ?) Hm.
    unfold stream_wf, set_consumed_of, valid_of, consumed_of in *.
    destruct (sel =? 0); simpl; repeat split; try lia; auto. }
  destruct (worker_available_bounds s Hwf) as [Ha Ho].
  destruct (decide (dest = 0 \/ n = 0)) as [Hg | Hg].
  { by rewrite worker_read_guard by done. }
  assert (dest <> 0 /\ n <> 0) as [Hd Hn0] by lia.
  destruct (decide (state s = STREAM_STATE_ERROR)) as [He | He].
  { by rewrite worker_read_dead by auto. }
  destruct (Z.ltb_spec 0 (sd_async_stream_available s)) as [Hpos | Hz].
  - destruct (worker_read_active s dest n Hwf Hn Hd Hn0 He Hpos) as [-> _]. simpl.
    apply Hcons; [done |]. rewrite worker_available_active. lia.
  - assert (stream_wf
              (set_active_buffer
                 (set_consumed_of (set_valid_of s (active_buffer s) 0) (active_buffer s) 0)
                 (1 - active_buffer s))
            /\ valid_of (set_active_buffer
                 (set_consumed_of (set_valid_of s (active_buffer s) 0) (active_buffer s) 0)
                 (1 - active_buffer s)) (1 - active_buffer s)
               - consumed_of (set_active_buffer
                 (set_consumed_of (set_valid_of s (active_buffer s) 0) (active_buffer s) 0)
                 (1 - active_buffer s)) (1 - active_buffer s)
               = other_available s) as [Hwf1 Hoa].
    { destruct Hwf as (? & ? & ? & ? & Hact).
      unfold stream_wf, other_available, set_valid_of, set_consumed_of,
        valid_of, consumed_of, SD_ASYNC_STREAM_BUFFER_BYTES,
        SD_ASYNC_STREAM_BUFFER_SAMPLES in *.
      destruct Hact as [Hact | Hact]; rewrite Hact; simpl; repeat split; lia. }
    destruct (Z.ltb_spec 0 (valid_of s (1 - active_buffer s))) as [Hov | Hov].
    + destruct (worker_read_swap s dest n Hwf Hd Hn0 He Hz Hov) as (_ & -> & _).
      destruct (Z.ltb_spec 0 (other_available s)).
      * rewrite worker_read_copy by lia. simpl. apply Hcons; [exact Hwf1 |].
        rewrite Hoa. lia.
      * by rewrite worker_read_copy_empty by lia.
    + by rewrite worker_read_starved by auto.
Qed.

Lemma worker_read_inv s dest n :
  stream_inv s -> 0 <= n < 2 ^ 32 -> stream_inv (sd_async_stream_read s dest n).2.
Proof.
  intros (Hwf & Hpos & Hsize & Hseek & Ho & Hfa & Hfb) Hn.
  destruct (worker_read_fields s dest n) as (Es & Ep & Ez & Et & Eva & Evb).
  split; [by apply worker_read_wf |].
  rewrite Es, Ep, Ez, Et. do 3 (split; [lia |]). split; [| split].
  - intros Hst. destruct (Ho Hst). lia.
  - intros Hst. specialize (Hfa Hst). lia.
  - intros Hst. specialize (Hfb Hst). lia.
Qed.

Lemma worker_seek_inv dev s position :
  device_ok dev -> stream_inv s -> 0 <= position < 2 ^ 32 ->
  stream_inv (sd_async_stream_seek dev s position).2.
Proof.
  intros Hdev Hinv Hp. unfold sd_async_stream_seek.
  case_decide; [exact Hinv |]. simpl.
  apply process_stream_work_inv; [exact Hdev |].
  destruct Hinv as (Hwf & Hpos & Hsize & _). worker_inv_crush.
Qed.

(** Every handle [sd_async_stream_open] returns satisfies the bounds. *)
Lemma worker_open_inv dev s p mem_a mem_b s' :
  device_ok dev ->
  (sd_async_stream_open dev s p mem_a mem_b).1 = Some s' ->
  stream_inv s'.
Proof.
  intros Hdev. unfold sd_async_stream_open.
  destruct ((_ =? 0) || (_ =? 0)); [done |].
  case_decide; [done |]. simpl. intros [= <-].
  apply process_stream_work_inv; [exact Hdev |]. worker_inv_crush.
Qed.
End WorkerFacts.

(** ** The stream interface, both variants *)

(** C2 (as amended): a read never returns more than the requested count,
    and never more than the unconsumed bytes of the buffer it drains: the
    active buffer when [available] is positive, and otherwise the other
    buffer, to which the read then switches. *)
Theorem read_bounded_by_drained_buffer
    (sp : SdPump.sd_async_stream) (sw : SdWorker.sd_async_stream) (dest n : Z) :
  SdPump.stream_wf sp -> SdWorker.stream_wf sw -> 0 <= n < 2 ^ 32 ->
  (SdPump.sd_async_stream_read sp dest n).1
    <= Z.min n (if 0 <? SdPump.sd_async_stream_available sp
                then SdPump.sd_async_stream_available sp
                else SdPump.other_available sp) /\
  (SdWorker.sd_async_stream_read sw dest n).1
    <= Z.min n (if 0 <? SdWorker.sd_async_stream_available sw
                then SdWorker.sd_async_stream_available sw
                else SdWorker.other_available sw).
Proof.
  intros Hp Hw Hn. split; [by apply pump_read_bound | by apply worker_read_bound].
Qed.

(** C3 (as amended): after a read that returned a positive count [r],
    [available] is the unconsumed byte count of the buffer the read drained
    minus [r]: [available] before the call minus [r] when that was positive,
    and otherwise the unconsumed bytes of the other buffer minus [r]. *)
Theorem available_after_read
    (sp : SdPump.sd_async_stream) (sw : SdWorker.sd_async_stream) (dest n : Z) :
  SdPump.stream_wf sp -> SdWorker.stream_wf sw -> 0 <= n < 2 ^ 32 ->
  (0 < (SdPump.sd_async_stream_read sp dest n).1 ->
   SdPump.sd_async_stream_available (SdPump.sd_async_stream_read sp dest n).2
   = (if 0 <? SdPump.sd_async_stream_available sp
      then SdPump.sd_async_stream_available sp
      else SdPump.other_available sp)
     - (SdPump.sd_async_stream_read sp dest n).1) /\
  (0 < (SdWorker.sd_async_stream_read sw dest n).1 ->
   SdWorker.sd_async_stream_available (SdWorker.sd_async_stream_read sw dest n).2
   = (if 0 <? SdWorker.sd_async_stream_available sw
      then SdWorker.sd_async_stream_available sw
      else SdWorker.other_available sw)
     - (SdWorker.sd_async_stream_read sw dest n).1).
Proof.
  intros Hp Hw Hn.
  split; [by apply pump_read_available | by apply worker_read_available].
Qed.

(** C4 (as amended): for a stream in the EOF state whose two buffers are
    drained, the pump variant's read returns -1 for every destination and
    every count, 0 included; the worker variant's read returns -1 when the
    destination is not null and the count is not 0, and 0 otherwise. *)
Theorem eof_drained_read_result
    (sp : SdPump.sd_async_stream) (sw : SdWorker.sd_async_stream) (dest n : Z) :
  SdPump.stream_wf sp -> SdPump.state sp = SdPump.STREAM_STATE_EOF ->
  SdPump.sd_async_stream_available sp <= 0 -> SdPump.other_available sp <= 0 ->
  SdWorker.stream_wf sw -> SdWorker.state sw = SdWorker.STREAM_STATE_EOF ->
  SdWorker.sd_async_stream_available sw <= 0 -> SdWorker.other_available sw <= 0 ->
  (SdPump.sd_async_stream_read sp dest n).1 = -1 /\
  (SdWorker.sd_async_stream_read sw dest n).1
    = (if (dest =? 0) || (n =? 0) then 0 else -1).
Proof.
  intros Hp Hps Hpa Hpo Hw Hws Hwa Hwo.
  split; [by apply pump_read_eof_drained | by apply worker_read_eof_drained].
Qed.

(** C5 (as amended): a stream in the ERROR state stays in it, with all its
    fields unchanged, under read in both variants (the result is -1, except
    that the worker variant answers 0 for a null destination or a count of
    0), under the pump, under the worker's pass over the streams, and in the
    worker variant under seek, which returns -1. *)
Theorem error_state_kept
    (dev : sd_device) (sp : SdPump.sd_async_stream) (sw : SdWorker.sd_async_stream)
    (dest n position : Z) :
  SdPump.state sp = SdPump.STREAM_STATE_ERROR ->
  SdWorker.state sw = SdWorker.STREAM_STATE_ERROR ->
  SdPump.sd_async_stream_read sp dest n = (-1, sp) /\
  SdPump.pump_slot dev sp = (false, sp) /\
  SdWorker.sd_async_stream_read sw dest n
    = ((if (dest =? 0) || (n =? 0) then 0 else -1), sw) /\
  SdWorker.sd_async_stream_seek dev sw position = (-1, sw) /\
  SdWorker.worker_stream_pass dev sw = sw.
Proof.
  intros Hp Hw.
  destruct (pump_error_kept dev sp Hp) as (H1 & _ & H2 & _).
  destruct (worker_error_kept dev sw Hw) as (_ & H4 & H5).
  split; [apply H1 |]. split; [exact H2 |]. split; [| split; [apply H4 | exact H5]].
  unfold SdWorker.sd_async_stream_read.
  destruct ((dest =? 0) || (n =? 0)); [done |]. by case_decide.
Qed.

(** The pump variant's seek has no test for the ERROR state: on a stream in
    that state whose file is still open it returns 0 whenever [f_lseek]
    succeeds, and leaves the stream in FILLING_A (target inside the file) or
    EOF. *)
Lemma pump_seek_revives_error_stream
    (dev : sd_device) (s : SdPump.sd_async_stream) (position : Z) :
  SdPump.state s = SdPump.STREAM_STATE_ERROR ->
  SdPump.file s <> 0 ->
  f_lseek dev (SdPump.file s) position = FR_OK ->
  (SdPump.sd_async_stream_seek dev s position).1 = 0 /\
  SdPump.state (SdPump.sd_async_stream_seek dev s position).2
    = (if position <? SdPump.file_size s
       then SdPump.STREAM_STATE_FILLING_A else SdPump.STREAM_STATE_EOF) /\
  SdPump.state (SdPump.sd_async_stream_seek dev s position).2
    <> SdPump.STREAM_STATE_ERROR.
Proof.
  intros He Hf Hl. destruct (pump_seek_state dev s position Hf Hl) as [H1 H2].
  split; [exact H1 |]. split; [exact H2 |].
  rewrite H2. by destruct (position <? SdPump.file_size s).
Qed.

(** ** The stream interface on concrete inputs *)

Lemma card_with_file_ok size :
  0 <= size < 2 ^ 32 -> device_ok (Fixtures.card_with_file size).
Proof. intros Hs. split; [intros fil pos btr Hb; simpl; lia | intros fil; exact Hs]. Qed.

Lemma card_read_fails_ok size :
  0 <= size < 2 ^ 32 -> device_ok (Fixtures.card_read_fails size).
Proof. intros Hs. split; [intros fil pos btr Hb; simpl; lia | intros fil; exact Hs]. Qed.

Lemma pump_first_buffer_drained_wf : SdPump.stream_wf Fixtures.pump_first_buffer_drained.
Proof. repeat split; try (vm_compute; congruence). by left. Qed.

Lemma worker_first_buffer_drained_wf :
  SdWorker.stream_wf Fixtures.worker_first_buffer_drained.
Proof. repeat split; try (vm_compute; congruence). by left. Qed.

Lemma pump_empty_file_wf : SdPump.stream_wf Fixtures.pump_empty_file.
Proof. repeat split; try (vm_compute; congruence). by left. Qed.

Lemma worker_empty_file_wf : SdWorker.stream_wf Fixtures.worker_empty_file.
Proof. repeat split; try (vm_compute; congruence). by left. Qed.

Lemma read_bounded_by_drained_buffer_witness :
  (SdPump.sd_async_stream_read Fixtures.pump_first_buffer_drained 32768 100).1
    <= Z.min 100 1808 /\
  (SdWorker.sd_async_stream_read Fixtures.worker_first_buffer_drained 32768 100).1
    <= Z.min 100 1808.
Proof.
  apply (read_bounded_by_drained_buffer
           Fixtures.pump_first_buffer_drained Fixtures.worker_first_buffer_drained
           32768 100 pump_first_buffer_drained_wf worker_first_buffer_drained_wf).
  lia.
Defined.

(** C2 as the specification words it (bound by [available] before the call)
    fails once the active buffer is used up and the other one holds data:
    [available] is 0 and the read returns 100 bytes. *)
Lemma read_exceeds_available_counterexample :
  let sp := Fixtures.pump_first_buffer_drained in
  let sw := Fixtures.worker_first_buffer_drained in
  (SdPump.sd_async_stream_available sp = 0 /\
   (SdPump.sd_async_stream_read sp 32768 100).1 = 100 /\
   ~ (SdPump.sd_async_stream_read sp 32768 100).1
       <= Z.min 100 (SdPump.sd_async_stream_available sp)) /\
  (SdWorker.sd_async_stream_available sw = 0 /\
   (SdWorker.sd_async_stream_read sw 32768 100).1 = 100 /\
   ~ (SdWorker.sd_async_stream_read sw 32768 100).1
       <= Z.min 100 (SdWorker.sd_async_stream_available sw)).
Proof.
  intros sp sw.
  assert (SdPump.sd_async_stream_available sp = 0) as E1 by reflexivity.
  assert ((SdPump.sd_async_stream_read sp 32768 100).1 = 100) as E2 by reflexivity.
  assert (SdWorker.sd_async_stream_available sw = 0) as E3 by reflexivity.
  assert ((SdWorker.sd_async_stream_read sw 32768 100).1 = 100) as E4 by reflexivity.
  rewrite E1, E2, E3, E4. repeat split; lia.
Qed.

Lemma available_after_read_witness :
  SdPump.sd_async_stream_available
    (SdPump.sd_async_stream_read Fixtures.pump_first_buffer_drained 32768 100).2
  = 1808 - 100 /\
  SdWorker.sd_async_stream_available
    (SdWorker.sd_async_stream_read Fixtures.worker_first_buffer_drained 32768 100).2
  = 1808 - 100.
Proof.
  destruct (available_after_read
              Fixtures.pump_first_buffer_drained Fixtures.worker_first_buffer_drained
              32768 100 pump_first_buffer_drained_wf worker_first_buffer_drained_wf
              ltac:(lia)) as [Hp Hw].
  split; [apply Hp | apply Hw]; reflexivity.
Defined.

(** C3 as the specification words it fails in the same situation:
    [available] goes from 0 to 1708 across a read that returned 100. *)
Lemma available_not_decreased_counterexample :
  let sp := Fixtures.pump_first_buffer_drained in
  let r := SdPump.sd_async_stream_read sp 32768 100 in
  r.1 = 100 /\
  SdPump.sd_async_stream_available sp = 0 /\
  SdPump.sd_async_stream_available r.2 = 1708 /\
  ~ SdPump.sd_async_stream_available r.2 = SdPump.sd_async_stream_available sp - r.1.
Proof.
  intros sp r.
  assert (r.1 = 100) as E1 by reflexivity.
  assert (SdPump.sd_async_stream_available sp = 0) as E2 by reflexivity.
  assert (SdPump.sd_async_stream_available r.2 = 1708) as E3 by reflexivity.
  rewrite E1, E2, E3. repeat split; lia.
Qed.

Lemma eof_drained_read_result_witness :
  (SdPump.sd_async_stream_read Fixtures.pump_empty_file 32768 16).1 = -1 /\
  (SdWorker.sd_async_stream_read Fixtures.worker_empty_file 32768 16).1 = -1.
Proof.
  apply (eof_drained_read_result Fixtures.pump_empty_file Fixtures.worker_empty_file
           32768 16 pump_empty_file_wf);
    [reflexivity | vm_compute; congruence | vm_compute; congruence
     | exact worker_empty_file_wf | reflexivity
     | vm_compute; congruence | vm_compute; congruence].
Defined.

(** C4 as the specification words it fails in the worker variant for a count
    of 0: the stream is at EOF with nothing buffered and the read returns 0. *)
Lemma eof_read_returns_zero_counterexample :
  let sw := Fixtures.worker_empty_file in
  SdWorker.state sw = SdWorker.STREAM_STATE_EOF /\
  SdWorker.sd_async_stream_available sw = 0 /\
  SdWorker.other_available sw = 0 /\
  (SdWorker.sd_async_stream_read sw 32768 0).1 = 0 /\
  ~ (SdWorker.sd_async_stream_read sw 32768 0).1 = -1.
Proof.
  intros sw. repeat split; try reflexivity.
  assert ((SdWorker.sd_async_stream_read sw 32768 0).1 = 0) as E by reflexivity.
  rewrite E. lia.
Qed.

Lemma error_state_kept_witness :
  SdPump.sd_async_stream_read Fixtures.pump_failed_stream 32768 16
    = (-1, Fixtures.pump_failed_stream) /\
  SdWorker.sd_async_stream_seek (Fixtures.card_with_file 20000)
    Fixtures.worker_failed_stream 0
    = (-1, Fixtures.worker_failed_stream).
Proof.
  destruct (error_state_kept (Fixtures.card_with_file 20000)
              Fixtures.pump_failed_stream Fixtures.worker_failed_stream 32768 16 0)
    as (H1 & _ & _ & H4 & _); [reflexivity | reflexivity |].
  split; [exact H1 | exact H4].
Defined.

(** C5 as the specification words it fails in the worker variant for a count
    of 0: the stream is in the ERROR state and the read returns 0, not -1. *)
Lemma error_read_returns_zero_counterexample :
  let sw := Fixtures.worker_failed_stream in
  SdWorker.state sw = SdWorker.STREAM_STATE_ERROR /\
  (SdWorker.sd_async_stream_read sw 32768 0).1 = 0 /\
  ~ (SdWorker.sd_async_stream_read sw 32768 0).1 = -1.
Proof.
  intros sw. repeat split; try reflexivity.
  assert ((SdWorker.sd_async_stream_read sw 32768 0).1 = 0) as E by reflexivity.
  rewrite E. lia.
Qed.

(** The pump variant's seek on a concrete stream: opened on a card whose
    reads fail, the stream is in the ERROR state; a seek to offset 0 returns
    0 and the stream is in FILLING_A. *)
Lemma pump_seek_revives_error_stream_example :
  SdPump.state Fixtures.pump_failed_stream = SdPump.STREAM_STATE_ERROR /\
  (SdPump.sd_async_stream_seek (Fixtures.card_read_fails 10000)
     Fixtures.pump_failed_stream 0).1 = 0 /\
  SdPump.state
    (SdPump.sd_async_stream_seek (Fixtures.card_read_fails 10000)
       Fixtures.pump_failed_stream 0).2
  = SdPump.STREAM_STATE_FILLING_A.
Proof. repeat split. Qed.

(** ** One-shot requests of the worker-based variant *)

Section OneshotFacts.
Import SdWorker.
Variable dev : sd_device.

Lemma find_slot_Some P rs i :
  find_slot P rs = Some i ->
  (exists r, rs !! i = Some r /\ P r = true) /\
  (forall j r', (j < i)%nat -> rs !! j = Some r' -> P r' = false).
Proof.
  revert i. induction rs as [| r rs IH]; intros i H; [done |].
  simpl in H. destruct (P r) eqn:E.
  - injection H as <-. split; [by exists r | intros j r' Hj; lia].
  - destruct (find_slot P rs) as [k |] eqn:Ek; [| done]. simpl in H.
    injection H as <-. destruct (IH k eq_refl) as [Hr Hlt]. split; [exact Hr |].
    intros [| j] r' Hj Hl; simpl in Hl.
    + by injection Hl as <-.
    + apply (Hlt j); [lia | done].
Qed.

Lemma find_slot_first P rs i r :
  rs !! i = Some r -> P r = true ->
  (forall j r', j <> i -> rs !! j = Some r' -> P r' = false) ->
  find_slot P rs = Some i.
Proof.
  revert i. induction rs as [| x rs IH]; intros i Hi Hp Hn; [done |].
  destruct i as [| i]; simpl in *.
  - injection Hi as ->. by rewrite Hp.
  - rewrite (Hn 0%nat x) by done.
    rewrite (IH i Hi Hp); [done |].
    intros j r' Hj Hl. apply (Hn (S j) r'); [lia | done].
Qed.

(** The request that [sd_async_read_file] stores when it finds a slot. *)
Lemma read_file_accepts q p dest n :
  g_initialized q = true -> dest <> 0 ->
  0 < g_next_req_id q -> g_next_req_id q + 1 < 2 ^ 32 ->
  Forall (fun r => req_id r <> g_next_req_id q) (requests q) ->
  (sd_async_read_file q (Some p) dest n).1 <> SD_ASYNC_INVALID_REQ ->
  (sd_async_read_file q (Some p) dest n).1 = g_next_req_id q /\
  g_next_req_id (sd_async_read_file q (Some p) dest n).2 = g_next_req_id q + 1 /\
  exists i, pending_at (sd_async_read_file q (Some p) dest n).2 i
              (g_next_req_id q) (copy_path p).
Proof.
  intros Hi Hd Hpos Hwrap Hfresh. unfold sd_async_read_file.
  rewrite Hi. destruct (Z.eqb_spec dest 0) as [| _]; [done |]. simpl.
  destruct (find_slot slot_reusable (requests q)) as [i |] eqn:Ef; [| done].
  simpl. intros _. split; [done |].
  destruct (find_slot_Some _ _ _ Ef) as [[r [Hr _]] _].
  rewrite u32_small by lia.
  destruct (Z.eqb_spec (g_next_req_id q + 1) SD_ASYNC_INVALID_REQ) as [E | _].
  { unfold SD_ASYNC_INVALID_REQ in E. lia. }
  split; [done |]. exists i. split.
  - eexists. split.
    + simpl. apply list_lookup_insert_eq. by eapply lookup_lt_Some.
    + done.
  - intros j r' Hj Hl. simpl in Hl. rewrite list_lookup_insert_ne in Hl by done.
    rewrite Forall_forall in Hfresh. apply Hfresh.
    by eapply list_elem_of_lookup_2.
Qed.

(** A later submission takes another slot and another id. *)
Lemma read_file_keeps q i rid p0 path dest n :
  pending_at q i rid p0 -> 0 < rid ->
  rid < g_next_req_id q -> g_next_req_id q + 1 < 2 ^ 32 ->
  pending_at (sd_async_read_file q path dest n).2 i rid p0 /\
  g_next_req_id q <= g_next_req_id (sd_async_read_file q path dest n).2
    <= g_next_req_id q + 1.
Proof.
  intros Hp Hrid Hlt Hwrap. unfold sd_async_read_file.
  destruct path as [p |]; [| split; [done | simpl; lia]].
  destruct (negb (g_initialized q) || (dest =? 0)); [split; [done | simpl; lia] |].
  destruct (find_slot slot_reusable (requests q)) as [j |] eqn:Ef;
    [| split; [done | simpl; lia]].
  simpl. rewrite u32_small by lia.
  destruct (Z.eqb_spec (g_next_req_id q + 1) SD_ASYNC_INVALID_REQ) as [E | _].
  { unfold SD_ASYNC_INVALID_REQ in E. lia. }
  split; [| lia].
  destruct Hp as [(r & Hr & Hid & Hst & Hpath) Hothers].
  destruct (find_slot_Some _ _ _ Ef) as [[rj [Hrj Hreuse]] _].
  assert (j <> i) as Hji.
  { intros ->. rewrite Hr in Hrj. injection Hrj as <-.
    unfold slot_reusable in Hreuse. by rewrite Hst in Hreuse. }
  split.
  - exists r. simpl. by rewrite list_lookup_insert_ne.
  - intros k r' Hk Hl. simpl in Hl.
    destruct (decide (k = j)) as [-> | Hkj].
    + rewrite list_lookup_insert_eq in Hl by (by eapply lookup_lt_Some).
      injection Hl as <-. simpl. lia.
    + rewrite list_lookup_insert_ne in Hl by done. by apply (Hothers k).
Qed.

Lemma submit_all_keeps later :
  forall q i rid p0,
    pending_at q i rid p0 -> 0 < rid ->
    rid < g_next_req_id q ->
    g_next_req_id q + Z.of_nat (length later) < 2 ^ 32 ->
    pending_at (submit_all later q) i rid p0.
Proof.
  induction later as [| rq later IH]; intros q i rid p0 Hp Hrid Hlt Hwrap; [done |].
  unfold submit_all. rewrite fold_left_cons_eq. fold (submit_all later).
  cbn [length] in Hwrap.
  destruct (read_file_keeps q i rid p0 (Some rq.1.1) rq.1.2 rq.2 Hp Hrid Hlt)
    as [Hp' Hn]; [lia |].
  apply IH; [exact Hp' | exact Hrid | lia | lia].
Qed.

Lemma worker_request_slot_id r : req_id (worker_request_slot dev r) = req_id r.
Proof.
  unfold worker_request_slot, process_oneshot_work.
  destruct (req_state r); try done. simpl.
  destruct (pop_fs_open dev (req_path r) =? 0); [done |].
  by destruct (f_read dev _ _ _) as [[] ?].
Qed.

Lemma worker_request_slot_unopenable r :
  req_state r = REQ_STATE_PENDING -> pop_fs_open dev (req_path r) = 0 ->
  req_state (worker_request_slot dev r) = REQ_STATE_ERROR /\
  req_result (worker_request_slot dev r) = -1.
Proof.
  intros Hs Hp. unfold worker_request_slot, process_oneshot_work.
  rewrite Hs. simpl. rewrite Hp. done.
Qed.

(** The worker's pass over the table fails the pending request whose path
    cannot be opened, and the id still finds it. *)
Lemma worker_pass_fails q i rid p0 :
  pending_at q i rid p0 -> pop_fs_open dev p0 = 0 ->
  exists r, request_of (worker_requests_pass dev q) rid = Some r /\
            req_state r = REQ_STATE_ERROR /\ req_result r = -1.
Proof.
  intros [(r & Hr & Hid & Hst & Hpath) Hothers] Hopen.
  exists (worker_request_slot dev r).
  assert (find_slot (has_id rid) (requests (worker_requests_pass dev q)) = Some i) as Hf.
  { apply (find_slot_first _ _ _ (worker_request_slot dev r)).
    - simpl. by rewrite list_lookup_fmap, Hr.
    - unfold has_id. rewrite worker_request_slot_id. by apply Z.eqb_eq.
    - intros j r' Hj Hl. simpl in Hl. rewrite list_lookup_fmap in Hl.
      destruct (requests q !! j) as [r0 |] eqn:Hr0; [| done].
      simpl in Hl. injection Hl as <-.
      unfold has_id. rewrite worker_request_slot_id.
      apply Z.eqb_neq. by apply (Hothers j). }
  unfold request_of. rewrite Hf. simpl. rewrite list_lookup_fmap, Hr. simpl.
  split; [done |]. apply worker_request_slot_unopenable; [done |].
  by rewrite Hpath.
Qed.

Lemma request_of_observed q rid r :
  rid <> SD_ASYNC_INVALID_REQ ->
  request_of q rid = Some r ->
  sd_async_get_result q rid = req_result r /\
  sd_async_is_complete q rid
  = bool_decide (req_state r = REQ_STATE_COMPLETE)
    || bool_decide (req_state r = REQ_STATE_ERROR).
Proof.
  intros Hrid. unfold request_of, sd_async_get_result, sd_async_is_complete.
  destruct (Z.eqb_spec rid SD_ASYNC_INVALID_REQ); [done |].
  destruct (find_slot (has_id rid) (requests q)) as [i |]; [| done].
  by intros ->.
Qed.

(** C9: a one-shot request whose stored path cannot be opened, once
    accepted, is found in the ERROR state with result -1 after the worker's
    next pass over the table, whatever its byte count (0 included),
    whatever the table held when it was submitted and whatever requests
    were submitted after it. *)
Theorem unopenable_oneshot_request_fails
    (q : sd_queue) (p : list Byte.byte) (dest n : Z)
    (later : list (list Byte.byte * Z * Z)) :
  g_initialized q = true -> dest <> 0 ->
  pop_fs_open dev (copy_path p) = 0 ->
  0 < g_next_req_id q ->
  g_next_req_id q + Z.of_nat (length later) + 1 < 2 ^ 32 ->
  Forall (fun r => req_id r <> g_next_req_id q) (requests q) ->
  let rid := (sd_async_read_file q (Some p) dest n).1 in
  let q1 := (sd_async_read_file q (Some p) dest n).2 in
  let q2 := worker_requests_pass dev (submit_all later q1) in
  rid <> SD_ASYNC_INVALID_REQ ->
  sd_async_is_complete q2 rid = true /\
  sd_async_get_result q2 rid = -1 /\
  req_state <$> request_of q2 rid = Some REQ_STATE_ERROR.
Proof.
  intros Hi Hd Hopen Hpos Hwrap Hfresh rid q1 q2 Hrid. subst rid q1 q2.
  destruct (read_file_accepts q p dest n Hi Hd Hpos ltac:(lia) Hfresh Hrid)
    as (Erid & Enext & i & Hp).
  rewrite Erid in *.
  pose proof (submit_all_keeps later _ i _ _ Hp Hpos ltac:(lia) ltac:(lia)) as Hp'.
  destruct (worker_pass_fails _ i _ _ Hp' Hopen) as (r & Hr & Hs & Hres).
  destruct (request_of_observed _ _ r Hrid Hr) as [-> ->].
  rewrite Hr, Hs, Hres. cbn [fmap option_fmap option_map]. rewrite Hs.
  repeat split.
Qed.

(** The freshness asked of the table holds in every state the queue reaches
    before its 32-bit id counter wraps. *)
Lemma ids_below_fresh q :
  ids_below q -> Forall (fun r => req_id r <> g_next_req_id q) (requests q).
Proof.
  intros [_ H]. eapply Forall_impl; [exact H |]. simpl. intros r Hr. lia.
Qed.

Lemma ids_below_init : ids_below sd_async_init.
Proof.
  split; [done |]. unfold sd_async_init. cbn [requests g_next_req_id].
  apply Forall_replicate. done.
Qed.

Lemma ids_below_read_file q path dest n :
  ids_below q -> g_next_req_id q + 1 < 2 ^ 32 ->
  ids_below (sd_async_read_file q path dest n).2.
Proof.
  intros [Hpos Hall] Hwrap. unfold sd_async_read_file.
  destruct path as [p |]; [| done].
  destruct (negb (g_initialized q) || (dest =? 0)); [done |].
  destruct (find_slot slot_reusable (requests q)) as [j |]; [| done].
  unfold ids_below. simpl. rewrite u32_small by lia.
  destruct (Z.eqb_spec (g_next_req_id q + 1) SD_ASYNC_INVALID_REQ) as [E | _].
  { unfold SD_ASYNC_INVALID_REQ in E. lia. }
  split; [lia |]. apply Forall_insert.
  - eapply Forall_impl; [exact Hall |]. simpl. intros r Hr. lia.
  - simpl. lia.
Qed.

Lemma ids_below_worker_pass q :
  ids_below q -> ids_below (worker_requests_pass dev q).
Proof.
  intros [Hpos Hall]. split; [done |]. simpl.
  apply Forall_fmap. eapply Forall_impl; [exact Hall |].
  intros r Hr. simpl. by rewrite worker_request_slot_id.
Qed.

Lemma ids_below_cancel q req :
  ids_below q -> ids_below (sd_async_cancel q req).
Proof.
  intros [Hpos Hall]. unfold sd_async_cancel.
  destruct (req =? SD_ASYNC_INVALID_REQ); [done |].
  destruct (find_slot (cancel_slot req) (requests q)) as [i |]; [| done].
  split; [done |]. simpl.
  rewrite Forall_lookup in Hall. apply Forall_lookup. intros j r Hl.
  destruct (decide (i = j)) as [-> | Hij].
  - rewrite list_lookup_alter_eq in Hl.
    destruct (requests q !! j) as [r0 |] eqn:E; [| done].
    simpl in Hl. injection Hl as <-. simpl. by apply (Hall j).
  - rewrite list_lookup_alter_ne in Hl by done. by apply (Hall j).
Qed.
End OneshotFacts.

(** ** One-shot requests on concrete inputs *)

Lemma unopenable_oneshot_request_fails_witness :
  let dev := Fixtures.card_without_files in
  let q := (SdWorker.sd_async_read_file SdWorker.sd_async_init
              (Some Fixtures.some_path) 32768 100).2 in
  let rid := (SdWorker.sd_async_read_file q (Some Fixtures.some_path) 32768 0).1 in
  let q1 := (SdWorker.sd_async_read_file q (Some Fixtures.some_path) 32768 0).2 in
  let q2 := SdWorker.worker_requests_pass dev
              (SdWorker.submit_all [(Fixtures.some_path, 32768, 50)] q1) in
  rid = 2 /\
  SdWorker.sd_async_is_complete q2 rid = true /\
  SdWorker.sd_async_get_result q2 rid = -1 /\
  SdWorker.req_state <$> SdWorker.request_of q2 rid = Some SdWorker.REQ_STATE_ERROR.
Proof.
  intros dev q rid q1 q2. split; [reflexivity |].
  apply (unopenable_oneshot_request_fails dev q Fixtures.some_path 32768 0
           [(Fixtures.some_path, 32768, 50)]).
  - reflexivity.
  - lia.
  - reflexivity.
  - reflexivity.
  - reflexivity.
  - apply ids_below_fresh, ids_below_read_file; [apply ids_below_init | reflexivity].
  - discriminate.
Defined.

(** The three requests of 100, 0 and 50 bytes, submitted in each of the six
    possible orders: every one is complete, in the ERROR state, with result -1. *)
Lemma oneshot_scenario_every_order :
  Fixtures.oneshot_scenario <$> permutations [100; 0; 50]
  = replicate 6 (replicate 3 (true, -1, Some SdWorker.REQ_STATE_ERROR)).
Proof. vm_compute. reflexivity. Qed.

(** * Properties of the encoders *)

Section WireFacts.
Import Hdmi HdmiWire.






Lemma symbol_law_spec d q x :
  symbol_law d q x = true ->
  256 <= q < 768 /\
  Z.testbit q 9 = x /\
  Z.testbit q 8 = negb x /\
  Z.testbit q 0 = Z.testbit d 0 /\
  (forall i, 1 <= i <= 7 ->
     Z.testbit d i = xorb (xorb (Z.testbit q i) (Z.testbit q (i - 1))) (Z.testbit q 9)) /\
  bit_transitions 8 (Z.land q 255) <= 3 /\
  bit_transitions 10 q <= 5.
Proof.
  unfold symbol_law. generalize (bit_transitions 8 (Z.land q 255)).
  generalize (bit_transitions 10 q). intros t10 t8 H.
  rewrite !andb_true_iff in H.
  destruct H as [[[[[[[H1 H2] H3] H4] H5] H6] H7] H8].
  apply Z.leb_le in H1, H7, H8. apply Z.ltb_lt in H2.
  apply eqb_prop in H3, H4, H5. rewrite forallb_forall in H6.
  repeat split; try done.
  intros i Hi. rewrite H3. apply eqb_prop, H6, list_elem_of_In, elem_of_seqZ. lia.
Qed.

Lemma tmds_law_all :
  forallb (fun d => symbol_law d (Hdmi.tmds_encoder d) (Hdmi.tmds_is_xnor d))
          (seqZ 0 256) = true.
Proof. vm_compute. reflexivity. Qed.

Lemma tmds_law_byte d :
  0 <= d < 256 -> symbol_law d (Hdmi.tmds_encoder d) (Hdmi.tmds_is_xnor d) = true.
Proof.
  intros Hd.
  apply (proj1 (forallb_forall _ _) tmds_law_all d).
  apply list_elem_of_In, elem_of_seqZ. lia.
Qed.

Theorem tmds_symbol_decodes (d : Z) :
  0 <= d < 256 ->
  let q := Hdmi.tmds_encoder d in
  256 <= q < 768 /\
  Z.testbit q 9 = Hdmi.tmds_is_xnor d /\
  Z.testbit q 8 = negb (Hdmi.tmds_is_xnor d) /\
  Z.testbit q 0 = Z.testbit d 0 /\
  (forall i, 1 <= i <= 7 ->
     Z.testbit d i = xorb (xorb (Z.testbit q i) (Z.testbit q (i - 1))) (Z.testbit q 9)).
Proof.
  intros Hd q.
  destruct (symbol_law_spec d _ _ (tmds_law_byte d Hd)) as (H1 & H2 & H3 & H4 & H5 & _).
  exact (conj H1 (conj H2 (conj H3 (conj H4 H5)))).
Qed.

Theorem tmds_transition_minimised (d : Z) :
  0 <= d < 256 ->
  bit_transitions 8 (Z.land (Hdmi.tmds_encoder d) 255) <= 3 /\
  bit_transitions 10 (Hdmi.tmds_encoder d) <= 5.
Proof.
  intros Hd.
  destruct (symbol_law_spec d _ _ (tmds_law_byte d Hd)) as (_ & _ & _ & _ & _ & H).
  exact H.
Qed.



Lemma distinct_on_spec (f : Z -> Z) (l : list Z) :
  distinct_on f l = true ->
  forall a b, In a l -> In b l -> f a = f b -> a = b.
Proof.
  unfold distinct_on. intros H a b Ha Hb E. rewrite forallb_forall in H.
  specialize (H (a, f a) (in_map _ _ _ Ha)).
  rewrite forallb_forall in H. specialize (H (b, f b) (in_map _ _ _ Hb)).
  cbn [fst snd] in H. rewrite E, Z.eqb_refl in H. by apply Z.eqb_eq.
Qed.

Lemma tmds_distinct_all : distinct_on Hdmi.tmds_encoder (seqZ 0 256) = true.
Proof. vm_compute. reflexivity. Qed.

Theorem tmds_encoder_injective (a b : Z) :
  0 <= a < 256 -> 0 <= b < 256 -> a <> b ->
  Hdmi.tmds_encoder a <> Hdmi.tmds_encoder b.
Proof.
  intros Ha Hb Hne E. apply Hne. revert E.
  apply (distinct_on_spec Hdmi.tmds_encoder (seqZ 0 256) tmds_distinct_all);
    apply list_elem_of_In, elem_of_seqZ; lia.
Qed.

(** ** Fading *)

Lemma fade_table_le : Forall (fun v => 0 <= v <= 255) Hdmi.fade_gamma_table.
Proof. unfold Hdmi.fade_gamma_table. repeat constructor; lia. Qed.


Lemma fade_table_decreasing i j :
  0 <= i <= j -> j < 64 -> rd Hdmi.fade_gamma_table j <= rd Hdmi.fade_gamma_table i.
Proof.
  intros Hij Hj.
  assert (forall n : nat, (n < 64)%nat -> forall i, 0 <= i -> i + Z.of_nat n < 64 ->
            rd Hdmi.fade_gamma_table (i + Z.of_nat n) <= rd Hdmi.fade_gamma_table i) as H.
  { induction n as [| n IH]; intros Hn i0 Hi0 Hlt.
    - rewrite Z.add_0_r. lia.
    - etransitivity; [| apply (IH ltac:(lia) i0 Hi0); lia].
      replace (i0 + Z.of_nat (S n)) with (i0 + Z.of_nat n + 1) by lia.
      assert (table_decreasing Hdmi.fade_gamma_table = true) as Hs by (vm_compute; reflexivity).
      unfold table_decreasing in Hs. rewrite forallb_forall in Hs.
      apply Z.leb_le, Hs, list_elem_of_In, elem_of_seqZ. lia. }
  replace j with (i + Z.of_nat (Z.to_nat (j - i))) by lia. apply H; lia.
Qed.

Lemma lor_disjoint a d n : 0 <= n -> 0 <= d < 2 ^ n -> Z.lor (a * 2 ^ n) d = a * 2 ^ n + d.
Proof.
  intros Hn Hd. rewrite <- Z.lxor_lor, <- Z.add_nocarry_lxor; try reflexivity.
  all: apply Z.bits_inj'; intros m Hm; rewrite Z.land_spec, Z.bits_0.
  all: destruct (Z.lt_ge_cases m n).
  all: try (rewrite Z.mul_pow2_bits_low by lia; reflexivity).
  all: destruct (Z.eq_dec d 0) as [-> | ?]; [rewrite Z.bits_0; apply andb_false_r |].
  all: rewrite (Z.bits_above_log2 d m); [apply andb_false_r | lia |].
  all: apply Z.log2_lt_pow2; [lia |]; apply Z.lt_le_trans with (2 ^ n); [lia |].
  all: apply Z.pow_le_mono_r; lia.
Qed.

Lemma colour_channel_range k c : 0 <= colour_channel k c < 256.
Proof.
  unfold colour_channel. change 255 with (Z.ones 8). rewrite Z.land_ones by lia.
  apply Z.mod_pos_bound. lia.
Qed.

Lemma pack_channels r g b :
  0 <= r < 256 -> 0 <= g < 256 -> 0 <= b < 256 ->
  u32 (Z.lor (Z.lor (Z.shiftl r 16) (Z.shiftl g 8)) b) = r * 65536 + g * 256 + b.
Proof.
  intros Hr Hg Hb. rewrite !Z.shiftl_mul_pow2 by lia.
  assert (0 <= g * 2 ^ 8 < 2 ^ 16) as Hg8 by (change (2 ^ 8) with 256; change (2 ^ 16) with 65536; lia).
  rewrite (lor_disjoint r (g * 2 ^ 8) 16 ltac:(lia) Hg8).
  replace (r * 2 ^ 16 + g * 2 ^ 8) with ((r * 256 + g) * 2 ^ 8)
    by (change (2 ^ 8) with 256; change (2 ^ 16) with 65536; lia).
  rewrite (lor_disjoint _ b 8) by (change (2 ^ 8) with 256; lia).
  change (2 ^ 8) with 256. rewrite u32_small; lia.
Qed.

Lemma colour_channel_packed r g b :
  0 <= r < 256 -> 0 <= g < 256 -> 0 <= b < 256 ->
  colour_channel 16 (r * 65536 + g * 256 + b) = r /\
  colour_channel 8 (r * 65536 + g * 256 + b) = g /\
  colour_channel 0 (r * 65536 + g * 256 + b) = b.
Proof.
  intros Hr Hg Hb. unfold colour_channel. change 255 with (Z.ones 8).
  rewrite !Z.land_ones, !Z.shiftr_div_pow2 by lia.
  repeat split; Z.div_mod_to_equations; lia.
Qed.

Lemma u8_small z : 0 <= z < 256 -> u8 z = z.
Proof. intros H. unfold u8. apply Z.mod_small. change (2 ^ 8) with 256. lia. Qed.

Lemma u16_small z : 0 <= z < 65536 -> u16 z = z.
Proof. intros H. unfold u16. apply Z.mod_small. change (2 ^ 16) with 65536. lia. Qed.

Lemma fade_table_range l : 0 <= rd Hdmi.fade_gamma_table l <= 255.
Proof.
  unfold rd. destruct (Hdmi.fade_gamma_table !! Z.to_nat l) as [v |] eqn:E; [| simpl; lia].
  simpl. pose proof fade_table_le as H. rewrite Forall_lookup in H. exact (H _ _ E).
Qed.

Lemma scaled_channel c scale :
  0 <= c < 256 -> 0 <= scale <= 255 ->
  u8 (Z.shiftr (c * scale) 8) = c * scale / 256 /\ 0 <= c * scale / 256 <= c.
Proof.
  intros Hc Hs. rewrite Z.shiftr_div_pow2 by lia. change (2 ^ 8) with 256.
  assert (0 <= c * scale / 256 <= c) as Hb.
  { split; [apply Z.div_pos; nia |].
    apply Z.div_le_upper_bound; nia. }
  split; [apply u8_small; lia | exact Hb].
Qed.

(** [apply_fade_to_color] for the levels that scale the channels. *)
Lemma apply_fade_scaled color l :
  1 <= l < 48 ->
  Hdmi.apply_fade_to_color color l
  = colour_channel 16 color * rd Hdmi.fade_gamma_table l / 256 * 65536
    + colour_channel 8 color * rd Hdmi.fade_gamma_table l / 256 * 256
    + colour_channel 0 color * rd Hdmi.fade_gamma_table l / 256.
Proof.
  intros Hl. unfold Hdmi.apply_fade_to_color.
  destruct (Z.eqb_spec l 0); [lia |]. destruct (Z.geb_spec l 48); [lia |].
  fold (colour_channel 16 color) (colour_channel 8 color) (colour_channel 0 color).
  pose proof (colour_channel_range 16 color) as H16.
  pose proof (colour_channel_range 8 color) as H8.
  pose proof (colour_channel_range 0 color) as H0.
  pose proof (fade_table_range l) as Ht.
  rewrite (u8_small (colour_channel 16 color)), (u8_small (colour_channel 8 color)),
    (u8_small (colour_channel 0 color)), u16_small by lia.
  destruct (scaled_channel _ _ H16 Ht) as [-> ?].
  destruct (scaled_channel _ _ H8 Ht) as [-> ?].
  destruct (scaled_channel _ _ H0 Ht) as [-> ?].
  apply pack_channels; lia.
Qed.

Theorem fade_never_brightens (color l1 l2 k : Z) :
  0 <= l1 <= l2 -> k = 0 \/ k = 8 \/ k = 16 ->
  colour_channel k (Hdmi.apply_fade_to_color color l2)
    <= colour_channel k (Hdmi.apply_fade_to_color color l1)
    <= colour_channel k color /\
  (48 <= l2 -> Hdmi.apply_fade_to_color color l2 = 0).
Proof.
  intros Hl Hk.
  assert (forall l, 48 <= l -> Hdmi.apply_fade_to_color color l = 0) as Hblack.
  { intros l H. unfold Hdmi.apply_fade_to_color.
    destruct (Z.eqb_spec l 0); [lia |]. by destruct (Z.geb_spec l 48); [| lia]. }
  assert (forall l, 1 <= l < 48 ->
            colour_channel k (Hdmi.apply_fade_to_color color l)
            = colour_channel k color * rd Hdmi.fade_gamma_table l / 256) as Hmid.
  { intros l H. rewrite apply_fade_scaled by exact H.
    pose proof (fade_table_range l) as Ht.
    destruct (scaled_channel _ _ (colour_channel_range 16 color) Ht) as [_ ?].
    destruct (scaled_channel _ _ (colour_channel_range 8 color) Ht) as [_ ?].
    destruct (scaled_channel _ _ (colour_channel_range 0 color) Ht) as [_ ?].
    pose proof (colour_channel_range 16 color). pose proof (colour_channel_range 8 color).
    pose proof (colour_channel_range 0 color).
    destruct (colour_channel_packed
                (colour_channel 16 color * rd Hdmi.fade_gamma_table l / 256)
                (colour_channel 8 color * rd Hdmi.fade_gamma_table l / 256)
                (colour_channel 0 color * rd Hdmi.fade_gamma_table l / 256))
      as (E16 & E8 & E0); [lia .. |].
    destruct Hk as [-> | [-> | ->]]; assumption. }
  assert (forall l, 0 <= l ->
            colour_channel k (Hdmi.apply_fade_to_color color l) <= colour_channel k color)
    as Hle.
  { intros l H0. destruct (Z.eq_dec l 0) as [-> | ?]; [reflexivity |].
    destruct (Z.lt_ge_cases l 48).
    - rewrite Hmid by lia.
      apply (scaled_channel _ _ (colour_channel_range k color) (fade_table_range l)).
    - rewrite Hblack by lia.
      change (colour_channel k 0) with (Z.land (Z.shiftr 0 k) 255).
      rewrite Z.shiftr_0_l. apply colour_channel_range. }
  split; [split; [| apply Hle; lia] | apply Hblack].
  destruct (Z.eq_dec l1 0) as [-> | ?]; [apply Hle; lia |].
  destruct (Z.lt_ge_cases l2 48).
  - rewrite !Hmid by lia. apply Z.div_le_mono; [lia |].
    apply Z.mul_le_mono_nonneg_l; [apply colour_channel_range |].
    apply fade_table_decreasing; lia.
  - rewrite (Hblack l2) by lia.
    change (colour_channel k 0) with (Z.land (Z.shiftr 0 k) 255).
    rewrite Z.shiftr_0_l. apply colour_channel_range.
Qed.

(** ** The serialiser *)


Lemma land1_testbit x n : 0 <= n -> Z.land (Z.shiftr x n) 1 = b2z (Z.testbit x n).
Proof.
  intros Hn. change 1 with (Z.ones 1). rewrite Z.land_ones by lia.
  rewrite <- Z.bit0_mod, Z.shiftr_spec by lia. rewrite Z.add_0_l.
  by destruct (Z.testbit x n).
Qed.

Lemma lor_low a d : 0 <= d < 64 -> Z.lor (a * 64) d = a * 64 + d.
Proof.
  intros Hd. rewrite <- Z.lxor_lor, <- Z.add_nocarry_lxor; try reflexivity.
  all: apply Z.bits_inj'; intros n Hn; rewrite Z.land_spec, Z.bits_0.
  all: destruct (Z.lt_ge_cases n 6).
  all: try (change 64 with (2 ^ 6); rewrite Z.mul_pow2_bits_low by lia; reflexivity).
  all: rewrite (Z.bits_above_log2 d n); [apply andb_false_r | lia |].
  all: destruct (Z.eq_dec d 0) as [-> | ?]; [simpl; lia |].
  all: apply Z.log2_lt_pow2; [lia |]; apply Z.lt_le_trans with (2 ^ 6); [simpl; lia |].
  all: apply Z.pow_le_mono_r; lia.
Qed.

Lemma u64_small z : 0 <= z < 2 ^ 64 -> u64 z = z.
Proof. intros H. unfold u64. by apply Z.mod_small. Qed.

Lemma ser_diff_step_eq cfg r g b out i :
  0 <= i < 10 -> 0 <= out < 2 ^ 56 ->
  Hdmi.ser_diff_step cfg r g b out i
  = (if i =? 5 then out * 256 else out * 64) + ser_group cfg r g b i.
Proof.
  intros Hi Ho. unfold Hdmi.ser_diff_step, ser_group, ser_lane_source, ser_pair.
  rewrite !land1_testbit by lia.
  rewrite (Z.shiftl_mul_pow2 out 6) by lia.
  change (2 ^ 6) with 64.
  rewrite (u64_small (out * 64)) by lia.
  assert ((if i =? 5 then u64 (Z.shiftl (out * 64) 2) else out * 64)
          = (if i =? 5 then out * 4 else out) * 64) as ->.
  { destruct (i =? 5); [| lia].
    rewrite Z.shiftl_mul_pow2 by lia. rewrite u64_small; lia. }
  replace (if i =? 5 then out * 256 else out * 64)
    with ((if i =? 5 then out * 4 else out) * 64) by (destruct (i =? 5); lia).
  generalize (if i =? 5 then out * 4 else out). intros a.
  destruct cfg as [inv rgb pc];
    cbn [Hdmi.PICO_PC Hdmi.HDMI_PIN_invert_diffpairs Hdmi.HDMI_PIN_RGB_notBGR].
  destruct inv, rgb, pc; cbn -[Z.mul Z.add Z.lor Z.testbit Z.sub];
    destruct (Z.testbit r (9 - i)), (Z.testbit g (9 - i)), (Z.testbit b (9 - i));
    cbn -[Z.mul Z.add Z.lor]; rewrite lor_low by (vm_compute; split; congruence);
    vm_compute (u8 _); lia.
Qed.

Lemma ser_group_bounds cfg r g b i : 21 <= ser_group cfg r g b i <= 42.
Proof. unfold ser_group, ser_pair. repeat match goal with |- context [if ?c then _ else _] => destruct c end; lia. Qed.

Lemma get_ser_diff_data_groups cfg r g b :
  let s := ser_group cfg r g b in
  Hdmi.get_ser_diff_data cfg r g b
  = ((((s 0 * 64 + s 1) * 64 + s 2) * 64 + s 3) * 64 + s 4) * 2 ^ 32
    + ((((s 5 * 64 + s 6) * 64 + s 7) * 64 + s 8) * 64 + s 9).
Proof.
  intros s. unfold Hdmi.get_ser_diff_data.
  change (seqZ 0 10) with [0; 1; 2; 3; 4; 5; 6; 7; 8; 9].
  cbn [fold_left].
  pose proof (ser_group_bounds cfg r g b) as Hb.
  pose proof (Hb 0); pose proof (Hb 1); pose proof (Hb 2); pose proof (Hb 3);
  pose proof (Hb 4); pose proof (Hb 5); pose proof (Hb 6); pose proof (Hb 7);
  pose proof (Hb 8); pose proof (Hb 9). clear Hb.
  rewrite (ser_diff_step_eq cfg r g b 0 0) by lia.
  rewrite (ser_diff_step_eq cfg r g b _ 1) by (cbn [Z.eqb]; lia).
  rewrite (ser_diff_step_eq cfg r g b _ 2) by (cbn [Z.eqb Pos.eqb]; lia).
  rewrite (ser_diff_step_eq cfg r g b _ 3) by (cbn [Z.eqb Pos.eqb]; lia).
  rewrite (ser_diff_step_eq cfg r g b _ 4) by (cbn [Z.eqb Pos.eqb]; lia).
  rewrite (ser_diff_step_eq cfg r g b _ 5) by (cbn [Z.eqb Pos.eqb]; lia).
  rewrite (ser_diff_step_eq cfg r g b _ 6) by (cbn [Z.eqb Pos.eqb]; lia).
  rewrite (ser_diff_step_eq cfg r g b _ 7) by (cbn [Z.eqb Pos.eqb]; lia).
  rewrite (ser_diff_step_eq cfg r g b _ 8) by (cbn [Z.eqb Pos.eqb]; lia).
  rewrite (ser_diff_step_eq cfg r g b _ 9) by (cbn [Z.eqb Pos.eqb]; lia).
  cbn [Z.eqb Pos.eqb]. fold s. lia.
Qed.

Lemma pair_extract hi l lo m :
  0 <= m -> 0 <= lo < 2 ^ m -> 0 <= l < 4 ->
  Z.land (Z.shiftr (hi * 2 ^ (m + 2) + l * 2 ^ m + lo) m) 3 = l.
Proof.
  intros Hm Hlo Hl. change 3 with (Z.ones 2). rewrite Z.land_ones, Z.shiftr_div_pow2 by lia.
  rewrite Z.pow_add_r by lia. change (2 ^ 2) with 4.
  replace (hi * (2 ^ m * 4) + l * 2 ^ m + lo) with ((hi * 4 + l) * 2 ^ m + lo) by lia.
  rewrite Z.div_add_l by lia. rewrite Z.div_small by lia.
  rewrite Z.add_0_r, Z.add_comm, Z.mod_add by lia. apply Z.mod_small. lia.
Qed.

Lemma ser_pair_range cfg bit : 1 <= ser_pair cfg bit <= 2.
Proof. unfold ser_pair. destruct (xorb _ _); lia. Qed.

Lemma div_high_part a b m c :
  0 <= b < 2 ^ m -> 0 <= m <= c -> (a * 2 ^ m + b) / 2 ^ c = a / 2 ^ (c - m).
Proof.
  intros Hb Hm. replace c with (m + (c - m)) at 1 by lia.
  rewrite Z.pow_add_r, <- Z.div_div by lia.
  rewrite Z.div_add_l, (Z.div_small b) by lia. by rewrite Z.add_0_r.
Qed.

Lemma div_low_part a b m c :
  0 <= c -> c + 2 <= m -> ((a * 2 ^ m + b) / 2 ^ c) mod 2 ^ 2 = (b / 2 ^ c) mod 2 ^ 2.
Proof.
  intros Hc Hm. replace m with (2 + (m - c - 2) + c) by lia.
  rewrite !Z.pow_add_r by lia. rewrite !Z.mul_assoc, Z.div_add_l by lia.
  rewrite Z.add_comm. replace (a * 2 ^ 2 * 2 ^ (m - c - 2)) with (a * 2 ^ (m - c - 2) * 2 ^ 2) by lia.
  apply Z.mod_add. lia.
Qed.

Lemma div_high_group a s c :
  0 <= s < 64 -> 6 <= c -> (a * 64 + s) / 2 ^ c = a / 2 ^ (c - 6).
Proof. intros. apply (div_high_part a s 6 c); lia. Qed.

Lemma div_low_group a s c :
  0 <= c <= 4 -> ((a * 64 + s) / 2 ^ c) mod 2 ^ 2 = (s / 2 ^ c) mod 2 ^ 2.
Proof. intros. apply (div_low_part a s 6 c); lia. Qed.

Ltac ser_sub_norm :=
  repeat match goal with
  | |- context [2 ^ (?x - ?y)] =>
      let v := eval vm_compute in (x - y) in change (x - y) with v
  end.

Theorem ser_diff_word_layout (cfg : Hdmi.board_config) (dataR dataG dataB i k : Z) :
  0 <= i < 10 -> 0 <= k < 3 ->
  let w := Hdmi.get_ser_diff_data cfg dataR dataG dataB in
  Z.land (Z.shiftr w (ser_group_pos i + 2 * k)) 3
    = ser_pair cfg (Z.testbit (ser_lane_source cfg dataR dataG dataB k) (9 - i)) /\
  Z.land (Z.shiftr w 30) 3 = 0 /\
  0 <= w < 2 ^ 62.
Proof.
  intros Hi Hk w. subst w. change 3 with (Z.ones 2).
  rewrite get_ser_diff_data_groups. cbv zeta.
  pose proof (ser_group_bounds cfg dataR dataG dataB) as Hb.
  pose proof (Hb 0); pose proof (Hb 1); pose proof (Hb 2); pose proof (Hb 3);
  pose proof (Hb 4); pose proof (Hb 5); pose proof (Hb 6); pose proof (Hb 7);
  pose proof (Hb 8); pose proof (Hb 9). clear Hb.
  rewrite !Z.land_ones, !Z.shiftr_div_pow2
    by (unfold ser_group_pos; destruct (i <? 5); lia).
  split; [| split; [| lia]].
  - assert (i = 0 \/ i = 1 \/ i = 2 \/ i = 3 \/ i = 4 \/ i = 5 \/ i = 6 \/ i = 7
            \/ i = 8 \/ i = 9) as Hic by lia.
    assert (k = 0 \/ k = 1 \/ k = 2) as Hkc by lia.
    clear Hi Hk.
    destruct Hic as [-> | [-> | [-> | [-> | [-> | [-> | [-> | [-> | [-> | ->]]]]]]]]];
      destruct Hkc as [-> | [-> | ->]];
      match goal with |- context [2 ^ (?a + ?b)] =>
        let c := eval vm_compute in (a + b) in change (a + b) with c end;
      first [ rewrite div_high_part by lia | rewrite div_low_part by lia ];
      ser_sub_norm;
      repeat (rewrite div_high_group by lia; ser_sub_norm);
      rewrite ?div_low_group by lia;
      unfold ser_group;
      repeat match goal with
      | |- context [ser_pair cfg ?t] =>
          let H := fresh "Hp" in let p := fresh "p" in
          pose proof (ser_pair_range cfg t) as H;
          set (p := ser_pair cfg t) in *; clearbody p
      end;
      Z.div_mod_to_equations; lia.
  - rewrite div_low_part by lia. rewrite Z.div_small by lia. reflexivity.
Qed.

End WireFacts.

(** * The scanline interrupt *)

Section IrqFacts.
Import Hdmi HdmiIrq.


Lemma word_bytes_pack b0 b1 b2 b3 b4 b5 b6 b7 :
  is_byte b0 -> is_byte b1 -> is_byte b2 -> is_byte b3 ->
  is_byte b4 -> is_byte b5 -> is_byte b6 -> is_byte b7 ->
  word_bytes (b0 + 2 ^ 8 * b1 + 2 ^ 16 * b2 + 2 ^ 24 * b3 + 2 ^ 32 * b4 + 2 ^ 40 * b5
              + 2 ^ 48 * b6 + 2 ^ 56 * b7)
  = [b0; b1; b2; b3; b4; b5; b6; b7].
Proof.
  unfold is_byte. intros. unfold word_bytes.
  change (seqZ 0 8) with [0; 1; 2; 3; 4; 5; 6; 7]. cbn [fmap list_fmap].
  change 255 with (Z.ones 8).
  rewrite !Z.land_ones, !Z.shiftr_div_pow2 by lia.
  repeat f_equal; Z.div_mod_to_equations; lia.
Qed.

(** Bytes packed into words and read back. *)
Lemma pack_words_bytes (n : nat) :
  forall bytes, length bytes = (8 * n)%nat -> Forall is_byte bytes ->
  concat (word_bytes <$> pack_words bytes) = bytes /\ length (pack_words bytes) = n.
Proof.
  induction n as [| n IH]; intros bytes Hlen Hb.
  - destruct bytes; [done | simpl in Hlen; lia].
  - do 8 (destruct bytes as [| ? bytes]; [simpl in Hlen; lia |]).
    repeat match goal with H : Forall _ (_ :: _) |- _ => apply Forall_cons in H as [? H] end.
    destruct (IH bytes) as [E1 E2]; [cbn [length] in Hlen; lia | done |].
    cbn [pack_words fmap list_fmap concat length]. fold (fmap word_bytes (pack_words bytes)).
    rewrite word_bytes_pack by done. rewrite E1, E2. done.
Qed.

Lemma land1_cases x : Z.land x 1 = 0 \/ Z.land x 1 = 1.
Proof.
  change (Z.land x 1) with (Z.land x (Z.ones 1)). rewrite Z.land_ones by lia.
  change (2 ^ 1) with 2. pose proof (Z.mod_pos_bound x 2). lia.
Qed.

Ltac line_index_cases Hk :=
  destruct Hk as [-> | ->];
  [ change (line_word_index (1 - 0)) with 562%nat;
    change (line_word_index 0) with 512%nat
  | change (line_word_index (1 - 1)) with 512%nat;
    change (line_word_index 1) with 562%nat ].

Lemma store_line_length front k bytes :
  length front = CONV_COLOR_WORDS -> k = 0 \/ k = 1 ->
  length (pack_words bytes) = LINE_WORDS ->
  length (store_line front k bytes) = CONV_COLOR_WORDS.
Proof.
  unfold store_line, CONV_COLOR_WORDS, LINE_WORDS. intros Hf Hk Hp.
  rewrite !length_app, length_take, length_drop, Hp, Hf.
  line_index_cases Hk; lia.
Qed.

Lemma store_line_lut front k bytes :
  length front = CONV_COLOR_WORDS -> k = 0 \/ k = 1 ->
  take CONV_LUT_WORDS (store_line front k bytes) = take CONV_LUT_WORDS front.
Proof.
  unfold CONV_COLOR_WORDS, CONV_LUT_WORDS, store_line. intros Hf Hk.
  line_index_cases Hk.
  all: rewrite take_app_le by (rewrite length_take, Hf; lia).
  all: rewrite take_take; f_equal; lia.
Qed.

Lemma store_line_same front k bytes :
  length front = CONV_COLOR_WORDS -> k = 0 \/ k = 1 ->
  length bytes = Z.to_nat LINE_BYTES -> Forall is_byte bytes ->
  line_bytes (store_line front k bytes) k = bytes.
Proof.
  unfold CONV_COLOR_WORDS, LINE_BYTES. intros Hf Hk Hl Hb.
  destruct (pack_words_bytes 50 bytes) as [E1 E2]; [by rewrite Hl | done |].
  unfold line_bytes, store_line, LINE_WORDS.
  line_index_cases Hk.
  all: rewrite drop_app_length' by (rewrite length_take, Hf; lia).
  all: rewrite take_app_length' by done; exact E1.
Qed.

Lemma store_line_other front k bytes :
  length front = CONV_COLOR_WORDS -> k = 0 \/ k = 1 ->
  length (pack_words bytes) = LINE_WORDS ->
  line_bytes (store_line front k bytes) (1 - k) = line_bytes front (1 - k).
Proof.
  unfold line_bytes, store_line, CONV_COLOR_WORDS, LINE_WORDS. intros Hf Hk Hp.
  f_equal. f_equal.
  line_index_cases Hk.
  - rewrite app_assoc, drop_app_length'; [done |].
    rewrite length_app, length_take, Hp, Hf. done.
  - rewrite drop_app_le by (rewrite length_take, Hf; lia).
    rewrite take_app_length'.
    + by rewrite take_drop_commute.
    + rewrite length_drop, length_take, Hf. done.
Qed.

(** ** The bytes of a scanline *)

Lemma u8_byte z : is_byte (u8 z).
Proof. unfold is_byte, u8. apply Z.mod_pos_bound. lia. Qed.

Lemma remap_ctrl_pixel_byte c : is_byte c -> is_byte (remap_ctrl_pixel c).
Proof. unfold remap_ctrl_pixel, is_byte. destruct (is_ctrl_inx c); lia. Qed.

Lemma active_pixels_bytes fs line :
  length (active_pixels fs line) = 320%nat /\ Forall is_byte (active_pixels fs line).
Proof.
  assert (length blank_pixels = 320%nat /\ Forall is_byte blank_pixels) as Hblank.
  { unfold blank_pixels. rewrite length_replicate. split; [done |].
    apply Forall_replicate. unfold is_byte. lia. }
  unfold active_pixels.
  destruct (g_hdmi_loading_mode fs); [exact Hblank |].
  destruct (graphics_buffer fs) as [mem |]; [| exact Hblank].
  destruct (get_line_buffer fs _) as [input |]; [| exact Hblank].
  destruct (hdmi_graphics_mode fs).
  - unfold default_mode_pixels, SCREEN_WIDTH.
    destruct (_ || _) eqn:E; [exact Hblank |].
    rewrite !orb_false_iff in E. destruct E as [[_ E] _].
    split.
    + rewrite length_app, length_map, length_seqZ, length_replicate.
      destruct (Z.geb_spec (graphics_buffer_shift_x fs) 320); [done | lia].
    + apply Forall_app. split.
      * apply Forall_replicate. unfold is_byte. lia.
      * apply Forall_map, Forall_forall. intros x _. cbv beta.
        destruct (_ <? _); [apply remap_ctrl_pixel_byte, u8_byte | unfold is_byte; lia].
  - unfold other_mode_pixels, SCREEN_WIDTH. split.
    + by rewrite length_map, length_seqZ.
    + apply Forall_map, Forall_forall. intros x _. apply remap_ctrl_pixel_byte, u8_byte.
Qed.

Lemma memset_app3 (a b c : list Z) off v n :
  0 <= off -> 0 <= n -> length a = Z.to_nat off -> length b = Z.to_nat n ->
  memset (a ++ b ++ c) off v n = a ++ replicate (Z.to_nat n) (u8 v) ++ c.
Proof.
  intros Ho Hn Ha Hb. unfold memset.
  rewrite take_app_length' by done. f_equal. f_equal.
  rewrite app_assoc, drop_app_length'; [done |].
  rewrite length_app, Ha, Hb. lia.
Qed.

Lemma memset_app2 (b c : list Z) v n :
  0 <= n -> length b = Z.to_nat n ->
  memset (b ++ c) 0 v n = replicate (Z.to_nat n) (u8 v) ++ c.
Proof. intros Hn Hb. by apply (memset_app3 [] b c 0 v n). Qed.

Lemma store_bytes_app3 (a b c : list Z) off bytes :
  length a = Z.to_nat off -> length b = length bytes ->
  store_bytes (a ++ b ++ c) off bytes = a ++ bytes ++ c.
Proof.
  intros Ha Hb. unfold store_bytes.
  rewrite take_app_length' by done. f_equal. f_equal.
  rewrite app_assoc, drop_app_length'; [done |].
  rewrite length_app, Ha, Hb. lia.
Qed.

(** A 400-byte buffer cut at the offsets the handler writes at. *)
Lemma line_buffer_cut (buf : list Z) (n1 n2 n3 : nat) :
  buf = take n1 buf ++ take n2 (drop n1 buf) ++ take n3 (drop (n1 + n2) buf)
        ++ drop (n1 + n2 + n3) buf.
Proof.
  rewrite <- (take_drop n1 buf) at 1. f_equal.
  rewrite <- (take_drop n2 (drop n1 buf)) at 1. f_equal.
  rewrite drop_drop.
  rewrite <- (take_drop n3 (drop (n1 + n2) buf)) at 1. f_equal.
  by rewrite drop_drop.
Qed.

(** The scanline the handler builds does not depend on what the buffer
    held: sync codes around the pixels of a visible line, sync codes alone
    on the other lines. *)
Lemma build_scanline_layout fs line buf :
  length buf = 400%nat ->
  build_scanline fs line buf
  = if line <? h_width
    then replicate 48 241 ++ replicate 24 240 ++ active_pixels fs line ++ replicate 8 240
    else if (line >=? 490) && (line <? 492)
    then replicate 48 243 ++ replicate 352 242
    else replicate 48 241 ++ replicate 352 240.
Proof.
  intros Hlen. unfold build_scanline, BASE_HDMI_CTRL_INX.
  destruct (active_pixels_bytes fs line) as [Hpl _].
  destruct (line <? h_width).
  - rewrite (line_buffer_cut buf 72 320 8) at 1.
    rewrite (store_bytes_app3 (take 72 buf) (take 320 (drop 72 buf)) _ 72)
      by (rewrite ?length_take, ?length_drop, ?Hpl, Hlen; done).
    rewrite (line_buffer_cut (take 72 buf) 48 24 0) at 1.
    rewrite <- !app_assoc.
    rewrite (memset_app3 (take 48 (take 72 buf)) (take 24 (drop 48 (take 72 buf))) _ 48 240 24)
      by (rewrite ?length_take, ?length_drop, ?length_take, ?Hlen; done).
    rewrite (memset_app2 (take 48 (take 72 buf)) _ 241 48)
      by (rewrite ?length_take, ?length_drop, ?length_take, ?Hlen; done).
    change (Z.to_nat 48) with 48%nat. change (Z.to_nat 24) with 24%nat.
    change (u8 240) with 240. change (u8 241) with 241.
    assert (take 0 (drop (48 + 24) (take 72 buf)) = []) as -> by done.
    assert (drop (48 + 24 + 0) (take 72 buf) = []) as ->.
    { apply drop_ge. rewrite length_take, Hlen. lia. }
    cbn [app].
    assert (take 8 (drop (72 + 320) buf) ++ drop (72 + 320 + 8) buf
            = take 8 (drop 392 buf) ++ []) as ->.
    { f_equal. apply drop_ge. rewrite Hlen. lia. }
    rewrite (app_assoc (replicate 24 240) (active_pixels fs line)),
      (app_assoc (replicate 48 241)).
    rewrite (memset_app3 _ (take 8 (drop 392 buf)) [] 392 240 8);
      [by rewrite app_nil_r, <- !app_assoc | lia | lia | |].
    + rewrite !length_app, !length_replicate, Hpl. done.
    + rewrite length_take, length_drop, Hlen. done.
  - assert (forall v1 v2,
              memset (memset buf 48 v1 352) 0 v2 48
              = replicate 48 (u8 v2) ++ replicate 352 (u8 v1)) as Hblank.
    { intros v1 v2. rewrite (line_buffer_cut buf 48 352 0) at 1.
      rewrite (memset_app3 (take 48 buf) (take 352 (drop 48 buf)) _ 48 v1 352)
        by (rewrite ?length_take, ?length_drop, ?Hlen; done).
      rewrite (memset_app2 (take 48 buf) _ v2 48)
        by (rewrite ?length_take, ?Hlen; done).
      f_equal. 
      assert (take 0 (drop (48 + 352) buf) = []) as -> by done.
      assert (drop (48 + 352 + 0) buf = []) as ->.
      { apply drop_ge. rewrite Hlen. lia. }
      by rewrite !app_nil_r. }
    destruct (_ && _); apply Hblank.
Qed.


Lemma dma_handler_fields fs e st :
  let st' := dma_handler_HDMI fs e st in
  let sel := Z.land (u32 (inx_buf_dma st + 1)) 1 in
  line st' = next_line st /\
  dma_read_sel st' = Z.land (inx_buf_dma st) 1 /\
  (Z.land (next_line st) 1 = 0 ->
     drv st' = next_drv st /\ inx_buf_dma st' = inx_buf_dma st) /\
  (Z.land (next_line st) 1 <> 0 ->
     inx_buf_dma st' = u32 (inx_buf_dma st + 1) /\
     drv st'
     = set_front (next_drv st)
         (store_line (conv_color_front (next_drv st)) sel
            (build_scanline fs (next_line st)
               (line_bytes (conv_color_front (next_drv st)) sel)))).
Proof.
  unfold dma_handler_HDMI, next_line, next_drv.
  destruct (line st >=? h_total);
    match goal with |- context [Z.land ?l 1 =? 0] => destruct (Z.eqb_spec (Z.land l 1) 0) end;
    cbn [line dma_read_sel drv inx_buf_dma]; repeat split; try done.
Qed.

Lemma vsync_swap_buffers_wf s : hdmi_wf s -> hdmi_wf (vsync_swap_buffers s).
Proof.
  intros (Hp & Ho & Hf & Hb). unfold vsync_swap_buffers.
  destruct (conv_color_dirty s); [| done].
  unfold hdmi_wf, CONV_COLOR_WORDS, CONV_LUT_WORDS in *. cbn.
  rewrite length_app, length_take, length_drop, Hf, Hb. done.
Qed.

Lemma next_drv_wf st : hdmi_wf (drv st) -> hdmi_wf (next_drv st).
Proof.
  intros H. unfold next_drv. destruct (_ >=? _); [by apply vsync_swap_buffers_wf | done].
Qed.

Lemma line_bytes_length front k :
  length front = CONV_COLOR_WORDS -> k = 0 \/ k = 1 -> length (line_bytes front k) = 400%nat.
Proof.
  unfold CONV_COLOR_WORDS. intros Hf Hk. unfold line_bytes, LINE_WORDS.
  assert (length (take 50 (drop (line_word_index k) front)) = 50%nat) as Hl.
  { rewrite length_take, length_drop, Hf. line_index_cases Hk; lia. }
  revert Hl. generalize (take 50 (drop (line_word_index k) front)). intros l.
  assert (forall n, length l = n -> length (concat (word_bytes <$> l)) = (8 * n)%nat) as H.
  { induction l as [| w l IH]; intros n Hn; [simpl in *; lia |].
    cbn [fmap list_fmap concat]. fold (fmap word_bytes l).
    rewrite length_app. destruct n; [done |]. rewrite (IH n) by (simpl in Hn; lia).
    unfold word_bytes. rewrite length_fmap, length_seqZ. lia. }
  intros Hl. by rewrite (H 50%nat Hl).
Qed.

Lemma build_scanline_bytes fs l buf :
  length buf = 400%nat ->
  length (build_scanline fs l buf) = 400%nat /\ Forall is_byte (build_scanline fs l buf).
Proof.
  intros Hlen. rewrite build_scanline_layout by done.
  destruct (active_pixels_bytes fs l) as [Hpl Hpb].
  assert (forall n v, is_byte v -> Forall is_byte (replicate n v)) as Hr
    by (intros; by apply Forall_replicate).
  destruct (l <? h_width); [| destruct (_ && _)];
    rewrite ?length_app, ?length_replicate, ?Hpl; (split; [done |]);
    rewrite ?Forall_app; repeat split; try done; apply Hr; unfold is_byte; lia.
Qed.

Lemma land1_mod x : Z.land x 1 = x mod 2.
Proof. change 1 with (Z.ones 1). by rewrite Z.land_ones by lia. Qed.

Lemma parity_flips x : Z.land (u32 (x + 1)) 1 = 1 - Z.land x 1.
Proof.
  rewrite !land1_mod. unfold u32. change (2 ^ 32) with 4294967296.
  Z.div_mod_to_equations. lia.
Qed.

Lemma vsync_line_bytes s k :
  hdmi_wf s -> k = 0 \/ k = 1 ->
  line_bytes (conv_color_front (vsync_swap_buffers s)) k = line_bytes (conv_color_front s) k.
Proof.
  intros (Hp & Ho & Hf & Hb) Hk. unfold vsync_swap_buffers.
  destruct (conv_color_dirty s); [| done]. cbn [conv_color_front].
  unfold line_bytes, CONV_COLOR_WORDS, CONV_LUT_WORDS in *. f_equal. f_equal. f_equal.
  rewrite drop_app_ge by (rewrite length_take, Hb; line_index_cases Hk; lia).
  rewrite length_take, Hb, drop_drop. f_equal. line_index_cases Hk; lia.
Qed.

(** X: the scanline the handler builds.  When the line it has just counted
    is odd, the handler fills the scanline buffer selected by the low bit of
    [inx_buf_dma], whatever that buffer held: a visible line (below 480)
    carries 48 bytes of code 241, 24 bytes of code 240, the 320 pixels and 8
    bytes of code 240, and none of the pixels is a control code; line 491
    carries the vertical sync codes 243 and 242; every other line carries
    the codes 241 and 240 alone. *)
Theorem handler_scanline_layout (fs : frame_source) (e : bool) (st : irq_state) :
  hdmi_wf (drv st) ->
  let st' := dma_handler_HDMI fs e st in
  Z.land (line st') 1 = 1 ->
  line_bytes (conv_color_front (drv st')) (Z.land (inx_buf_dma st') 1)
  = (if line st' <? 480
     then replicate 48 241 ++ replicate 24 240 ++ active_pixels fs (line st')
          ++ replicate 8 240
     else if line st' =? 491 then replicate 48 243 ++ replicate 352 242
     else replicate 48 241 ++ replicate 352 240) /\
  Forall (fun b => ~ 240 <= b <= 243) (active_pixels fs (line st')) /\
  hdmi_wf (drv st').
Proof.
  intros Hwf st' Hodd. subst st'.
  destruct (dma_handler_fields fs e st) as (Hl & _ & _ & Hw).
  rewrite Hl in *. destruct Hw as [Hi Hd]; [lia |]. rewrite Hi, Hd.
  pose proof (next_drv_wf st Hwf) as (Hp & Ho & Hf & Hb).
  pose proof (land1_cases (u32 (inx_buf_dma st + 1))) as Hk.
  pose proof (line_bytes_length _ _ Hf Hk) as Hlen.
  destruct (build_scanline_bytes fs (next_line st) _ Hlen) as [Hbl Hbb].
  pose proof (build_scanline_layout fs (next_line st) _ Hlen) as Hlay.
  all: cbn [set_front conv_color_front].
  all: split; [| split].
  all: try (eapply Forall_impl; [apply active_pixels_safe |];
            intros b Hbs; by apply is_ctrl_inx_false).
  all: try (unfold hdmi_wf; cbn [set_front palette palette_original conv_color_front
                                  conv_color_back];
            repeat split; try done;
            apply store_line_length; auto;
            by destruct (pack_words_bytes 50 _ Hbl Hbb)).
  all: rewrite store_line_same by auto.
  all: rewrite Hlay; unfold h_width.
  all: destruct (next_line st <? 480); [done |].
  all: destruct (Z.eqb_spec (next_line st) 491) as [-> | Hne]; [done |].
  all: destruct (Z.geb_spec (next_line st) 490); [| done].
  all: destruct (Z.ltb_spec (next_line st) 492); [| done].
  all: assert (next_line st = 490) as E by lia; rewrite E in Hodd; done.
Qed.

(** X: the scanline buffer the handler hands to the DMA control channel is
    not the one it writes in the same call. *)
Theorem handler_keeps_dma_line (fs : frame_source) (e : bool) (st : irq_state) :
  hdmi_wf (drv st) ->
  let st' := dma_handler_HDMI fs e st in
  dma_read_sel st' = Z.land (inx_buf_dma st) 1 /\
  line_bytes (conv_color_front (drv st')) (dma_read_sel st')
  = line_bytes (conv_color_front (drv st)) (dma_read_sel st').
Proof.
  intros Hwf st'. subst st'.
  destruct (dma_handler_fields fs e st) as (Hl & Hr & He & Hw).
  split; [exact Hr |]. rewrite Hr.
  assert (line_bytes (conv_color_front (next_drv st)) (Z.land (inx_buf_dma st) 1)
          = line_bytes (conv_color_front (drv st)) (Z.land (inx_buf_dma st) 1)) as Hv.
  { unfold next_drv. destruct (_ >=? _); [| done].
    apply vsync_line_bytes; [done | apply land1_cases]. }
  destruct (Z.eq_dec (Z.land (next_line st) 1) 0) as [Hz | Hnz].
  - destruct (He Hz) as [-> _]. exact Hv.
  - destruct (Hw Hnz) as [_ ->]. cbn [set_front conv_color_front].
    rewrite <- Hv. rewrite parity_flips.
    pose proof (next_drv_wf st Hwf) as (Hp & Ho & Hf & Hb).
    pose proof (land1_cases (inx_buf_dma st)) as Hr01.
    generalize dependent (Z.land (inx_buf_dma st) 1). intros r _ _ Hr01.
    assert (1 - r = 0 \/ 1 - r = 1) as Hk by lia.
    pose proof (line_bytes_length _ _ Hf Hk) as Hlen.
    destruct (build_scanline_bytes fs (next_line st) _ Hlen) as [Hbl Hbb].
    destruct (pack_words_bytes 50 _ Hbl Hbb) as [_ Hpw].
    pose proof (store_line_other _ (1 - r) _ Hf Hk Hpw) as Hso.
    replace (1 - (1 - r)) with r in Hso by lia. exact Hso.
Qed.

(** ** A frame of interrupts *)

Variable cfg : board_config.



Lemma same_tables_refl s : same_tables s s.
Proof. by repeat split. Qed.

Lemma same_tables_trans s1 s2 s3 :
  same_tables s1 s2 -> same_tables s2 s3 -> same_tables s1 s3.
Proof.
  intros (A1 & A2 & A3 & A4 & A5 & A6 & A7 & A8) (B1 & B2 & B3 & B4 & B5 & B6 & B7 & B8).
  unfold same_tables. repeat split; congruence.
Qed.

(** The handler's own stores go to the scanline area only. *)
Lemma handler_tables fs e st :
  hdmi_wf (drv st) ->
  hdmi_wf (drv (dma_handler_HDMI fs e st)) /\
  same_tables (next_drv st) (drv (dma_handler_HDMI fs e st)).
Proof.
  intros Hwf. destruct (dma_handler_fields fs e st) as (Hl & _ & He & Hw).
  pose proof (next_drv_wf st Hwf) as Hwf'.
  destruct (Z.eq_dec (Z.land (next_line st) 1) 0) as [Hz | Hnz].
  - destruct (He Hz) as [-> _]. split; [done | apply same_tables_refl].
  - destruct (Hw Hnz) as [_ ->]. destruct Hwf' as (Hp & Ho & Hf & Hb).
    pose proof (land1_cases (u32 (inx_buf_dma st + 1))) as Hk.
    pose proof (line_bytes_length _ _ Hf Hk) as Hlen.
    destruct (build_scanline_bytes fs (next_line st) _ Hlen) as [Hbl Hbb].
    destruct (pack_words_bytes 50 _ Hbl Hbb) as [_ Hpw].
    split.
    + unfold hdmi_wf. cbn [set_front palette palette_original conv_color_front
                           conv_color_back].
      repeat split; try done. by apply store_line_length.
    + unfold same_tables. cbn [set_front palette palette_original conv_color_front
        conv_color_back g_hdmi_fade_level g_hdmi_fade_rows conv_color_dirty
        conv_color_swap_count].
      repeat split. by apply store_line_lut.
Qed.

Lemma irq_calls_cons i ins st :
  driver_run cfg (irq_calls (i :: ins)) st
  = driver_run cfg (irq_calls ins) (dma_handler_HDMI i.1 i.2 st).
Proof. reflexivity. Qed.

(** Interrupts that do not reach the end of the frame leave the tables
    alone. *)
Lemma irq_run_inside_frame ins :
  forall st, hdmi_wf (drv st) -> 0 <= line st ->
  ins = [] \/ line st + Z.of_nat (length ins) <= h_total ->
  let st' := driver_run cfg (irq_calls ins) st in
  line st' = line st + Z.of_nat (length ins) /\
  hdmi_wf (drv st') /\ same_tables (drv st) (drv st').
Proof.
  unfold h_total. induction ins as [| i ins IH]; intros st Hwf H0 Hn.
  - cbn. split; [lia |]. split; [done | apply same_tables_refl].
  - rewrite irq_calls_cons. destruct Hn as [Hn | Hn]; [done |]. cbn [length] in *.
    destruct (handler_tables i.1 i.2 st Hwf) as [Hwf1 Hs1].
    destruct (dma_handler_fields i.1 i.2 st) as (Hl & _).
    assert (next_line st = line st + 1 /\ next_drv st = drv st) as [El Ed].
    { unfold next_line, next_drv, h_total. destruct (Z.geb_spec (line st) 524); [lia |].
      rewrite u32_small by lia. done. }
    rewrite El in Hl. rewrite Ed in Hs1.
    destruct (IH (dma_handler_HDMI i.1 i.2 st) Hwf1) as (Hl2 & Hwf2 & Hs2);
      [lia | right; lia |].
    split; [lia |]. split; [done |]. by eapply same_tables_trans.
Qed.

(** X: in any 525 consecutive interrupts the handler publishes the palette
    exactly once: afterwards the dirty flag is clear, the lookup table of
    the front buffer is that of the back buffer if the flag was set (and is
    unchanged otherwise), the swap counter has advanced accordingly, and
    nothing else of the palette state has changed.  A handler that starts
    inside the frame is back on the line it started from. *)
Theorem palette_published_within_a_frame
    (ins : list (frame_source * bool)) (st : irq_state) :
  hdmi_wf (drv st) -> 0 <= line st -> length ins = 525%nat ->
  let st' := driver_run cfg (irq_calls ins) st in
  conv_color_dirty (drv st') = false /\
  take CONV_LUT_WORDS (conv_color_front (drv st'))
  = take CONV_LUT_WORDS
      (if conv_color_dirty (drv st) then conv_color_back (drv st)
       else conv_color_front (drv st)) /\
  conv_color_swap_count (drv st')
  = (if conv_color_dirty (drv st) then u32 (conv_color_swap_count (drv st) + 1)
     else conv_color_swap_count (drv st)) /\
  conv_color_back (drv st') = conv_color_back (drv st) /\
  palette (drv st') = palette (drv st) /\
  palette_original (drv st') = palette_original (drv st) /\
  (line st <= 524 -> line st' = line st).
Proof.
  intros Hwf H0 Hlen st'. subst st'.
  pose (n1 := Z.to_nat (Z.max 0 (524 - line st))).
  assert (Z.of_nat n1 = Z.max 0 (524 - line st)) as Hn1 by (subst n1; lia).
  clearbody n1.
  rewrite <- (take_drop n1 ins). unfold irq_calls, driver_run.
  rewrite fmap_app, fold_left_app.
  fold (irq_calls (take n1 ins)) (irq_calls (drop n1 ins)).
  fold (driver_run cfg (irq_calls (take n1 ins)) st).
  destruct (irq_run_inside_frame (take n1 ins) st Hwf H0) as (Hl1 & Hwf1 & Hs1).
  { destruct (take n1 ins) eqn:Et; [by left | right]. rewrite <- Et.
    apply (f_equal length) in Et. rewrite length_take, Hlen in Et. simpl in Et.
    rewrite length_take, Hlen. unfold h_total. lia. }
  rewrite length_take, Hlen in Hl1.
  set (st1 := driver_run cfg (irq_calls (take n1 ins)) st) in *.
  destruct (drop n1 ins) as [| i ins2] eqn:Ed.
  { apply (f_equal length) in Ed. rewrite length_drop, Hlen in Ed. simpl in Ed. lia. }
  assert (length ins2 = (524 - n1)%nat) as Hlen2.
  { apply (f_equal length) in Ed. rewrite length_drop, Hlen in Ed. simpl in Ed. lia. }
  fold (driver_run cfg (irq_calls (i :: ins2)) st1). rewrite irq_calls_cons.
  destruct (handler_tables i.1 i.2 st1 Hwf1) as [Hwf2 Hs2].
  destruct (dma_handler_fields i.1 i.2 st1) as (Hl2 & _).
  assert (next_line st1 = 0 /\ next_drv st1 = vsync_swap_buffers (drv st1)) as [El Edv].
  { unfold next_line, next_drv, h_total. destruct (Z.geb_spec (line st1) 524); [done | lia]. }
  rewrite El in Hl2. rewrite Edv in Hs2.
  set (st2 := dma_handler_HDMI i.1 i.2 st1) in *.
  destruct (irq_run_inside_frame ins2 st2 Hwf2) as (Hl3 & Hwf3 & Hs3);
    [lia | right; unfold h_total; lia |].
  set (st3 := driver_run cfg (irq_calls ins2) st2) in *.
  pose proof (same_tables_trans _ _ _ Hs2 Hs3) as (A1 & A2 & _ & _ & A5 & A6 & A7 & A8).
  destruct Hs1 as (B1 & B2 & _ & _ & B5 & B6 & B7 & B8).
  rewrite A1, A2, A5, A6, A7, A8. rewrite <- B7, <- B8, <- B6, <- B1, <- B2.
  destruct Hwf1 as (_ & _ & Hf1 & Hb1).
  unfold vsync_swap_buffers. destruct (conv_color_dirty (drv st1)) eqn:Hd.
  - cbn [conv_color_dirty conv_color_front conv_color_swap_count conv_color_back
         palette palette_original].
    repeat split; try done; [| lia].
    apply take_app_length'. rewrite length_take, Hb1. done.
  - rewrite Hd. repeat split; try done; lia.
Qed.



Lemma sync_entries_ext (b1 b2 : list Z) :
  (forall k : nat, (480 <= k <= 487)%nat -> b1 !! k = b2 !! k) ->
  sync_entries b1 = sync_entries b2.
Proof.
  intros H. unfold sync_entries. apply list_eq. intros i.
  rewrite !lookup_take. destruct (decide (i < 8)%nat); [| done].
  rewrite !lookup_drop. apply H. lia.
Qed.

Lemma sync_entries_lut (b1 b2 : list Z) :
  take CONV_LUT_WORDS b1 = take CONV_LUT_WORDS b2 -> sync_entries b1 = sync_entries b2.
Proof.
  unfold CONV_LUT_WORDS. intros H. apply sync_entries_ext. intros k Hk.
  rewrite <- (lookup_take_lt b1 512 k), <- (lookup_take_lt b2 512 k) by lia.
  by rewrite H.
Qed.

Lemma lookup_wr_at (a : list Z) i v (k : nat) :
  k = Z.to_nat i -> (k < length a)%nat -> wr a i v !! k = Some v.
Proof. intros -> H. by apply lookup_wr_eq. Qed.

Lemma write_sync_colors_lookup (buf : list Z) (k : nat) :
  length buf = CONV_COLOR_WORDS -> (480 <= k <= 487)%nat ->
  write_sync_colors cfg buf !! k
  = [ get_ser_diff_data cfg sync_b0 sync_b0 sync_b3;
      get_ser_diff_data cfg sync_b0 sync_b0 sync_b3;
      get_ser_diff_data cfg sync_b0 sync_b0 sync_b2;
      get_ser_diff_data cfg sync_b0 sync_b0 sync_b2;
      get_ser_diff_data cfg sync_b0 sync_b0 sync_b1;
      get_ser_diff_data cfg sync_b0 sync_b0 sync_b1;
      get_ser_diff_data cfg sync_b0 sync_b0 sync_b0;
      get_ser_diff_data cfg sync_b0 sync_b0 sync_b0 ] !! (k - 480)%nat.
Proof.
  unfold CONV_COLOR_WORDS. intros Hlen Hk.
  unfold write_sync_colors, BASE_HDMI_CTRL_INX.
  assert (k = 480 \/ k = 481 \/ k = 482 \/ k = 483 \/ k = 484 \/ k = 485 \/ k = 486
          \/ k = 487)%nat as Hc by lia.
  destruct Hc as [-> | [-> | [-> | [-> | [-> | [-> | [-> | ->]]]]]]];
    rewrite ?lookup_wr_ne by lia;
    (rewrite lookup_wr_at; [reflexivity | lia | rewrite ?wr_length, Hlen; lia]).
Qed.

Lemma write_sync_colors_sync (buf : list Z) :
  length buf = CONV_COLOR_WORDS ->
  sync_entries (write_sync_colors cfg buf) = sync_words cfg.
Proof.
  intros Hlen. unfold sync_words. apply sync_entries_ext. intros k Hk.
  rewrite !write_sync_colors_lookup; done.
Qed.

Lemma set_palette_sync s i c :
  0 <= i < 256 -> sync_ok cfg s -> sync_ok cfg (graphics_set_palette_hdmi cfg s i c).
Proof.
  intros Hi [Hf Hb]. unfold sync_ok. rewrite set_palette_front. split; [done |].
  rewrite <- Hb. apply sync_entries_ext. intros k Hk.
  destruct (is_ctrl_inx i) eqn:E.
  - by destruct (set_palette_reserved cfg s i c E) as [-> _].
  - apply is_ctrl_inx_false in E as E'. apply set_palette_back_other; [done | lia | lia].
Qed.

Lemma set_fade_level_sync s level rows :
  hdmi_wf s -> sync_ok cfg (graphics_set_fade_level cfg s level rows).
Proof.
  intros (Hp & Ho & Hf & Hb).
  destruct (set_fade_level_fields cfg s level rows) as (_ & _ & _ & _ & E5 & E6 & _).
  unfold sync_ok. rewrite E5, E6. split; apply write_sync_colors_sync; [done |].
  by destruct (fade_loop_length cfg level rows (palette_original s) (seqZ 0 256)
                 (palette s, conv_color_back s)) as [_ ->].
Qed.

Lemma restore_sync_colors_wf s :
  hdmi_wf s -> hdmi_wf (graphics_restore_sync_colors cfg s).
Proof.
  intros (Hp & Ho & Hf & Hb). unfold hdmi_wf, graphics_restore_sync_colors. cbn.
  by rewrite !write_sync_colors_length.
Qed.

Lemma restore_sync_colors_sync s :
  hdmi_wf s -> sync_ok cfg (graphics_restore_sync_colors cfg s).
Proof.
  intros (Hp & Ho & Hf & Hb). split; by apply write_sync_colors_sync.
Qed.

Lemma vsync_swap_buffers_sync s :
  hdmi_wf s -> sync_ok cfg s -> sync_ok cfg (vsync_swap_buffers s).
Proof.
  intros (Hp & Ho & Hf & Hb) [Sf Sb]. unfold vsync_swap_buffers.
  destruct (conv_color_dirty s); [| done]. split; [| done].
  cbn [conv_color_front]. rewrite <- Sb. apply sync_entries_lut.
  apply take_app_length'. rewrite length_take, Hb. done.
Qed.

Lemma handler_sync fs e st :
  hdmi_wf (drv st) -> sync_ok cfg (drv st) -> sync_ok cfg (drv (dma_handler_HDMI fs e st)).
Proof.
  intros Hwf Hs. destruct (handler_tables fs e st Hwf) as [_ (_ & _ & _ & _ & E5 & E6 & _)].
  assert (sync_ok cfg (next_drv st)) as [Sf Sb].
  { unfold next_drv. destruct (_ >=? _); [by apply vsync_swap_buffers_sync | done]. }
  split; [rewrite <- Sf; by apply sync_entries_lut | by rewrite E6].
Qed.



Lemma driver_step_sync st c :
  call_ok c -> hdmi_wf (drv st) -> sync_ok cfg (drv st) ->
  hdmi_wf (drv (driver_step cfg st c)) /\ sync_ok cfg (drv (driver_step cfg st c)).
Proof.
  intros Hc Hwf Hs. destruct c as [i c | level rows | | fs e]; cbn [driver_step with_drv drv].
  - split; [by apply set_palette_wf | by apply set_palette_sync].
  - split; [by apply set_fade_level_wf | by apply set_fade_level_sync].
  - split; [by apply restore_sync_colors_wf | by apply restore_sync_colors_sync].
  - split; [by apply handler_tables | by apply handler_sync].
Qed.

Lemma hdmi_init_palette_wf s : hdmi_wf s -> hdmi_wf (hdmi_init_palette cfg s).
Proof.
  unfold hdmi_init_palette. generalize (seqZ 0 256). intros l. revert s.
  induction l as [| ci l IH]; intros s Hwf; [done |].
  cbn [fold_left]. apply IH. destruct (is_ctrl_inx ci); [done | by apply set_palette_wf].
Qed.

Lemma hdmi_init_tables_fields s :
  let s1 := hdmi_init_palette cfg s in
  palette (hdmi_init_tables cfg s) = palette s1 /\
  palette_original (hdmi_init_tables cfg s) = palette_original s1 /\
  conv_color_front (hdmi_init_tables cfg s) = write_sync_colors cfg (conv_color_front s1) /\
  conv_color_back (hdmi_init_tables cfg s) = write_sync_colors cfg (conv_color_back s1).
Proof.
  unfold hdmi_init_tables. generalize (hdmi_init_palette cfg s). intros s1.
  repeat split.
Qed.

Lemma hdmi_init_tables_sync s :
  hdmi_wf s -> hdmi_wf (hdmi_init_tables cfg s) /\ sync_ok cfg (hdmi_init_tables cfg s).
Proof.
  intros Hwf. pose proof (hdmi_init_palette_wf s Hwf) as (Hp & Ho & Hf & Hb).
  destruct (hdmi_init_tables_fields s) as (E1 & E2 & E3 & E4).
  unfold hdmi_wf, sync_ok. rewrite E1, E2, E3, E4.
  rewrite !write_sync_colors_length, !write_sync_colors_sync by assumption.
  repeat split; assumption.
Qed.

Lemma driver_run_sync cs :
  Forall call_ok cs ->
  forall st, hdmi_wf (drv st) -> sync_ok cfg (drv st) ->
  hdmi_wf (drv (driver_run cfg cs st)) /\ sync_ok cfg (drv (driver_run cfg cs st)).
Proof.
  induction 1 as [| c cs Hc Hcs IH]; intros st Hw Hs; [by split |].
  destruct (driver_step_sync st c Hc Hw Hs) as [Hw1 Hs1].
  exact (IH _ Hw1 Hs1).
Qed.

(** X: from the table set-up of [hdmi_init] on, whatever palette writes, fade
    calls, sync restores and scanline interrupts follow, the four sync
    entries of both lookup tables hold the words
    [graphics_restore_sync_colors] writes. *)
Theorem sync_entries_always_valid (s : hdmi_state) (cs : list driver_call) :
  hdmi_wf s -> Forall call_ok cs ->
  let st := driver_run cfg cs (irq_boot (hdmi_init_tables cfg s)) in
  sync_entries (conv_color_front (drv st)) = sync_words cfg /\
  sync_entries (conv_color_back (drv st)) = sync_words cfg /\
  sync_words cfg
  = sync_entries (conv_color_back (graphics_restore_sync_colors cfg s)).
Proof.
  intros Hwf Hcs. destruct (hdmi_init_tables_sync s Hwf) as [Hw0 Hs0].
  revert Hw0 Hs0. generalize (hdmi_init_tables cfg s). intros s0 Hw0 Hs0.
  destruct (driver_run_sync cs Hcs (irq_boot s0) Hw0 Hs0) as [_ [Sf Sb]].
  split; [exact Sf |]. split; [exact Sb |].
  symmetry. exact (proj2 (restore_sync_colors_sync s Hwf)).
Qed.

End IrqFacts.

(** ** Examples *)

Lemma tmds_symbol_decodes_witness :
  let q := Hdmi.tmds_encoder 0xA5 in
  256 <= q < 768 /\
  Z.testbit q 9 = Hdmi.tmds_is_xnor 0xA5 /\
  Z.testbit q 8 = negb (Hdmi.tmds_is_xnor 0xA5) /\
  Z.testbit q 0 = Z.testbit 0xA5 0 /\
  (forall i, 1 <= i <= 7 ->
     Z.testbit 0xA5 i = xorb (xorb (Z.testbit q i) (Z.testbit q (i - 1))) (Z.testbit q 9)).
Proof. apply (tmds_symbol_decodes 0xA5). lia. Defined.

Lemma tmds_transition_minimised_witness :
  HdmiWire.bit_transitions 8 (Z.land (Hdmi.tmds_encoder 0x55) 255) <= 3 /\
  HdmiWire.bit_transitions 10 (Hdmi.tmds_encoder 0x55) <= 5.
Proof. apply (tmds_transition_minimised 0x55). lia. Defined.

Lemma tmds_encoder_injective_witness :
  Hdmi.tmds_encoder 3 <> Hdmi.tmds_encoder 200.
Proof. apply (tmds_encoder_injective 3 200); lia. Defined.

Lemma fade_never_brightens_witness :
  HdmiWire.colour_channel 8 (Hdmi.apply_fade_to_color 0xFF8040 30)
    <= HdmiWire.colour_channel 8 (Hdmi.apply_fade_to_color 0xFF8040 10)
    <= HdmiWire.colour_channel 8 0xFF8040 /\
  (48 <= 30 -> Hdmi.apply_fade_to_color 0xFF8040 30 = 0).
Proof. apply (fade_never_brightens 0xFF8040 10 30 8); lia. Defined.

Lemma ser_diff_word_layout_witness :
  let w := Hdmi.get_ser_diff_data Fixtures.example_board 0x2AA 0x155 0x3FF in
  Z.land (Z.shiftr w (HdmiWire.ser_group_pos 3 + 2 * 1)) 3
    = HdmiWire.ser_pair Fixtures.example_board
        (Z.testbit (HdmiWire.ser_lane_source Fixtures.example_board 0x2AA 0x155 0x3FF 1)
           (9 - 3)) /\
  Z.land (Z.shiftr w 30) 3 = 0 /\
  0 <= w < 2 ^ 62.
Proof. apply (ser_diff_word_layout Fixtures.example_board 0x2AA 0x155 0x3FF 3 1); lia. Defined.

Lemma handler_scanline_layout_witness :
  let fs := Samples.striped_screen in
  let st' := HdmiIrq.dma_handler_HDMI fs false (HdmiIrq.irq_boot Hdmi.hdmi_boot) in
  HdmiIrq.line st' = 1 /\
  HdmiIrq.line_bytes (Hdmi.conv_color_front (HdmiIrq.drv st'))
    (Z.land (HdmiIrq.inx_buf_dma st') 1)
  = replicate 48 241 ++ replicate 24 240 ++ Hdmi.active_pixels fs 1 ++ replicate 8 240.
Proof.
  intros fs st'.
  assert (HdmiIrq.line st' = 1) as Hl by (vm_compute; reflexivity).
  split; [exact Hl |].
  destruct (handler_scanline_layout fs false (HdmiIrq.irq_boot Hdmi.hdmi_boot)
              hdmi_boot_wf) as [H _].
  { fold st'. rewrite Hl. reflexivity. }
  fold st' in H. rewrite Hl in H. exact H.
Defined.

Lemma handler_keeps_dma_line_witness :
  let st := HdmiIrq.irq_boot Hdmi.hdmi_boot in
  let st' := HdmiIrq.dma_handler_HDMI Samples.striped_screen false st in
  HdmiIrq.dma_read_sel st' = Z.land (HdmiIrq.inx_buf_dma st) 1 /\
  HdmiIrq.line_bytes (Hdmi.conv_color_front (HdmiIrq.drv st')) (HdmiIrq.dma_read_sel st')
  = HdmiIrq.line_bytes (Hdmi.conv_color_front (HdmiIrq.drv st)) (HdmiIrq.dma_read_sel st').
Proof.
  exact (handler_keeps_dma_line Samples.striped_screen false
           (HdmiIrq.irq_boot Hdmi.hdmi_boot) hdmi_boot_wf).
Defined.

Lemma palette_published_within_a_frame_witness :
  let b := Fixtures.example_board in
  let s := Hdmi.graphics_set_palette_hdmi b Hdmi.hdmi_boot 5 0xFF0000 in
  let st' := HdmiIrq.driver_run b
               (HdmiIrq.irq_calls (replicate 525 (Samples.striped_screen, false)))
               (HdmiIrq.irq_boot s) in
  Hdmi.conv_color_dirty (HdmiIrq.drv st') = false /\
  take Hdmi.CONV_LUT_WORDS (Hdmi.conv_color_front (HdmiIrq.drv st'))
  = take Hdmi.CONV_LUT_WORDS (Hdmi.conv_color_back s).
Proof.
  intros b s st'.
  assert (Hdmi.conv_color_dirty s = true) as Hd by reflexivity.
  destruct (palette_published_within_a_frame b
              (replicate 525 (Samples.striped_screen, false)) (HdmiIrq.irq_boot s)
              (set_palette_wf b _ 5 0xFF0000 hdmi_boot_wf) ltac:(simpl; lia)
              (length_replicate _ _)) as (H1 & H2 & _).
  split; [exact H1 |].
  cbn [HdmiIrq.irq_boot HdmiIrq.drv] in H2. rewrite Hd in H2. exact H2.
Defined.

Lemma sync_entries_always_valid_witness :
  let b := Fixtures.example_board in
  let cs := [HdmiIrq.Call_set_palette 5 0xFF0000;
             HdmiIrq.Call_irq Samples.striped_screen false;
             HdmiIrq.Call_set_fade_level 20 0;
             HdmiIrq.Call_restore_sync_colors;
             HdmiIrq.Call_irq Samples.striped_screen true] in
  let st := HdmiIrq.driver_run b cs (HdmiIrq.irq_boot (HdmiIrq.hdmi_init_tables b Hdmi.hdmi_boot)) in
  HdmiIrq.sync_entries (Hdmi.conv_color_front (HdmiIrq.drv st)) = HdmiIrq.sync_words b /\
  HdmiIrq.sync_entries (Hdmi.conv_color_back (HdmiIrq.drv st)) = HdmiIrq.sync_words b.
Proof.
  intros b cs st.
  destruct (sync_entries_always_valid b Hdmi.hdmi_boot cs hdmi_boot_wf) as (H1 & H2 & _).
  { repeat constructor; simpl; lia. }
  split; [exact H1 | exact H2].
Defined.
(** * Properties of streams in use *)

(** ** The pump-based variant *)

Section PumpSessionFacts.
Import SdPump PumpSession.

Ltac pump_unfold :=
  unfold accounted, stream_inv, stream_wf, consumed_of, valid_of,
    SD_ASYNC_STREAM_BUFFER_BYTES, SD_ASYNC_STREAM_BUFFER_SAMPLES,
    SD_ASYNC_PUMP_CHUNK_SIZE in *.

Ltac sel_norm :=
  change (1 - 0 =? 0) with false in *; change (1 - 1 =? 0) with true in *;
  change (1 - 0 =? 1) with true in *; change (1 - 1 =? 1) with false in *;
  change (0 =? 0) with true in *; change (1 =? 0) with false in *.

Ltac pump_fields :=
  repeat match goal with
  | |- _ /\ _ => split
  | |- _ -> _ => intros ?
  end;
  try done; try lia;
  repeat match goal with
  | H : _ \/ _ |- _ => destruct H
  end;
  try done; try lia; try congruence; auto.

Lemma accounted_inv L s : accounted L s -> stream_inv s.
Proof. by intros [H _]. Qed.

Lemma pump_exhausted_accounted L s :
  accounted L s ->
  state s = STREAM_STATE_FILLING_A \/ state s = STREAM_STATE_FILLING_B ->
  accounted L (pump_exhausted s).
Proof.
  intros H Hst. pose proof (pump_exhausted_inv s (accounted_inv _ _ H)) as Hinv.
  destruct H as ([(Ha & Hav & Hb & Hbv & Hact) Hfo] & HL & Hsz & Hp & Hacc & Hc & HA & HB & HR).
  split; [exact Hinv |]. clear Hinv.
  unfold pump_exhausted, consumed_of in *.
  destruct Hst as [E | E]; rewrite E in *; cbn.
  - specialize (HA eq_refl).
    destruct (buffer_b_valid s >? 0); cbn; destruct (1 - active_buffer s =? 0);
      pump_fields.
  - specialize (HB eq_refl).
    destruct (buffer_a_valid s >? 0); cbn; destruct (1 - active_buffer s =? 0);
      pump_fields.
Qed.

Lemma pump_buffer_done_accounted L s :
  accounted L s ->
  state s = STREAM_STATE_FILLING_A \/ state s = STREAM_STATE_FILLING_B ->
  accounted L (pump_buffer_done s).
Proof.
  intros H Hst. pose proof (pump_buffer_done_inv s (accounted_inv _ _ H)) as Hinv.
  destruct H as ([(Ha & Hav & Hb & Hbv & Hact) Hfo] & HL & Hsz & Hp & Hacc & Hc & HA & HB & HR).
  split; [exact Hinv |]. clear Hinv.
  unfold pump_buffer_done, consumed_of in *.
  destruct Hst as [E | E]; rewrite E in *; cbn.
  - specialize (HA eq_refl).
    destruct (Z.eqb_spec (buffer_b_valid s) 0); cbn;
      [destruct (file_pos s <? file_size s); cbn |];
      destruct (1 - active_buffer s =? 0); pump_fields.
  - specialize (HB eq_refl).
    destruct (1 - active_buffer s =? 0); pump_fields.
Qed.

Lemma pump_chunk_accounted L s br :
  accounted L s ->
  state s = STREAM_STATE_FILLING_A \/ state s = STREAM_STATE_FILLING_B ->
  file_pos s < file_size s -> 0 <= br <= pump_to_read s ->
  accounted L (set_file_pos (set_fill_offset s (fill_offset s + br)) (file_pos s + br)).
Proof.
  intros ([Hwf Hfo] & HL & Hsz & Hp & Hacc & Hc & HA & HB & HR) Hst Hlt Hbr.
  pose proof Hwf as (Ha & Hav & Hb & Hbv & Hact).
  pose proof (pump_to_read_bounds s Hfo) as Hn.
  assert (pump_to_read s <= file_size s - file_pos s) as Hn2.
  { unfold pump_to_read. rewrite (u32_small (file_size s - file_pos s)) by lia.
    repeat match goal with |- context [?a >? ?b] => destruct (Z.gtb_spec a b) end; lia. }
  unfold accounted, stream_inv, stream_wf, consumed_of in *. cbn.
  pump_fields.
Qed.

Lemma pump_stream_accounted dev L s :
  device_ok dev -> accounted L s -> accounted L (pump_stream dev s).2.
Proof.
  intros Hdev H. unfold pump_stream.
  destruct (state s) eqn:Est; try exact H.
  all: destruct (Z.geb_spec (file_pos s) (file_size s)) as [Hge | Hlt];
         [apply pump_exhausted_accounted; [exact H | rewrite Est; auto] |].
  all: pose proof (pump_stream_inv dev s Hdev (accounted_inv _ _ H)) as Hinv.
  all: unfold pump_stream in Hinv; rewrite Est in Hinv.
  all: destruct (Z.geb_spec (file_pos s) (file_size s)) as [? | _]; [lia |].
  all: pose proof H as H0.
  all: destruct H as ([Hwf Hfo] & HL & Hsz & Hp & Hacc & Hc & HA & HB & HR).
  all: pose proof Hwf as (Ha & Hav & Hb & Hbv & Hact).
  all: pose proof (pump_to_read_bounds s Hfo) as Hn.
  all: assert (pump_to_read s <= file_size s - file_pos s) as Hn2
         by (unfold pump_to_read; rewrite (u32_small (file_size s - file_pos s)) by lia;
             repeat match goal with |- context [?a >? ?b] => destruct (Z.gtb_spec a b) end;
             lia).
  all: pose proof (proj1 Hdev (file s) (file_pos s) (pump_to_read s) ltac:(lia)) as Hbr.
  all: destruct (f_read dev (file s) (file_pos s) (pump_to_read s)) as [[] br];
         cbn [snd] in Hbr.
  all: try (cbn [snd]; split; [exact (conj Hwf Hfo) |];
            cbn; rewrite ?Est; pump_fields).
  all: unfold SD_ASYNC_STREAM_BUFFER_BYTES, SD_ASYNC_STREAM_BUFFER_SAMPLES in *.
  all: cbv zeta in *; cbn [file_pos set_fill_offset] in *.
  all: rewrite s32_small in * by lia.
  all: rewrite (u32_small (file_pos s + br)) in * by lia.
  all: assert (accounted L (set_file_pos (set_fill_offset s (fill_offset s + br))
                                         (file_pos s + br))) as Hmid
         by (apply pump_chunk_accounted;
             [exact H0 | rewrite Est; auto | lia | lia]).
  all: match goal with |- context [if ?b then _ else _] => destruct b end;
         cbn [snd]; [| exact Hmid].
  all: apply pump_buffer_done_accounted; [exact Hmid | cbn; rewrite Est; auto].
Qed.

Lemma start_fill_accounted L s st :
  accounted L s -> state s = STREAM_STATE_READY ->
  (st = STREAM_STATE_FILLING_A /\ buffer_a_valid s = 0) \/
  (st = STREAM_STATE_FILLING_B /\ buffer_b_valid s = 0) ->
  accounted L (set_fill_offset (set_state s st) 0).
Proof.
  intros ([Hwf Hfo] & HL & Hsz & Hp & Hacc & Hc & HA & HB & HR) Est Hst.
  pose proof Hwf as (Ha & Hav & Hb & Hbv & Hact).
  assert (fill_offset s = 0) as Hf0 by (apply HR; auto).
  unfold accounted, stream_inv, stream_wf, consumed_of,
    SD_ASYNC_STREAM_BUFFER_BYTES, SD_ASYNC_STREAM_BUFFER_SAMPLES in *. cbn.
  destruct Hst as [[-> ?] | [-> ?]]; pump_fields.
Qed.

Lemma pump_slot_accounted dev L s :
  device_ok dev -> accounted L s -> accounted L (pump_slot dev s).2.
Proof.
  intros Hdev H. unfold pump_slot. apply pump_stream_accounted; [exact Hdev |].
  destruct (state s) eqn:Est; try exact H.
  match goal with |- context [if ?b then _ else _] => destruct b eqn:E1 end.
  { apply andb_true_iff in E1 as [E1 _]. apply andb_true_iff in E1 as [_ E1].
    apply Z.eqb_eq in E1. apply start_fill_accounted; auto. }
  match goal with |- context [if ?b then _ else _] => destruct b eqn:E2 end;
    [| exact H].
  apply andb_true_iff in E2 as [E2 _]. apply andb_true_iff in E2 as [_ E2].
  apply Z.eqb_eq in E2. apply start_fill_accounted; auto.
Qed.

Lemma pump_read_accounted L s dest n :
  accounted L s -> 0 <= n < 2 ^ 32 ->
  let r := sd_async_stream_read s dest n in
  accounted (if 0 <? r.1 then L + r.1 else L) r.2.
Proof.
  intros H Hn r. subst r.
  pose proof (pump_read_inv s dest n (accounted_inv _ _ H) Hn) as Hinv.
  destruct H as ([Hwf Hfo] & HL & Hsz & Hp & Hacc & Hc & HA & HB & HR).
  pose proof Hwf as (Ha & Hav & Hb & Hbv & Hact).
  split; [exact Hinv |]. clear Hinv.
  destruct (decide (state s = STREAM_STATE_ERROR \/ state s = STREAM_STATE_CLOSED))
    as [Hdead | Hlive].
  { rewrite (pump_read_dead s dest n Hdead). cbn. pump_fields. }
  assert (state s <> STREAM_STATE_ERROR /\ state s <> STREAM_STATE_CLOSED)
    as [Hne Hnc] by tauto.
  pose proof (pump_available_bounds s Hwf) as [Hav1 Hav2].
  destruct (Z.lt_ge_cases 0 (sd_async_stream_available s)) as [Hpos | Hzero].
  - destruct (pump_read_active s dest n Hwf Hn Hne Hnc Hpos) as [-> _].
    cbn [fst snd].
    unfold sd_async_stream_available, set_consumed_of, consumed_of in *.
    destruct Hact as [E | E]; cbn; repeat (progress (rewrite ?E in *; sel_norm; cbn in * )).
    all: destruct (Z.ltb_spec 0 (Z.min n (buffer_a_valid s - buffer_a_consumed s)));
      destruct (Z.ltb_spec 0 (Z.min n (buffer_b_valid s - buffer_b_consumed s)));
      pump_fields.
  - destruct (Z.lt_ge_cases 0 (valid_of s (1 - active_buffer s))) as [Hov | Hov].
    + destruct (pump_read_swap s dest n Hwf Hne Hnc Hzero Hov) as (Hst & -> & _).
      assert (other_available s = valid_of s (1 - active_buffer s)) as Hoa
        by (unfold other_available; rewrite Hc; lia).
      rewrite pump_read_copy by lia. cbn [fst snd].
      unfold other_available, sd_async_stream_available, set_consumed_of, set_valid_of,
        set_active_buffer, consumed_of, valid_of in *.
      destruct Hact as [E | E]; cbn; repeat (progress (rewrite ?E in *; sel_norm; cbn in * )).
      all: match goal with |- context [0 <? ?m] => destruct (Z.ltb_spec 0 m) end;
        pump_fields.
    + rewrite (pump_read_starved s dest n Hne Hnc Hzero Hov).
      destruct (decide _); cbn; pump_fields.
Qed.

Lemma pump_seek_accounted dev L s position :
  accounted L s -> 0 <= position < 2 ^ 32 ->
  let r := sd_async_stream_seek dev s position in
  accounted (if r.1 =? 0 then position else L) r.2.
Proof.
  intros H Hpos r. subst r.
  pose proof (pump_seek_inv dev s position (accounted_inv _ _ H)) as Hinv.
  destruct H as ([Hwf Hfo] & HL & Hsz & Hp & Hacc & Hc & HA & HB & HR).
  split; [exact Hinv |]. clear Hinv.
  unfold sd_async_stream_seek, consumed_of in *.
  destruct (file s =? 0); [cbn; pump_fields |].
  destruct (f_lseek dev (file s) position); [| cbn; pump_fields].
  destruct (position <? _); cbn; pump_fields.
Qed.

Lemma open_fill_b_accounted dev fuel L :
  device_ok dev -> forall s, accounted L s -> accounted L (open_fill_b dev fuel s).
Proof.
  intros Hdev. induction fuel as [| fuel IH]; intros s H; [exact H |].
  simpl. destruct (state s); try exact H.
  pose proof (pump_stream_accounted dev L s Hdev H) as Hp.
  destruct (pump_stream dev s) as [w s']. simpl in Hp.
  destruct w; [by apply IH | exact Hp].
Qed.

Lemma open_fill_accounted dev fuel L :
  device_ok dev -> forall s, accounted L s -> accounted L (open_fill dev fuel s).
Proof.
  intros Hdev. induction fuel as [| fuel IH]; intros s H; [exact H |].
  simpl. destruct (state s); try exact H.
  all: pose proof (pump_stream_accounted dev L s Hdev H) as Hp.
  all: destruct (pump_stream dev s) as [w s']; simpl in Hp.
  all: destruct w; simpl; [| exact Hp].
  all: destruct (state s'); try (by apply IH); by apply open_fill_b_accounted.
Qed.

Lemma pump_open_accounted dev fuel s path mem_a mem_b s' :
  device_ok dev ->
  (sd_async_stream_open dev fuel s path mem_a mem_b).1 = Some s' ->
  accounted 0 s'.
Proof.
  intros Hdev. unfold sd_async_stream_open.
  repeat match goal with |- context [if ?b then _ else _] => destruct b end;
    try done.
  simpl. intros [= <-]. apply open_fill_accounted; [exact Hdev |].
  pose proof (proj2 Hdev (pop_fs_open dev path)).
  unfold accounted, stream_inv, stream_wf, consumed_of, SD_ASYNC_STREAM_BUFFER_BYTES,
    SD_ASYNC_STREAM_BUFFER_SAMPLES.
  simpl. destruct (1 - 0 =? 0); pump_fields.
Qed.

Lemma session_run_accounted dev cs :
  device_ok dev -> Forall call_ok cs ->
  forall u, accounted (user_pos u) (handle u) ->
  accounted (user_pos (session_run dev cs u)) (handle (session_run dev cs u)).
Proof.
  intros Hdev. induction 1 as [| c cs Hc Hcs IH]; intros u Hu; [exact Hu |].
  apply IH. destruct c as [dest n | | position]; cbn.
  - by apply pump_read_accounted.
  - by apply pump_slot_accounted.
  - by apply pump_seek_accounted.
Qed.

Lemma accounted_tell L s :
  accounted L s -> sd_async_stream_tell s = L + fill_offset s.
Proof.
  intros ([Hwf Hfo] & HL & Hsz & Hp & Hacc & Hc & HA & HB & HR).
  pose proof Hwf as (Ha & Hav & Hb & Hbv & Hact).
  unfold sd_async_stream_tell, consumed_of, SD_ASYNC_STREAM_BUFFER_BYTES,
    SD_ASYNC_STREAM_BUFFER_SAMPLES in *.
  destruct Hact as [E | E]; rewrite E in *; sel_norm; cbn in *.
  - rewrite (u32_small (buffer_a_valid s - buffer_a_consumed s + buffer_b_valid s)) by lia.
    destruct (Z.gtb_spec (file_pos s)
                (buffer_a_valid s - buffer_a_consumed s + buffer_b_valid s));
      [rewrite u32_small by lia |]; lia.
  - rewrite (u32_small (buffer_b_valid s - buffer_b_consumed s + buffer_a_valid s)) by lia.
    destruct (Z.gtb_spec (file_pos s)
                (buffer_b_valid s - buffer_b_consumed s + buffer_a_valid s));
      [rewrite u32_small by lia |]; lia.
Qed.

(** XID: the position reported by [sd_async_stream_tell].  On a handle
    returned by [sd_async_stream_open], after any run of reads, pump turns
    and seeks, [sd_async_stream_tell] is the place its user has reached in
    the file (the last successful seek plus the bytes read since) plus the
    bytes of the fill in progress: it is exact when the stream is READY or
    at EOF, and ahead by [fill_offset] while a buffer is being filled. *)
Theorem pump_tell_counts_delivered (dev : sd_device) (fuel : nat)
    (slot0 : sd_async_stream) (path : list Byte.byte) (mem_a mem_b : Z)
    (s0 : sd_async_stream) (cs : list stream_call) :
  device_ok dev ->
  (sd_async_stream_open dev fuel slot0 path mem_a mem_b).1 = Some s0 ->
  Forall call_ok cs ->
  let u := session_run dev cs {| handle := s0; user_pos := 0 |} in
  sd_async_stream_tell (handle u) = user_pos u + fill_offset (handle u) /\
  0 <= fill_offset (handle u) <= SD_ASYNC_STREAM_BUFFER_BYTES /\
  (state (handle u) = STREAM_STATE_READY \/ state (handle u) = STREAM_STATE_EOF ->
   sd_async_stream_tell (handle u) = user_pos u).
Proof.
  intros Hdev Hopen Hcs u.
  assert (accounted (user_pos u) (handle u)) as H.
  { apply session_run_accounted; [exact Hdev | exact Hcs |].
    exact (pump_open_accounted dev fuel slot0 path mem_a mem_b s0 Hdev Hopen). }
  pose proof (accounted_tell _ _ H) as Ht.
  destruct H as ([Hwf Hfo] & HL & Hsz & Hp & Hacc & Hc & HA & HB & HR).
  split; [exact Ht |]. split; [exact Hfo |].
  intros Hst. rewrite Ht, HR; [lia | tauto].
Qed.


(** *** A stream over a non-empty file never reaches the end-of-file state *)

Lemma pump_stream_live dev s : live s -> live (pump_stream dev s).2.
Proof.
  intros H. unfold pump_stream.
  destruct (state s) eqn:Est; try exact H.
  all: destruct H as (He & Hc & Hf).
  all: destruct (Z.geb_spec (file_pos s) (file_size s)) as [Hge | Hlt];
         [specialize (Hf ltac:(auto)); lia |].
  all: destruct (f_read dev (file s) (file_pos s) (pump_to_read s)) as [[] br];
         cbn [snd]; [| by unfold live; cbn].
  all: cbv zeta; cbn [file_pos set_fill_offset set_file_pos fill_offset file_size].
  all: destruct (_ >=? SD_ASYNC_STREAM_BUFFER_BYTES); cbn [orb snd].
  all: try (unfold pump_buffer_done, live; cbn; rewrite Est; cbn;
            try destruct (buffer_b_valid s =? 0); cbn;
            try destruct (Z.ltb_spec (u32 (file_pos s + br)) (file_size s)); cbn;
            repeat split; try done; intros [? | ?]; try done; lia).
  all: destruct (Z.geb_spec (u32 (file_pos s + br)) (file_size s)); cbn [snd].
  all: try (unfold pump_buffer_done, live; cbn; rewrite Est; cbn;
            try destruct (buffer_b_valid s =? 0); cbn;
            try destruct (Z.ltb_spec (u32 (file_pos s + br)) (file_size s)); cbn;
            repeat split; try done; intros [? | ?]; try done; lia).
  all: unfold live; cbn; rewrite Est; repeat split; try done; intros _; lia.
Qed.

Lemma pump_slot_live dev s : live s -> live (pump_slot dev s).2.
Proof.
  intros H. unfold pump_slot. apply pump_stream_live.
  destruct (state s) eqn:Est; try exact H.
  destruct H as (He & Hc & Hf).
  repeat match goal with
  | |- context [if ?b then _ else _] => destruct b eqn:?
  end; try (by repeat split; rewrite ?Est).
  all: unfold live; cbn; repeat split; try done; intros _.
  all: match goal with
       | E : _ && (file_pos _ <? file_size _) = true |- _ =>
           apply andb_true_iff in E as [_ E]; apply Z.ltb_lt in E; exact E
       end.
Qed.

Lemma pump_read_keeps s dest n :
  let s' := (sd_async_stream_read s dest n).2 in
  state s' = state s /\ file_pos s' = file_pos s /\ file_size s' = file_size s /\
  file s' = file s.
Proof.
  unfold sd_async_stream_read, read_copy, set_consumed_of, set_valid_of.
  destruct (state s) eqn:Est; cbn; rewrite ?Est; try done.
  all: repeat match goal with |- context [if ?b then _ else _] => destruct b end;
         cbn; rewrite ?Est; done.
Qed.

Lemma pump_read_live s dest n : live s -> live (sd_async_stream_read s dest n).2.
Proof.
  intros H. destruct (pump_read_keeps s dest n) as (E1 & E2 & E3 & _).
  unfold live. by rewrite E1, E2, E3.
Qed.

Lemma pump_seek_live dev s position :
  live s -> position < file_size s -> live (sd_async_stream_seek dev s position).2.
Proof.
  intros H Hpos. unfold sd_async_stream_seek.
  destruct (file s =? 0); [exact H |].
  destruct (f_lseek dev (file s) position).
  - cbn [file_size set_file_pos set_buffer_a_valid set_buffer_b_valid
         set_buffer_a_consumed set_buffer_b_consumed set_active_buffer set_fill_offset].
    destruct (Z.ltb_spec position (file_size s)); [| lia].
    unfold live; cbn. repeat split; done.
  - unfold live; cbn. repeat split; try done. by intros [? | ?].
Qed.

Lemma pump_seek_size dev s position :
  file_size (sd_async_stream_seek dev s position).2 = file_size s.
Proof.
  unfold sd_async_stream_seek.
  destruct (file s =? 0); [done |].
  destruct (f_lseek dev (file s) position); [| done].
  by destruct (position <? _).
Qed.

Lemma pump_stream_size dev s : file_size (pump_stream dev s).2 = file_size s.
Proof.
  unfold pump_stream, pump_exhausted, pump_buffer_done.
  destruct (state s) eqn:Est; try done.
  all: destruct (_ >=? _); cbn; [done |].
  all: destruct (f_read dev (file s) (file_pos s) (pump_to_read s)) as [[] br]; [| done].
  all: cbv zeta; destruct (_ || _); cbn; rewrite ?Est; try done.
  all: try (by destruct (_ && _)).
Qed.

Lemma pump_slot_size dev s : file_size (pump_slot dev s).2 = file_size s.
Proof.
  unfold pump_slot. rewrite pump_stream_size.
  destruct (state s); try done.
  repeat match goal with |- context [if ?b then _ else _] => destruct b end; done.
Qed.

Lemma open_fill_b_live dev fuel : forall s, live s -> live (open_fill_b dev fuel s).
Proof.
  induction fuel as [| fuel IH]; intros s H; [exact H |].
  simpl. destruct (state s); try exact H.
  pose proof (pump_stream_live dev s H) as Hp.
  destruct (pump_stream dev s) as [w s']. simpl in Hp.
  destruct w; [by apply IH | exact Hp].
Qed.

Lemma open_fill_live dev fuel : forall s, live s -> live (open_fill dev fuel s).
Proof.
  induction fuel as [| fuel IH]; intros s H; [exact H |].
  simpl. destruct (state s); try exact H.
  all: pose proof (pump_stream_live dev s H) as Hp.
  all: destruct (pump_stream dev s) as [w s']; simpl in Hp.
  all: destruct w; simpl; [| exact Hp].
  all: destruct (state s'); try (by apply IH); by apply open_fill_b_live.
Qed.

Lemma open_fill_b_size dev fuel : forall s, file_size (open_fill_b dev fuel s) = file_size s.
Proof.
  induction fuel as [| fuel IH]; intros s; [done |].
  simpl. destruct (state s); try done.
  pose proof (pump_stream_size dev s) as Hp.
  destruct (pump_stream dev s) as [w s']. simpl in Hp.
  destruct w; [by rewrite IH | done].
Qed.

Lemma open_fill_size dev fuel : forall s, file_size (open_fill dev fuel s) = file_size s.
Proof.
  induction fuel as [| fuel IH]; intros s; [done |].
  simpl. destruct (state s); try done.
  all: pose proof (pump_stream_size dev s) as Hp.
  all: destruct (pump_stream dev s) as [w s']; simpl in Hp.
  all: destruct w; simpl; [| done].
  all: destruct (state s'); rewrite ?IH, ?open_fill_b_size; done.
Qed.

Lemma pump_open_live dev fuel s path mem_a mem_b s' :
  0 < f_size dev (pop_fs_open dev path) ->
  (sd_async_stream_open dev fuel s path mem_a mem_b).1 = Some s' ->
  live s' /\ file_size s' = f_size dev (pop_fs_open dev path).
Proof.
  intros Hsz. unfold sd_async_stream_open.
  repeat match goal with |- context [if ?b then _ else _] => destruct b end;
    try done.
  simpl. intros [= <-]. rewrite open_fill_size. split; [| done].
  apply open_fill_live. unfold live. cbn. repeat split; done.
Qed.

Lemma session_run_live dev size cs :
  Forall (seek_inside size) cs ->
  forall u, live (handle u) -> file_size (handle u) = size ->
  live (handle (session_run dev cs u)).
Proof.
  induction 1 as [| c cs Hc Hcs IH]; intros u Hu Hsz; [exact Hu |].
  apply IH; destruct c as [dest n | | position]; cbn.
  - by apply pump_read_live.
  - by apply pump_slot_live.
  - apply pump_seek_live; [done |]. cbn in Hc. lia.
  - by destruct (pump_read_keeps (handle u) dest n) as (_ & _ & -> & _).
  - by rewrite pump_slot_size.
  - by rewrite pump_seek_size.
Qed.

(** XID: a stream over a non-empty file never reports the end of the file.
    On a handle returned by [sd_async_stream_open] for a file that is not
    empty, after any run of reads, pump turns and seeks to positions inside
    the file, the stream is not in the EOF state: [sd_async_stream_eof] is
    false, also when every byte of the file has been read, and a read
    returns -1 only when the stream is in the ERROR state. *)
Theorem pump_stream_never_ends (dev : sd_device) (fuel : nat)
    (slot0 : sd_async_stream) (path : list Byte.byte) (mem_a mem_b : Z)
    (s0 : sd_async_stream) (cs : list stream_call) :
  device_ok dev ->
  0 < f_size dev (pop_fs_open dev path) ->
  (sd_async_stream_open dev fuel slot0 path mem_a mem_b).1 = Some s0 ->
  Forall call_ok cs -> Forall (seek_inside (file_size s0)) cs ->
  let s := handle (session_run dev cs {| handle := s0; user_pos := 0 |}) in
  state s <> STREAM_STATE_EOF /\
  sd_async_stream_eof s = false /\
  (forall dest n, 0 <= n < 2 ^ 32 ->
     (sd_async_stream_read s dest n).1 < 0 -> state s = STREAM_STATE_ERROR).
Proof.
  intros Hdev Hsz Hopen Hok Hcs s.
  destruct (pump_open_live dev fuel slot0 path mem_a mem_b s0 Hsz Hopen) as [Hl0 _].
  assert (live s) as (He & Hc & _)
    by (by apply (session_run_live dev (file_size s0))).
  assert (stream_wf s) as Hwf.
  { apply (accounted_inv (user_pos (session_run dev cs {| handle := s0; user_pos := 0 |}))).
    apply session_run_accounted; [exact Hdev | exact Hok |].
    exact (pump_open_accounted dev fuel slot0 path mem_a mem_b s0 Hdev Hopen). }
  split; [exact He |]. split.
  { unfold sd_async_stream_eof. by rewrite bool_decide_eq_false_2. }
  intros dest n Hn Hneg.
  destruct (decide (state s = STREAM_STATE_ERROR)) as [| Hne]; [done | exfalso].
  pose proof (pump_available_bounds s Hwf) as [Hav1 Hav2].
  destruct (Z.lt_ge_cases 0 (sd_async_stream_available s)) as [Hpos | Hzero].
  - destruct (pump_read_active s dest n Hwf Hn Hne Hc Hpos) as [E _].
    rewrite E in Hneg. cbn in Hneg. lia.
  - destruct (Z.lt_ge_cases 0 (valid_of s (1 - active_buffer s))) as [Hov | Hov].
    + destruct (pump_read_swap s dest n Hwf Hne Hc Hzero Hov) as (Hst & E & _).
      rewrite E in Hneg.
      destruct (Z.le_gt_cases (other_available s) 0).
      * rewrite pump_read_copy_empty in Hneg by done.
        destruct (decide _) as [Heof | _]; cbn in Hneg; [| lia].
        rewrite Hst in Heof. done.
      * rewrite pump_read_copy in Hneg by lia. cbn in Hneg. lia.
    + rewrite (pump_read_starved s dest n Hne Hc Hzero Hov) in Hneg.
      destruct (decide _); [done | cbn in Hneg; lia].
Qed.


(** *** The initial fill of [sd_async_stream_open] *)

Lemma pump_to_read_full s :
  0 <= fill_offset s < SD_ASYNC_STREAM_BUFFER_BYTES ->
  0 <= file_pos s < file_size s -> file_size s < 2 ^ 32 ->
  pump_to_read s = Z.min SD_ASYNC_PUMP_CHUNK_SIZE (fill_rest s).
Proof.
  unfold pump_to_read, fill_rest, SD_ASYNC_STREAM_BUFFER_BYTES,
    SD_ASYNC_STREAM_BUFFER_SAMPLES, SD_ASYNC_PUMP_CHUNK_SIZE.
  intros Hf Hp Hs.
  rewrite (u32_small (2048 * 4 - fill_offset s)) by lia.
  rewrite (u32_small (file_size s - file_pos s)) by lia.
  destruct (Z.gtb_spec 512 (2048 * 4 - fill_offset s));
    match goal with |- context [?a >? ?b] => destruct (Z.gtb_spec a b) end; lia.
Qed.

Lemma pump_stream_full dev s :
  device_reads_fully dev ->
  state s = STREAM_STATE_FILLING_A \/ state s = STREAM_STATE_FILLING_B ->
  file_size s = f_size dev (file s) ->
  0 <= fill_offset s < SD_ASYNC_STREAM_BUFFER_BYTES ->
  0 <= file_pos s < file_size s -> file_size s < 2 ^ 32 ->
  let t := Z.min SD_ASYNC_PUMP_CHUNK_SIZE (fill_rest s) in
  let s1 := set_file_pos (set_fill_offset s (fill_offset s + t)) (file_pos s + t) in
  pump_stream dev s
  = (true, if fill_rest s <=? SD_ASYNC_PUMP_CHUNK_SIZE then pump_buffer_done s1 else s1).
Proof.
  intros Hfull Hst Hsz Hf Hp Hs t s1. subst t s1.
  unfold pump_stream.
  assert (0 < fill_rest s) as Hrest by (unfold fill_rest; lia).
  rewrite (pump_to_read_full s Hf Hp Hs).
  set (t := Z.min SD_ASYNC_PUMP_CHUNK_SIZE (fill_rest s)).
  assert (0 < t <= 512 /\ t <= fill_rest s) as [Ht Ht2]
    by (subst t; unfold SD_ASYNC_PUMP_CHUNK_SIZE; lia).
  assert (fill_rest s <= SD_ASYNC_STREAM_BUFFER_BYTES - fill_offset s /\
          fill_rest s <= file_size s - file_pos s) as [Hr1 Hr2]
    by (unfold fill_rest; lia).
  rewrite Hfull by lia.
  destruct (Z.geb_spec (file_pos s) (file_size s)); [lia |].
  cbv zeta. cbn [file_pos set_fill_offset set_file_pos fill_offset file_size].
  unfold SD_ASYNC_STREAM_BUFFER_BYTES, SD_ASYNC_STREAM_BUFFER_SAMPLES in *.
  rewrite s32_small by lia. rewrite (u32_small (file_pos s + t)) by lia.
  assert ((fill_offset s + t >=? 2048 * 4) || (file_pos s + t >=? file_size s)
          = (fill_rest s <=? SD_ASYNC_PUMP_CHUNK_SIZE)) as ->.
  { unfold fill_rest, SD_ASYNC_PUMP_CHUNK_SIZE, SD_ASYNC_STREAM_BUFFER_BYTES,
      SD_ASYNC_STREAM_BUFFER_SAMPLES in *. subst t.
    destruct (Z.geb_spec (fill_offset s + Z.min 512
                (Z.min (2048 * 4 - fill_offset s) (file_size s - file_pos s))) (2048 * 4));
      destruct (Z.geb_spec (file_pos s + Z.min 512
                (Z.min (2048 * 4 - fill_offset s) (file_size s - file_pos s))) (file_size s));
      destruct (Z.leb_spec (Z.min (2048 * 4 - fill_offset s) (file_size s - file_pos s)) 512);
      cbn; try done; lia. }
  by destruct Hst as [-> | ->]; destruct (_ <=? _).
Qed.

Lemma open_fill_b_full dev :
  device_reads_fully dev ->
  forall fuel s,
    state s = STREAM_STATE_FILLING_B ->
    file_size s = f_size dev (file s) ->
    0 <= fill_offset s < SD_ASYNC_STREAM_BUFFER_BYTES ->
    0 <= file_pos s < file_size s -> file_size s < 2 ^ 32 ->
    fill_rest s <= SD_ASYNC_PUMP_CHUNK_SIZE * Z.of_nat fuel ->
    open_fill_b dev fuel s = filled_b s (fill_rest s).
Proof.
  intros Hfull. induction fuel as [| fuel IH]; intros s Hst Hsz Hf Hp Hs Hfuel.
  { unfold fill_rest, SD_ASYNC_PUMP_CHUNK_SIZE in *. lia. }
  cbn [open_fill_b]. rewrite Hst.
  rewrite (pump_stream_full dev s Hfull (or_intror Hst) Hsz Hf Hp Hs).
  unfold SD_ASYNC_PUMP_CHUNK_SIZE in *.
  destruct (Z.leb_spec (fill_rest s) 512) as [Hle | Hgt].
  - rewrite Z.min_r by exact Hle.
    assert (pump_buffer_done
              (set_file_pos (set_fill_offset s (fill_offset s + fill_rest s))
                 (file_pos s + fill_rest s))
            = filled_b s (fill_rest s)) as ->
      by (unfold pump_buffer_done; cbn; by rewrite Hst).
    by destruct fuel.
  - rewrite Z.min_l by lia.
    set (s1 := set_file_pos (set_fill_offset s (fill_offset s + 512)) (file_pos s + 512)).
    assert (fill_rest s1 = fill_rest s - 512) as Hr1
      by (unfold fill_rest; subst s1; cbn; lia).
    assert (fill_rest s <= SD_ASYNC_STREAM_BUFFER_BYTES - fill_offset s /\
            fill_rest s <= file_size s - file_pos s) as [Hr2 Hr3]
      by (unfold fill_rest; lia).
    rewrite (IH s1); subst s1; cbn; try done; try lia.
    all: try (unfold filled_b; cbn; rewrite Hr1; f_equal; lia).
    all: try (rewrite Hr1; lia).
Qed.

Lemma open_fill_full dev :
  device_reads_fully dev ->
  forall fuel s,
    state s = STREAM_STATE_FILLING_A -> buffer_b_valid s = 0 ->
    file_size s = f_size dev (file s) ->
    0 <= fill_offset s < SD_ASYNC_STREAM_BUFFER_BYTES ->
    0 <= file_pos s < file_size s -> file_size s < 2 ^ 32 ->
    fill_rest s <= SD_ASYNC_PUMP_CHUNK_SIZE * (Z.of_nat fuel - 16) ->
    open_fill dev fuel s
    = (let s1 := filled_a s (fill_rest s) in
       if file_pos s1 <? file_size s1 then filled_b s1 (fill_rest s1) else s1).
Proof.
  intros Hfull. induction fuel as [| fuel IH]; intros s Hst Hbv Hsz Hf Hp Hs Hfuel.
  { unfold fill_rest, SD_ASYNC_PUMP_CHUNK_SIZE in *. lia. }
  cbn [open_fill]. rewrite Hst.
  rewrite (pump_stream_full dev s Hfull (or_introl Hst) Hsz Hf Hp Hs).
  unfold SD_ASYNC_PUMP_CHUNK_SIZE in *. cbn [negb].
  assert (fill_rest s <= SD_ASYNC_STREAM_BUFFER_BYTES - fill_offset s /\
          fill_rest s <= file_size s - file_pos s /\ 0 < fill_rest s) as (Hr2 & Hr3 & Hr4)
    by (unfold fill_rest; lia).
  destruct (Z.leb_spec (fill_rest s) 512) as [Hle | Hgt].
  - rewrite Z.min_r by exact Hle.
    assert (pump_buffer_done
              (set_file_pos (set_fill_offset s (fill_offset s + fill_rest s))
                 (file_pos s + fill_rest s))
            = filled_a s (fill_rest s)) as ->
      by (unfold pump_buffer_done, filled_a; cbn; rewrite Hst; cbn;
          by destruct (_ && _)).
    cbv zeta. set (s1 := filled_a s (fill_rest s)).
    assert (file_pos s1 = file_pos s + fill_rest s) as Hp1 by done.
    assert (file_size s1 = file_size s) as Hs1 by done.
    assert (file s1 = file s) as Hfi1 by done.
    assert (fill_offset s1 = 0) as Hfo1 by done.
    assert (state s1 = if file_pos s + fill_rest s <? file_size s
                       then STREAM_STATE_FILLING_B else STREAM_STATE_READY) as Hst1
      by (subst s1; unfold filled_a; cbn; by rewrite Hbv).
    rewrite Hst1, Hp1, Hs1. clearbody s1.
    unfold SD_ASYNC_STREAM_BUFFER_BYTES, SD_ASYNC_STREAM_BUFFER_SAMPLES in *.
    destruct (Z.ltb_spec (file_pos s + fill_rest s) (file_size s)) as [Hmore | Hend].
    + apply (open_fill_b_full dev Hfull); rewrite ?Hfi1, ?Hfo1, ?Hp1, ?Hs1; try done;
        unfold SD_ASYNC_STREAM_BUFFER_BYTES, SD_ASYNC_STREAM_BUFFER_SAMPLES,
          SD_ASYNC_PUMP_CHUNK_SIZE; try lia.
      unfold fill_rest at 1. rewrite Hfo1.
      unfold SD_ASYNC_STREAM_BUFFER_BYTES, SD_ASYNC_STREAM_BUFFER_SAMPLES. lia.
    + destruct fuel; cbn [open_fill]; [done | by rewrite Hst1].
  - rewrite Z.min_l by lia.
    set (s1 := set_file_pos (set_fill_offset s (fill_offset s + 512)) (file_pos s + 512)).
    assert (state s1 = STREAM_STATE_FILLING_A) as Hst1 by exact Hst.
    rewrite Hst1.
    assert (fill_rest s1 = fill_rest s - 512) as Hr1
      by (unfold fill_rest; subst s1; cbn; lia).
    rewrite (IH s1); subst s1; cbn; try done; try lia.
    all: try (rewrite Hr1; lia).
    unfold filled_a, filled_b. cbn. rewrite Hr1.
    replace (file_pos s + 512 + (fill_rest s - 512)) with (file_pos s + fill_rest s)
      by lia.
    replace (fill_offset s + 512 + (fill_rest s - 512))
      with (fill_offset s + fill_rest s) by lia.
    reflexivity.
Qed.


Lemma open_fill_empty dev fuel s :
  state s = STREAM_STATE_FILLING_A -> file_size s <= file_pos s ->
  buffer_b_valid s = 0 ->
  open_fill dev (S fuel) s
  = {| state := STREAM_STATE_EOF; file := file s; file_size := file_size s;
       file_pos := file_pos s; buffer_a := buffer_a s; buffer_b := buffer_b s;
       buffer_a_valid := fill_offset s; buffer_b_valid := 0;
       buffer_a_consumed := 0; buffer_b_consumed := buffer_b_consumed s;
       active_buffer := active_buffer s; fill_offset := 0; slot := slot s |}.
Proof.
  intros Hst Hp Hbv. cbn [open_fill]. rewrite Hst. unfold pump_stream. rewrite Hst.
  destruct (Z.geb_spec (file_pos s) (file_size s)); [| lia].
  unfold pump_exhausted. rewrite Hst. cbn [negb].
  cbn [buffer_b_valid set_buffer_a_consumed set_fill_offset set_buffer_a_valid].
  rewrite Hbv. cbn [Z.gtb Z.compare state set_state].
  destruct fuel; cbn [open_fill state set_state];
    unfold set_state, set_buffer_a_consumed, set_fill_offset, set_buffer_a_valid; cbn;
    rewrite ?Hbv; reflexivity.
Qed.

Lemma open_fill_empty_fields dev fuel s :
  state s = STREAM_STATE_FILLING_A -> file_size s <= file_pos s ->
  buffer_b_valid s = 0 ->
  let s' := open_fill dev (S fuel) s in
  state s' = STREAM_STATE_EOF /\ buffer_a_valid s' = fill_offset s /\
  buffer_b_valid s' = 0 /\ buffer_a_consumed s' = 0 /\
  buffer_b_consumed s' = buffer_b_consumed s /\ active_buffer s' = active_buffer s /\
  fill_offset s' = 0 /\ file_pos s' = file_pos s /\ file_size s' = file_size s.
Proof.
  intros Hst Hp Hbv s'. subst s'. rewrite (open_fill_empty dev fuel s Hst Hp Hbv).
  repeat split; reflexivity.
Qed.

Lemma open_fill_full_fields dev fuel s :
  device_reads_fully dev ->
  state s = STREAM_STATE_FILLING_A -> buffer_b_valid s = 0 ->
  file_size s = f_size dev (file s) ->
  fill_offset s = 0 -> file_pos s = 0 -> buffer_b_consumed s = 0 ->
  0 < file_size s < 2 ^ 32 -> (32 <= fuel)%nat ->
  let s' := open_fill dev fuel s in
  state s' = STREAM_STATE_READY /\
  buffer_a_valid s' = Z.min (file_size s) SD_ASYNC_STREAM_BUFFER_BYTES /\
  buffer_b_valid s'
  = Z.min (file_size s - buffer_a_valid s') SD_ASYNC_STREAM_BUFFER_BYTES /\
  buffer_a_consumed s' = 0 /\ buffer_b_consumed s' = 0 /\
  active_buffer s' = active_buffer s /\ fill_offset s' = 0 /\
  file_pos s' = buffer_a_valid s' + buffer_b_valid s' /\ file_size s' = file_size s.
Proof.
  intros Hfull Hst Hbv Hsz Hfo Hp Hbc Hsize Hfuel s'. subst s'.
  assert (fill_rest s = Z.min (2048 * 4) (file_size s)) as Hrest
    by (unfold fill_rest, SD_ASYNC_STREAM_BUFFER_BYTES, SD_ASYNC_STREAM_BUFFER_SAMPLES;
        rewrite Hfo, Hp; f_equal; lia).
  rewrite (open_fill_full dev Hfull fuel s Hst Hbv Hsz); cycle 1.
  { rewrite Hfo. unfold SD_ASYNC_STREAM_BUFFER_BYTES, SD_ASYNC_STREAM_BUFFER_SAMPLES. lia. }
  { rewrite Hp. lia. }
  { lia. }
  { rewrite Hrest. unfold SD_ASYNC_PUMP_CHUNK_SIZE. lia. }
  rewrite Hrest. cbv zeta.
  set (size := file_size s) in *. set (R := Z.min (2048 * 4) size).
  assert (0 < R <= 2048 * 4 /\ R <= size /\ R = Z.min size (2048 * 4))
    as (HR1 & HR2 & HRdef) by (subst R; lia).
  clearbody R.
  set (s2 := filled_a s R).
  assert (file_pos s2 = R /\ file_size s2 = size /\ buffer_a_valid s2 = R /\
          buffer_b_valid s2 = 0 /\ buffer_a_consumed s2 = 0 /\
          buffer_b_consumed s2 = buffer_b_consumed s /\
          active_buffer s2 = active_buffer s /\ fill_offset s2 = 0 /\
          state s2 = (if R <? size then STREAM_STATE_FILLING_B else STREAM_STATE_READY))
    as (Hp2 & Hsz2 & Hav2 & Hbv2 & Hac2 & Hbc2 & Hact2 & Hfo2 & Hst2).
  { subst s2. unfold filled_a. cbn [file_pos file_size buffer_a_valid buffer_b_valid
      buffer_a_consumed buffer_b_consumed active_buffer fill_offset state].
    fold size. rewrite Hp, Hfo, Hbv. change (0 =? 0) with true. cbn [andb].
    rewrite !Z.add_0_l. repeat split; reflexivity. }
  clearbody s2. rewrite Hp2, Hsz2.
  unfold SD_ASYNC_STREAM_BUFFER_BYTES, SD_ASYNC_STREAM_BUFFER_SAMPLES.
  destruct (Z.ltb_spec R size) as [Hmore | Hend].
  - assert (fill_rest s2 = Z.min (2048 * 4) (size - R)) as Hrest2
      by (unfold fill_rest, SD_ASYNC_STREAM_BUFFER_BYTES, SD_ASYNC_STREAM_BUFFER_SAMPLES;
          rewrite Hfo2, Hsz2, Hp2; f_equal; lia).
    rewrite Hrest2.
    assert (forall n, state (filled_b s2 n) = STREAM_STATE_READY /\
              buffer_a_valid (filled_b s2 n) = R /\
              buffer_b_valid (filled_b s2 n) = n /\
              buffer_a_consumed (filled_b s2 n) = 0 /\
              buffer_b_consumed (filled_b s2 n) = 0 /\
              active_buffer (filled_b s2 n) = active_buffer s /\
              fill_offset (filled_b s2 n) = 0 /\
              file_pos (filled_b s2 n) = R + n /\
              file_size (filled_b s2 n) = size) as Hfb.
    { intros n. unfold filled_b.
      cbn [file_pos file_size buffer_a_valid buffer_b_valid
        buffer_a_consumed buffer_b_consumed active_buffer fill_offset state].
      rewrite Hp2, Hsz2, Hav2, Hac2, Hact2, Hfo2, Z.add_0_l.
      repeat split; reflexivity. }
    destruct (Hfb (Z.min (2048 * 4) (size - R)))
      as (E1 & E2 & E3 & E4 & E5 & E6 & E7 & E8 & E9).
    rewrite E1, E2, E3, E4, E5, E6, E7, E8, E9.
    repeat split; first [reflexivity | lia].
  - rewrite Hst2, Hav2, Hbv2, Hac2, Hbc2, Hact2, Hfo2, Hp2, Hsz2.
    rewrite Hbc. repeat split; first [reflexivity | lia].
Qed.

(** XID: what [sd_async_stream_open] leaves in the two buffers.  On a card
    whose reads inside the file deliver every byte asked for, with the file
    found and both buffers allocated, the open returns the handle with the
    first 8192 bytes of the file in buffer A and the next 8192 in buffer B
    (less when the file is shorter), nothing consumed, buffer A active, and
    the stream READY, or at EOF when the file is empty; 32 turns of the fill
    loop are enough. *)
Theorem pump_open_fills_buffers (dev : sd_device) (fuel : nat)
    (slot0 : sd_async_stream) (path : list Byte.byte) (mem_a mem_b : Z) :
  device_ok dev -> device_reads_fully dev ->
  pop_fs_open dev path <> 0 -> mem_a <> 0 -> mem_b <> 0 -> (32 <= fuel)%nat ->
  let size := f_size dev (pop_fs_open dev path) in
  exists s,
    sd_async_stream_open dev fuel slot0 path mem_a mem_b = (Some s, s) /\
    state s = (if size =? 0 then STREAM_STATE_EOF else STREAM_STATE_READY) /\
    buffer_a_valid s = Z.min size SD_ASYNC_STREAM_BUFFER_BYTES /\
    buffer_b_valid s = Z.min (size - buffer_a_valid s) SD_ASYNC_STREAM_BUFFER_BYTES /\
    buffer_a_consumed s = 0 /\ buffer_b_consumed s = 0 /\
    active_buffer s = 0 /\ fill_offset s = 0 /\
    file_pos s = buffer_a_valid s + buffer_b_valid s /\ file_size s = size.
Proof.
  intros Hdev Hfull Hfile Ha Hb Hfuel size.
  pose proof (proj2 Hdev (pop_fs_open dev path)) as Hsize. fold size in Hsize.
  unfold sd_async_stream_open. cbv zeta.
  cbn [file set_file set_file_size set_file_pos set_buffers buffer_a buffer_b].
  destruct (Z.eqb_spec (pop_fs_open dev path) 0); [done |].
  destruct (Z.eqb_spec mem_a 0); [done |].
  destruct (Z.eqb_spec mem_b 0); [done |]. cbn [orb].
  match goal with |- context [open_fill dev fuel ?x] => set (s1 := x) end.
  assert (state s1 = STREAM_STATE_FILLING_A /\ buffer_b_valid s1 = 0 /\
          file_size s1 = size /\ file s1 = pop_fs_open dev path /\
          fill_offset s1 = 0 /\ file_pos s1 = 0 /\ buffer_a_valid s1 = 0 /\
          buffer_a_consumed s1 = 0 /\ buffer_b_consumed s1 = 0 /\ active_buffer s1 = 0)
    as (Hst & Hbv & Hsz & Hfi & Hfo & Hp & Hav & Hac & Hbc & Hact)
    by (subst s1; cbn; repeat split; done).
  clearbody s1.
  exists (open_fill dev fuel s1). split; [done |].
  destruct fuel as [| fuel]; [lia |].
  destruct (Z.eqb_spec size 0) as [Hz | Hnz].
  - destruct (open_fill_empty_fields dev fuel s1 Hst) as (E1 & E2 & E3 & E4 & E5 & E6 & E7 & E8 & E9);
      [rewrite Hp, Hsz; lia | exact Hbv |].
    rewrite E1, E2, E3, E4, E5, E6, E7, E8, E9, Hfo, Hbc, Hact, Hp, Hsz.
    unfold SD_ASYNC_STREAM_BUFFER_BYTES, SD_ASYNC_STREAM_BUFFER_SAMPLES.
    repeat split; first [reflexivity | lia].
  - pose proof (open_fill_full_fields dev (S fuel) s1 Hfull Hst Hbv) as H.
    rewrite Hsz, Hact in H. apply H; try assumption; [by rewrite Hfi | lia].
Qed.


(** *** Memory safety of the two buffers *)

Lemma pump_read_copy_range s dest n :
  stream_wf s -> 0 <= n < 2 ^ 32 ->
  let r := sd_async_stream_read s dest n in
  0 < r.1 ->
  r.1 <= consumed_of r.2 (active_buffer r.2).
Proof.
  intros Hwf Hn r Hpos. subst r.
  pose proof Hwf as (Ha & Hav & Hb & Hbv & Hact).
  destruct (decide (state s = STREAM_STATE_ERROR \/ state s = STREAM_STATE_CLOSED))
    as [Hdead | Hlive].
  { rewrite (pump_read_dead s dest n Hdead) in Hpos. cbn in Hpos. lia. }
  assert (state s <> STREAM_STATE_ERROR /\ state s <> STREAM_STATE_CLOSED)
    as [Hne Hnc] by tauto.
  pose proof (pump_available_bounds s Hwf) as [Hav1 Hav2].
  destruct (Z.lt_ge_cases 0 (sd_async_stream_available s)) as [Hp | Hzero].
  - destruct (pump_read_active s dest n Hwf Hn Hne Hnc Hp) as [E _].
    rewrite E in *. cbn [fst snd] in *.
    unfold set_consumed_of, consumed_of, sd_async_stream_available in *.
    destruct Hact as [Ea | Ea]; clear E;
      repeat (progress (rewrite ?Ea in *; sel_norm; cbn in * )); lia.
  - destruct (Z.lt_ge_cases 0 (valid_of s (1 - active_buffer s))) as [Hov | Hov].
    + destruct (pump_read_swap s dest n Hwf Hne Hnc Hzero Hov) as (Hst & E & _).
      rewrite E in *.
      destruct (Z.le_gt_cases (other_available s) 0).
      * rewrite pump_read_copy_empty in Hpos by done.
        destruct (decide _); cbn in Hpos; lia.
      * rewrite pump_read_copy in * by lia. cbn [fst snd] in *.
        unfold set_consumed_of, set_valid_of, set_active_buffer, consumed_of,
          other_available, valid_of in *.
        destruct Hact as [Ea | Ea]; clear E;
          repeat (progress (rewrite ?Ea in *; sel_norm; cbn in * )); lia.
    + rewrite (pump_read_starved s dest n Hne Hnc Hzero Hov) in Hpos.
      destruct (decide _); cbn in Hpos; lia.
Qed.

(** XID: neither buffer is ever overrun.  On a handle returned by
    [sd_async_stream_open], after any run of reads, pump turns and seeks,
    the chunk the next pump turn asks [f_read] to store at [fill_offset]
    ends inside the 8192-byte buffer, and a read that returns a positive
    count has copied that many bytes from below the consumed mark of the
    active buffer, which is within its valid bytes and within the buffer. *)
Theorem pump_buffers_never_overrun (dev : sd_device) (fuel : nat)
    (slot0 : sd_async_stream) (path : list Byte.byte) (mem_a mem_b : Z)
    (s0 : sd_async_stream) (cs : list stream_call) :
  device_ok dev ->
  (sd_async_stream_open dev fuel slot0 path mem_a mem_b).1 = Some s0 ->
  Forall call_ok cs ->
  let s := handle (session_run dev cs {| handle := s0; user_pos := 0 |}) in
  0 <= fill_offset s /\
  0 <= pump_to_read s /\
  fill_offset s + pump_to_read s <= SD_ASYNC_STREAM_BUFFER_BYTES /\
  (forall dest n, 0 <= n < 2 ^ 32 ->
     let r := sd_async_stream_read s dest n in
     0 < r.1 ->
     0 <= consumed_of r.2 (active_buffer r.2) - r.1 /\
     consumed_of r.2 (active_buffer r.2) <= valid_of r.2 (active_buffer r.2) /\
     valid_of r.2 (active_buffer r.2) <= SD_ASYNC_STREAM_BUFFER_BYTES).
Proof.
  intros Hdev Hopen Hcs s.
  assert (stream_inv s) as [Hwf Hfo].
  { apply (accounted_inv (user_pos (session_run dev cs {| handle := s0; user_pos := 0 |}))).
    apply session_run_accounted; [exact Hdev | exact Hcs |].
    exact (pump_open_accounted dev fuel slot0 path mem_a mem_b s0 Hdev Hopen). }
  pose proof (pump_to_read_bounds s Hfo) as Hn.
  split; [lia |]. split; [lia |]. split; [lia |].
  intros dest n Hnn r Hpos.
  pose proof (pump_read_copy_range s dest n Hwf Hnn Hpos) as Hr.
  pose proof (pump_read_wf s dest n Hwf Hnn) as (Ha & Hav & Hb & Hbv & Hact).
  fold r in Hr, Ha, Hav, Hb, Hbv, Hact.
  unfold consumed_of, valid_of in *.
  destruct Hact as [E | E]; rewrite E in *; sel_norm; cbv iota in *; lia.
Qed.

End PumpSessionFacts.

(** ** Examples *)

Lemma card_with_file_reads_fully size : device_reads_fully (Fixtures.card_with_file size).
Proof.
  intros fil pos btr Hp Hb Hle. cbn in *. f_equal. lia.
Qed.

Lemma pump_opened_handle :
  (SdPump.sd_async_stream_open (Fixtures.card_with_file 10000) 64
     Fixtures.pump_closed_slot Fixtures.some_path 4096 16384).1
  = Some StreamSamples.pump_opened.
Proof. vm_compute. reflexivity. Qed.

Lemma pump_calls_ok : Forall PumpSession.call_ok StreamSamples.pump_calls.
Proof. repeat constructor; cbn; lia. Qed.

Lemma pump_tell_counts_delivered_witness :
  let u := PumpSession.session_run (Fixtures.card_with_file 10000)
             StreamSamples.pump_calls
             {| PumpSession.handle := StreamSamples.pump_opened;
                PumpSession.user_pos := 0 |} in
  SdPump.sd_async_stream_tell (PumpSession.handle u)
  = PumpSession.user_pos u + SdPump.fill_offset (PumpSession.handle u) /\
  0 <= SdPump.fill_offset (PumpSession.handle u) <= SdPump.SD_ASYNC_STREAM_BUFFER_BYTES /\
  (SdPump.state (PumpSession.handle u) = SdPump.STREAM_STATE_READY \/
   SdPump.state (PumpSession.handle u) = SdPump.STREAM_STATE_EOF ->
   SdPump.sd_async_stream_tell (PumpSession.handle u) = PumpSession.user_pos u).
Proof.
  exact (pump_tell_counts_delivered (Fixtures.card_with_file 10000) 64
           Fixtures.pump_closed_slot Fixtures.some_path 4096 16384
           StreamSamples.pump_opened StreamSamples.pump_calls
           (card_with_file_ok 10000 ltac:(lia)) pump_opened_handle pump_calls_ok).
Defined.

Lemma pump_stream_never_ends_witness :
  let s := PumpSession.handle
             (PumpSession.session_run (Fixtures.card_with_file 10000)
                StreamSamples.pump_calls
                {| PumpSession.handle := StreamSamples.pump_opened;
                   PumpSession.user_pos := 0 |}) in
  SdPump.state s <> SdPump.STREAM_STATE_EOF /\
  SdPump.sd_async_stream_eof s = false.
Proof.
  intros s.
  destruct (pump_stream_never_ends (Fixtures.card_with_file 10000) 64
              Fixtures.pump_closed_slot Fixtures.some_path 4096 16384
              StreamSamples.pump_opened StreamSamples.pump_calls
              (card_with_file_ok 10000 ltac:(lia)) ltac:(cbn; lia)
              pump_opened_handle pump_calls_ok) as (H1 & H2 & _).
  { repeat constructor; first [exact I | vm_compute; reflexivity]. }
  split; [exact H1 | exact H2].
Defined.

Lemma pump_open_fills_buffers_witness :
  exists s,
    SdPump.sd_async_stream_open (Fixtures.card_with_file 10000) 64
      Fixtures.pump_closed_slot Fixtures.some_path 4096 16384 = (Some s, s) /\
    SdPump.state s = SdPump.STREAM_STATE_READY /\
    SdPump.buffer_a_valid s = 8192 /\ SdPump.buffer_b_valid s = 1808.
Proof.
  destruct (pump_open_fills_buffers (Fixtures.card_with_file 10000) 64
              Fixtures.pump_closed_slot Fixtures.some_path 4096 16384
              (card_with_file_ok 10000 ltac:(lia)) (card_with_file_reads_fully 10000)
              ltac:(cbn; lia) ltac:(lia) ltac:(lia) ltac:(lia))
    as (s & Ho & Hst & Ha & Hb & _).
  exists s. split; [exact Ho |]. split; [exact Hst |].
  rewrite Hb, Ha. split; reflexivity.
Defined.

Lemma pump_buffers_never_overrun_witness :
  let s := PumpSession.handle
             (PumpSession.session_run (Fixtures.card_with_file 10000)
                StreamSamples.pump_calls
                {| PumpSession.handle := StreamSamples.pump_opened;
                   PumpSession.user_pos := 0 |}) in
  0 <= SdPump.fill_offset s /\
  0 <= SdPump.pump_to_read s /\
  SdPump.fill_offset s + SdPump.pump_to_read s <= SdPump.SD_ASYNC_STREAM_BUFFER_BYTES.
Proof.
  intros s.
  destruct (pump_buffers_never_overrun (Fixtures.card_with_file 10000) 64
              Fixtures.pump_closed_slot Fixtures.some_path 4096 16384
              StreamSamples.pump_opened StreamSamples.pump_calls
              (card_with_file_ok 10000 ltac:(lia)) pump_opened_handle pump_calls_ok)
    as (H1 & H2 & H3 & _).
  split; [exact H1 |]. split; [exact H2 | exact H3].
Defined.
(** ** The worker-based variant *)

Section WorkerSessionFacts.
Import SdWorker WorkerSession.

Ltac wsel_norm :=
  change (1 - 0 =? 0) with false in *; change (1 - 1 =? 0) with true in *;
  change (1 - 0 =? 1) with true in *; change (1 - 1 =? 1) with false in *;
  change (0 =? 0) with true in *; change (1 =? 0) with false in *;
  change (1 - (1 - 0) =? 0) with true in *; change (1 - (1 - 1) =? 0) with false in *.

Ltac wfields :=
  repeat match goal with
  | |- _ /\ _ => split
  | |- _ -> _ => intros ?
  end;
  try done; try lia; auto;
  try (by left); try (by right; left); try (by right; right); try tauto.

Lemma fill_to_read_rest s :
  0 <= file_pos s < file_size s ->
  file_size s + SD_ASYNC_STREAM_BUFFER_BYTES <= 2 ^ 32 ->
  fill_to_read s = Z.min SD_ASYNC_STREAM_BUFFER_BYTES (file_size s - file_pos s).
Proof.
  unfold fill_to_read, SD_ASYNC_STREAM_BUFFER_BYTES, SD_ASYNC_STREAM_BUFFER_SAMPLES.
  intros Hp Hs.
  rewrite (u32_small (file_pos s + 2048 * 4)) by lia.
  rewrite (u32_small (file_size s - file_pos s)) by lia.
  destruct (Z.gtb_spec (file_pos s + 2048 * 4) (file_size s)); lia.
Qed.

(** The outcome of a fill of buffer B: an error that changes nothing but
    the state, or the bytes fetched in buffer B. *)
Lemma work_filling_b_fields dev s :
  device_ok dev -> stream_inv s -> state s = STREAM_STATE_FILLING_B ->
  file_size s + SD_ASYNC_STREAM_BUFFER_BYTES <= 2 ^ 32 ->
  let s' := work_filling_b dev s in
  file s' = file s /\ file_size s' = file_size s /\
  buffer_a_valid s' = buffer_a_valid s /\ buffer_a_consumed s' = buffer_a_consumed s /\
  active_buffer s' = active_buffer s /\
  settled s' /\
  (state s' <> STREAM_STATE_ERROR ->
   buffer_b_consumed s' = buffer_b_consumed s /\
   0 <= buffer_b_valid s' /\
   file_pos s' = file_pos s + buffer_b_valid s' /\
   (state s' = STREAM_STATE_EOF -> file s = 0 \/ file_size s <= file_pos s)).
Proof.
  intros Hdev ((Ha & Hav & Hb & Hbv & Hact) & Hpos & Hsize & Hseek & _ & _ & Hfb) Hst Hnw.
  specialize (Hfb Hst). unfold work_filling_b, settled.
  destruct (Z.eqb_spec (file s) 0) as [Hf0 | Hf0]; cbn [orb].
  { cbn. destruct (buffer_a_valid s >? 0); wfields. }
  destruct (Z.geb_spec (file_pos s) (file_size s)) as [Hge | Hlt].
  { cbn. destruct (buffer_a_valid s >? 0); wfields. }
  pose proof (fill_to_read_bounds s ltac:(lia) ltac:(lia)) as Hto.
  pose proof (fill_to_read_rest s ltac:(lia) Hnw) as Hrest.
  unfold SD_ASYNC_STREAM_BUFFER_BYTES, SD_ASYNC_STREAM_BUFFER_SAMPLES in *.
  pose proof (chunked_sd_read_loop_bounds dev (Z.to_nat (fill_to_read s)) (file s)
                (file_pos s) (fill_to_read s) Hdev ltac:(lia) 0 ltac:(lia)) as Hbr.
  fold (chunked_sd_read dev (file s) (file_pos s) (fill_to_read s)) in Hbr.
  destruct ((chunked_sd_read dev (file s) (file_pos s) (fill_to_read s) =? 0)
            && (fill_to_read s >? 0)).
  { cbn. wfields. }
  rewrite s32_small by lia.
  rewrite (u32_small (file_pos s + _)) by lia.
  cbn. wfields.
Qed.

Lemma work_filling_a_fields dev s :
  device_ok dev -> stream_inv s -> state s = STREAM_STATE_FILLING_A ->
  file_size s + SD_ASYNC_STREAM_BUFFER_BYTES <= 2 ^ 32 ->
  let s' := work_filling_a dev s in
  file s' = file s /\ file_size s' = file_size s /\
  active_buffer s' = active_buffer s /\
  settled s' /\
  (state s' <> STREAM_STATE_ERROR ->
   buffer_a_consumed s' = buffer_a_consumed s /\
   0 <= buffer_a_valid s' /\ 0 <= buffer_b_valid s' - buffer_b_valid s /\
   buffer_b_consumed s' = buffer_b_consumed s /\
   file_pos s' = file_pos s + buffer_a_valid s'
                 + (buffer_b_valid s' - buffer_b_valid s) /\
   (state s' = STREAM_STATE_EOF -> file s = 0 \/ file_size s <= file_pos s)).
Proof.
  intros Hdev Hinv Hst Hnw.
  pose proof Hinv as ((Ha & Hav & Hb & Hbv & Hact) & Hpos & Hsize & Hseek & _ & Hfa & _).
  specialize (Hfa Hst). unfold work_filling_a, settled.
  destruct (Z.eqb_spec (file s) 0) as [Hf0 | Hf0]; cbn [orb].
  { cbn. destruct (buffer_b_valid s >? 0); wfields. }
  destruct (Z.geb_spec (file_pos s) (file_size s)) as [Hge | Hlt].
  { cbn. destruct (buffer_b_valid s >? 0); wfields. }
  pose proof (fill_to_read_bounds s ltac:(lia) ltac:(lia)) as Hto.
  pose proof (fill_to_read_rest s ltac:(lia) Hnw) as Hrest.
  unfold SD_ASYNC_STREAM_BUFFER_BYTES, SD_ASYNC_STREAM_BUFFER_SAMPLES in *.
  pose proof (chunked_sd_read_loop_bounds dev (Z.to_nat (fill_to_read s)) (file s)
                (file_pos s) (fill_to_read s) Hdev ltac:(lia) 0 ltac:(lia)) as Hbr.
  fold (chunked_sd_read dev (file s) (file_pos s) (fill_to_read s)) in Hbr.
  set (br := chunked_sd_read dev (file s) (file_pos s) (fill_to_read s)) in *.
  destruct ((br =? 0) && (fill_to_read s >? 0)).
  { cbn. wfields. }
  rewrite s32_small by lia.
  cbv zeta.
  cbn [buffer_b_valid file_pos file_size set_file_pos set_buffer_a_consumed
       set_buffer_a_valid].
  rewrite (u32_small (file_pos s + br)) by lia.
  destruct (Z.eqb_spec (buffer_b_valid s) 0) as [Eb | Eb]; cbn [andb].
  - destruct (Z.ltb_spec (file_pos s + br) (file_size s)) as [Hmore | Hend].
    + set (s1 := set_state _ STREAM_STATE_FILLING_B).
      assert (stream_inv s1) as Hinv1.
      { subst s1. unfold stream_inv, stream_wf, SD_ASYNC_STREAM_BUFFER_BYTES,
          SD_ASYNC_STREAM_BUFFER_SAMPLES in *. cbn. repeat split; try lia; try done. }
      destruct (work_filling_b_fields dev s1 Hdev Hinv1 eq_refl)
        as (E1 & E2 & E3 & E4 & E5 & E6 & E7).
      { subst s1. cbn. unfold SD_ASYNC_STREAM_BUFFER_BYTES,
          SD_ASYNC_STREAM_BUFFER_SAMPLES. lia. }
      assert (file s1 = file s /\ file_size s1 = file_size s /\
              buffer_a_valid s1 = br /\ buffer_a_consumed s1 = 0 /\
              active_buffer s1 = active_buffer s /\
              buffer_b_consumed s1 = buffer_b_consumed s /\
              file_pos s1 = file_pos s + br) as (F1 & F2 & F3 & F4 & F5 & F6 & F7)
        by (subst s1; cbn; repeat split; reflexivity).
      clearbody s1.
      rewrite E1, E2, E5, F1, F2, F5.
      split; [done |]. split; [done |]. split; [done |]. split; [exact E6 |].
      intros Hne. destruct (E7 Hne) as (G1 & G2 & G3 & G4).
      rewrite E3, E4, F3, F4, G1, F6, G3, F7, Eb.
      repeat split; try lia. intros He. specialize (G4 He). lia.
    + cbn. wfields.
  - cbn. wfields.
Qed.

Lemma accounted_error L L' s :
  accounted L s -> state s = STREAM_STATE_ERROR -> 0 <= L' -> accounted L' s.
Proof.
  intros (Hinv & Hset & HL & Hnw & Hc) He HL'.
  do 4 (split; [done |]). intros Hne; done.
Qed.

Lemma accounted_of_error L s :
  stream_inv s -> state s = STREAM_STATE_ERROR -> 0 <= L ->
  file_size s + SD_ASYNC_STREAM_BUFFER_BYTES <= 2 ^ 32 -> accounted L s.
Proof.
  intros Hinv He HL Hnw. split; [exact Hinv |].
  split; [by right; right |]. split; [exact HL |]. split; [exact Hnw |].
  intros Hne. done.
Qed.

Lemma fill_a_accounted dev L s :
  device_ok dev -> stream_inv s -> state s = STREAM_STATE_FILLING_A ->
  file_size s + SD_ASYNC_STREAM_BUFFER_BYTES <= 2 ^ 32 -> 0 <= L ->
  counted L s ->
  accounted L (work_filling_a dev s).
Proof.
  intros Hdev Hinv Hst Hnw HL [Hc1 Hc2].
  pose proof (work_filling_a_inv dev s Hdev Hinv Hst) as Hinv'.
  destruct (work_filling_a_fields dev s Hdev Hinv Hst Hnw) as (E1 & E2 & E3 & E4 & E5).
  destruct Hinv as ((Ha & Hav & Hb & Hbv & Hact) & Hpos & Hsize & Hseek & _ & Hfa & _).
  specialize (Hfa Hst).
  split; [exact Hinv' |]. split; [exact E4 |]. split; [exact HL |].
  split; [by rewrite E2 |].
  intros Hne. destruct (E5 Hne) as (G1 & G2 & G3 & G4 & G5 & _).
  unfold counted, consumed_of in *. rewrite E3.
  split; [lia |].
  destruct (1 - active_buffer s =? 0); lia.
Qed.

Lemma fill_b_accounted dev L s :
  device_ok dev -> stream_inv s -> state s = STREAM_STATE_FILLING_B ->
  file_size s + SD_ASYNC_STREAM_BUFFER_BYTES <= 2 ^ 32 -> 0 <= L ->
  counted L s ->
  accounted L (work_filling_b dev s).
Proof.
  intros Hdev Hinv Hst Hnw HL [Hc1 Hc2].
  pose proof (work_filling_b_inv dev s Hdev Hinv Hst) as Hinv'.
  destruct (work_filling_b_fields dev s Hdev Hinv Hst Hnw)
    as (E1 & E2 & E3 & E4 & E5 & E6 & E7).
  destruct Hinv as ((Ha & Hav & Hb & Hbv & Hact) & Hpos & Hsize & Hseek & _ & _ & Hfb).
  specialize (Hfb Hst).
  split; [exact Hinv' |]. split; [exact E6 |]. split; [exact HL |].
  split; [by rewrite E2 |].
  intros Hne. destruct (E7 Hne) as (G1 & G2 & G3 & _).
  unfold counted, consumed_of in *. rewrite E5.
  split; [lia |].
  destruct (1 - active_buffer s =? 0); lia.
Qed.

Lemma worker_pass_accounted dev L s :
  device_ok dev -> accounted L s -> accounted L (worker_stream_pass dev s).
Proof.
  intros Hdev H. pose proof H as (Hinv & Hset & HL & Hnw & Hc).
  unfold worker_stream_pass.
  destruct Hset as [Est | [Est | Est]]; rewrite Est; cbv iota; rewrite ?Est;
    try exact H.
  pose proof Hinv as ((Ha & Hav & Hb & Hbv & Hact) & Hpos & Hsize & Hseek & _).
  assert (counted L s) as Hcs by (apply Hc; congruence).
  match goal with |- context [if ?b then _ else _] => destruct b eqn:E1 end.
  { apply andb_true_iff in E1 as [E1 _]. apply andb_true_iff in E1 as [_ E1].
    apply Z.eqb_eq in E1.
    unfold process_stream_work. cbn [state set_state].
    apply fill_a_accounted; try done.
    all: unfold stream_inv, stream_wf in *; cbn; repeat split; try lia; try done. }
  match goal with |- context [if ?b then _ else _] => destruct b eqn:E2 end;
    [| exact H].
  apply andb_true_iff in E2 as [E2 _]. apply andb_true_iff in E2 as [_ E2].
  apply Z.eqb_eq in E2.
  unfold process_stream_work. cbn [state set_state].
  apply fill_b_accounted; try done.
  all: unfold stream_inv, stream_wf in *; cbn; repeat split; try lia; try done.
Qed.

Lemma worker_seek_accounted dev L s position :
  device_ok dev -> accounted L s -> 0 <= position < 2 ^ 32 ->
  let r := sd_async_stream_seek dev s position in
  accounted (if r.1 =? 0 then position else L) r.2.
Proof.
  intros Hdev H Hp r. subst r. pose proof H as (Hinv & Hset & HL & Hnw & Hc).
  pose proof (worker_seek_inv dev s position Hdev Hinv Hp) as Hinv'.
  unfold sd_async_stream_seek in *.
  destruct (decide (state s = STREAM_STATE_ERROR)) as [He | He]; [exact H |].
  cbv zeta in *. unfold process_stream_work in *. cbn [state set_state fst snd] in *.
  unfold work_seeking in *.
  cbn [file set_state set_seek_target seek_target] in *.
  pose proof Hinv as ((Ha & Hav & Hb & Hbv & Hact) & Hpos & Hsize & Hseek & _).
  destruct (file s =? 0).
  { cbn [state set_state] in *. destruct (decide _); [| done]. cbn [fst snd].
    change (-1 =? 0) with false. cbv iota.
    by apply accounted_of_error. }
  destruct (f_lseek dev (file s) position).
  2:{ cbn [state set_state] in *. destruct (decide _); [| done]. cbn [fst snd].
      change (-1 =? 0) with false. cbv iota.
      by apply accounted_of_error. }
  match goal with |- context [work_filling_a dev ?x] => set (s2 := x) in * end.
  assert (accounted position (work_filling_a dev s2)) as H2.
  { apply fill_a_accounted; try done; try lia.
    - subst s2. unfold stream_inv, stream_wf, SD_ASYNC_STREAM_BUFFER_BYTES,
        SD_ASYNC_STREAM_BUFFER_SAMPLES in *; cbn; repeat split; try lia; try done; auto.
    - subst s2. unfold counted, consumed_of. cbn. split; [lia | done]. }
  clearbody s2.
  destruct (decide (state (work_filling_a dev s2) = STREAM_STATE_ERROR)) as [He2 | He2].
  - cbn. by apply (accounted_error position).
  - cbn. exact H2.
Qed.

Lemma worker_read_accounted L s dest n :
  accounted L s -> 0 <= n < 2 ^ 32 ->
  let r := sd_async_stream_read s dest n in
  accounted (if 0 <? r.1 then L + r.1 else L) r.2.
Proof.
  intros H Hn r. subst r. pose proof H as (Hinv & Hset & HL & Hnw & Hc).
  pose proof (worker_read_inv s dest n Hinv Hn) as Hinv'.
  destruct (worker_read_fields s dest n) as (Es & Ep & Ez & _).
  pose proof Hinv as (Hwf & _).
  pose proof Hwf as (Ha & Hav & Hb & Hbv & Hact).
  destruct (decide (dest = 0 \/ n = 0)) as [Hg | Hg].
  { rewrite worker_read_guard by done. cbn. exact H. }
  assert (dest <> 0 /\ n <> 0) as [Hd Hn0] by lia.
  destruct (decide (state s = STREAM_STATE_ERROR)) as [He | He].
  { rewrite worker_read_dead by auto. cbn. exact H. }
  destruct (Hc He) as [Hc1 Hc2].
  split; [exact Hinv' |]. split; [unfold settled; by rewrite Es |].
  pose proof (worker_available_bounds s Hwf) as [Hav1 Hav2].
  assert (forall L' s', 0 <= L' -> file_size s' = file_size s -> counted L' s' ->
            0 <= L' /\ file_size s' + SD_ASYNC_STREAM_BUFFER_BYTES <= 2 ^ 32 /\
            (state s' <> STREAM_STATE_ERROR -> counted L' s')) as Hfin.
  { intros L' s' ? E ?. rewrite E. split; [done |]. split; [done |]. by intros _. }
  destruct (Z.lt_ge_cases 0 (sd_async_stream_available s)) as [Hpos | Hzero].
  - destruct (worker_read_active s dest n Hwf Hn Hd Hn0 He Hpos) as [E _].
    rewrite E in *. cbn [fst snd] in *.
    destruct (Z.ltb_spec 0 (Z.min n (sd_async_stream_available s))); [| lia].
    apply Hfin; [lia | exact Ez |].
    unfold counted, sd_async_stream_available, set_consumed_of, consumed_of in *.
    destruct Hact as [Ea | Ea]; clear E;
      repeat (progress (rewrite ?Ea in *; wsel_norm; cbn in * )); lia.
  - destruct (Z.lt_ge_cases 0 (valid_of s (1 - active_buffer s))) as [Hov | Hov].
    + destruct (worker_read_swap s dest n Hwf Hd Hn0 He Hzero Hov) as (Hst & E & _).
      assert (other_available s = valid_of s (1 - active_buffer s)) as Hoa
        by (unfold other_available; rewrite Hc2; lia).
      rewrite E in *. rewrite worker_read_copy in * by lia. cbn [fst snd] in *.
      destruct (Z.ltb_spec 0 (Z.min n (other_available s))); [| lia].
      apply Hfin; [lia | exact Ez |].
      unfold counted, other_available, sd_async_stream_available, set_consumed_of,
        set_valid_of, set_active_buffer, consumed_of, valid_of in *.
      destruct Hact as [Ea | Ea]; clear E;
        repeat (progress (rewrite ?Ea in *; wsel_norm; cbn in * )); lia.
    + rewrite (worker_read_starved s dest n Hd Hn0 He Hzero Hov) in *.
      destruct (decide _); cbn; by destruct H as (_ & _ & ? & ? & ?).
Qed.

Lemma worker_open_accounted dev s p mem_a mem_b s' :
  device_ok dev ->
  f_size dev (pop_fs_open dev (copy_path p)) + SD_ASYNC_STREAM_BUFFER_BYTES <= 2 ^ 32 ->
  (sd_async_stream_open dev s p mem_a mem_b).1 = Some s' ->
  accounted 0 s'.
Proof.
  intros Hdev Hnw. unfold sd_async_stream_open.
  destruct ((_ =? 0) || (_ =? 0)); [done |].
  cbv zeta. unfold process_stream_work. cbn [state set_state].
  unfold work_opening. cbn [path set_path set_state file set_file].
  pose proof (proj2 Hdev (pop_fs_open dev (copy_path p))) as Hsz.
  destruct (Z.eqb_spec (pop_fs_open dev (copy_path p)) 0) as [E | E].
  { cbn [state set_state]. by destruct (decide _). }
  match goal with |- context [work_filling_a dev ?x] => set (s2 := x) end.
  assert (accounted 0 (work_filling_a dev s2)) as H2.
  { apply fill_a_accounted; [exact Hdev | | reflexivity | exact Hnw | lia |].
    - subst s2. unfold stream_inv, stream_wf, SD_ASYNC_STREAM_BUFFER_BYTES,
        SD_ASYNC_STREAM_BUFFER_SAMPLES, copy_path in *; cbn in *;
        repeat split; try lia; try done; auto.
    - subst s2. unfold counted, consumed_of. cbn. split; [lia | done]. }
  clearbody s2.
  destruct (decide _); [done |]. cbn. by intros [= <-].
Qed.

Lemma worker_session_accounted dev cs :
  device_ok dev -> Forall call_ok cs ->
  forall u, accounted (user_pos u) (handle u) ->
  accounted (user_pos (session_run dev cs u)) (handle (session_run dev cs u)).
Proof.
  intros Hdev. induction 1 as [| c cs Hc Hcs IH]; intros u Hu; [exact Hu |].
  apply IH. destruct c as [dest n | | position]; cbn.
  - by apply worker_read_accounted.
  - by apply worker_pass_accounted.
  - by apply worker_seek_accounted.
Qed.

Lemma worker_accounted_tell L s :
  accounted L s -> state s <> STREAM_STATE_ERROR -> sd_async_stream_tell s = L.
Proof.
  intros (((Ha & Hav & Hb & Hbv & Hact) & Hpos & _) & _ & HL & _ & Hc) Hne.
  destruct (Hc Hne) as [Hc1 Hc2].
  unfold sd_async_stream_tell, consumed_of, SD_ASYNC_STREAM_BUFFER_BYTES,
    SD_ASYNC_STREAM_BUFFER_SAMPLES in *.
  destruct Hact as [E | E]; rewrite E in *; wsel_norm; cbv iota in *.
  - rewrite (u32_small (buffer_a_valid s - buffer_a_consumed s)) by lia.
    rewrite (u32_small (buffer_a_valid s - buffer_a_consumed s + buffer_b_valid s)) by lia.
    destruct (Z.geb_spec (file_pos s)
                (buffer_a_valid s - buffer_a_consumed s + buffer_b_valid s));
      [rewrite u32_small by lia |]; lia.
  - rewrite (u32_small (buffer_b_valid s - buffer_b_consumed s)) by lia.
    rewrite (u32_small (buffer_b_valid s - buffer_b_consumed s + buffer_a_valid s)) by lia.
    destruct (Z.geb_spec (file_pos s)
                (buffer_b_valid s - buffer_b_consumed s + buffer_a_valid s));
      [rewrite u32_small by lia |]; lia.
Qed.

(** XID: the position reported by the worker variant's
    [sd_async_stream_tell].  On a handle returned by [sd_async_stream_open]
    for a file that ends at least 8192 bytes below 4 GiB, after any run of
    reads, worker turns and seeks, a stream that is not in ERROR reports
    the place its user has reached in the file: the position of the last
    successful seek plus the counts returned by the reads made since. *)
Theorem worker_tell_counts_delivered (dev : sd_device)
    (slot0 : sd_async_stream) (p : list Byte.byte) (mem_a mem_b : Z)
    (s0 : sd_async_stream) (cs : list stream_call) :
  device_ok dev ->
  f_size dev (pop_fs_open dev (copy_path p)) + SD_ASYNC_STREAM_BUFFER_BYTES <= 2 ^ 32 ->
  (sd_async_stream_open dev slot0 p mem_a mem_b).1 = Some s0 ->
  Forall call_ok cs ->
  let u := session_run dev cs {| handle := s0; user_pos := 0 |} in
  state (handle u) <> STREAM_STATE_ERROR ->
  sd_async_stream_tell (handle u) = user_pos u.
Proof.
  intros Hdev Hnw Hopen Hcs u Hne.
  apply worker_accounted_tell; [| exact Hne].
  apply worker_session_accounted; [exact Hdev | exact Hcs |].
  exact (worker_open_accounted dev slot0 p mem_a mem_b s0 Hdev Hnw Hopen).
Qed.


(** *** A stream over a non-empty file never reaches the end-of-file state *)

Lemma work_filling_b_live dev s :
  file s <> 0 -> file_pos s < file_size s ->
  live (work_filling_b dev s) /\ file_size (work_filling_b dev s) = file_size s.
Proof.
  intros Hf Hp. unfold work_filling_b, live.
  destruct (Z.eqb_spec (file s) 0); [done |]. cbn [orb].
  destruct (Z.geb_spec (file_pos s) (file_size s)); [lia |].
  destruct (_ && _); cbn; auto.
Qed.

Lemma work_filling_a_live dev s :
  file s <> 0 -> file_pos s < file_size s ->
  live (work_filling_a dev s) /\ file_size (work_filling_a dev s) = file_size s.
Proof.
  intros Hf Hp. unfold work_filling_a.
  destruct (Z.eqb_spec (file s) 0); [done |]. cbn [orb].
  destruct (Z.geb_spec (file_pos s) (file_size s)); [lia |].
  destruct (_ && _); [unfold live; cbn; auto |].
  cbv zeta.
  cbn [buffer_b_valid file_pos file_size set_file_pos set_buffer_a_consumed
       set_buffer_a_valid].
  destruct (buffer_b_valid s =? 0); cbn [andb]; [| unfold live; cbn; auto].
  destruct (Z.ltb_spec (u32 (file_pos s + chunked_sd_read dev (file s) (file_pos s)
                                            (fill_to_read s))) (file_size s));
    [| unfold live; cbn; auto].
  match goal with |- context [work_filling_b dev ?x] =>
    destruct (work_filling_b_live dev x) as [H1 H2]; [cbn; done | cbn; done |]
  end.
  split; [exact H1 | by rewrite H2].
Qed.

Lemma worker_pass_live dev s :
  live s ->
  live (worker_stream_pass dev s) /\ file_size (worker_stream_pass dev s) = file_size s.
Proof.
  intros [Hst Hf]. unfold worker_stream_pass.
  destruct Hst as [Est | Est]; rewrite Est; cbv iota; rewrite ?Est;
    [| split; [split; auto | done]].
  match goal with |- context [if ?b then _ else _] => destruct b eqn:E1 end.
  { apply andb_true_iff in E1 as [_ E1]. apply Z.ltb_lt in E1.
    unfold process_stream_work. cbn [state set_state].
    destruct (work_filling_a_live dev (set_state s STREAM_STATE_FILLING_A))
      as [H1 H2]; [done | done |].
    split; [exact H1 | by rewrite H2]. }
  match goal with |- context [if ?b then _ else _] => destruct b eqn:E2 end;
    [| split; [split; auto | done]].
  apply andb_true_iff in E2 as [_ E2]. apply Z.ltb_lt in E2.
  unfold process_stream_work. cbn [state set_state].
  destruct (work_filling_b_live dev (set_state s STREAM_STATE_FILLING_B))
    as [H1 H2]; [done | done |].
  split; [exact H1 | by rewrite H2].
Qed.

Lemma worker_seek_live dev s position :
  live s -> position < file_size s ->
  live (sd_async_stream_seek dev s position).2 /\
  file_size (sd_async_stream_seek dev s position).2 = file_size s.
Proof.
  intros [Hst Hf] Hp. unfold sd_async_stream_seek.
  destruct (decide (state s = STREAM_STATE_ERROR)); [split; [split; auto | done] |].
  cbv zeta. unfold process_stream_work. cbn [state set_state fst snd].
  unfold work_seeking. cbn [file set_state set_seek_target seek_target].
  destruct (Z.eqb_spec (file s) 0); [done |].
  destruct (f_lseek dev (file s) position); [| unfold live; cbn; auto].
  match goal with |- context [work_filling_a dev ?x] =>
    destruct (work_filling_a_live dev x) as [H1 H2]; [cbn; done | cbn; done |]
  end.
  split; [exact H1 | by rewrite H2].
Qed.

Lemma worker_read_file s dest n : file (sd_async_stream_read s dest n).2 = file s.
Proof.
  unfold sd_async_stream_read, read_copy, set_consumed_of, set_valid_of.
  repeat match goal with
         | |- context [if ?b then _ else _] => destruct b
         end; reflexivity.
Qed.

Lemma worker_read_live s dest n :
  live s ->
  live (sd_async_stream_read s dest n).2 /\
  file_size (sd_async_stream_read s dest n).2 = file_size s.
Proof.
  intros [Hst Hf]. destruct (worker_read_fields s dest n) as (Es & _ & Ez & _).
  unfold live. by rewrite Es, worker_read_file, Ez.
Qed.

Lemma worker_open_live dev s p mem_a mem_b s' :
  0 < f_size dev (pop_fs_open dev (copy_path p)) ->
  (sd_async_stream_open dev s p mem_a mem_b).1 = Some s' ->
  live s' /\ state s' = STREAM_STATE_READY /\
  file_size s' = f_size dev (pop_fs_open dev (copy_path p)).
Proof.
  intros Hsz. unfold sd_async_stream_open.
  destruct ((_ =? 0) || (_ =? 0)); [done |].
  cbv zeta. unfold process_stream_work. cbn [state set_state].
  unfold work_opening. cbn [path set_path set_state file set_file].
  destruct (Z.eqb_spec (pop_fs_open dev (copy_path p)) 0) as [E | E].
  { cbn [state set_state]. by destruct (decide _). }
  match goal with |- context [work_filling_a dev ?x] => set (s2 := x) end.
  assert (live (work_filling_a dev s2) /\
          file_size (work_filling_a dev s2) = file_size s2) as [H2 H3]
    by (apply work_filling_a_live; subst s2; cbn; done).
  assert (file_size s2 = f_size dev (pop_fs_open dev (copy_path p))) as H4
    by (subst s2; reflexivity).
  clearbody s2.
  destruct (decide _) as [| Hne]; [done |]. cbn. intros [= <-].
  split; [exact H2 |]. split; [| by rewrite H3].
  destruct H2 as [[? | ?] _]; done.
Qed.

Lemma worker_session_live dev size cs :
  Forall (seek_inside size) cs ->
  forall u, live (handle u) -> file_size (handle u) = size ->
  live (handle (session_run dev cs u)).
Proof.
  induction 1 as [| c cs Hc Hcs IH]; intros u Hu Hsz; [exact Hu |].
  destruct c as [dest n | | position]; cbn.
  - destruct (worker_read_live (handle u) dest n Hu) as [H1 H2].
    apply IH; cbn; [exact H1 | by rewrite H2].
  - destruct (worker_pass_live dev (handle u) Hu) as [H1 H2].
    apply IH; cbn; [exact H1 | by rewrite H2].
  - cbn in Hc.
    destruct (worker_seek_live dev (handle u) position Hu ltac:(lia)) as [H1 H2].
    apply IH; cbn; [exact H1 | by rewrite H2].
Qed.

Lemma worker_session_inv dev cs :
  device_ok dev -> Forall call_ok cs ->
  forall u, stream_inv (handle u) -> stream_inv (handle (session_run dev cs u)).
Proof.
  intros Hdev. induction 1 as [| c cs Hc Hcs IH]; intros u Hu; [exact Hu |].
  apply IH. destruct c as [dest n | | position]; cbn.
  - by apply worker_read_inv.
  - by apply worker_stream_pass_inv.
  - by apply worker_seek_inv.
Qed.

(** XID: a stream of the worker variant over a non-empty file never reports
    the end of the file.  On a handle returned by [sd_async_stream_open] for
    a file that is not empty, after any run of reads, worker turns and seeks
    to positions inside the file, the stream is READY or in ERROR:
    [sd_async_stream_eof] is false, also when every byte has been read, and
    a read returns -1 only when the stream is in ERROR. *)
Theorem worker_stream_never_ends (dev : sd_device)
    (slot0 : sd_async_stream) (p : list Byte.byte) (mem_a mem_b : Z)
    (s0 : sd_async_stream) (cs : list stream_call) :
  device_ok dev ->
  0 < f_size dev (pop_fs_open dev (copy_path p)) ->
  (sd_async_stream_open dev slot0 p mem_a mem_b).1 = Some s0 ->
  Forall call_ok cs -> Forall (seek_inside (file_size s0)) cs ->
  let s := handle (session_run dev cs {| handle := s0; user_pos := 0 |}) in
  (state s = STREAM_STATE_READY \/ state s = STREAM_STATE_ERROR) /\
  sd_async_stream_eof s = false /\
  (forall dest n, 0 <= n < 2 ^ 32 ->
     (sd_async_stream_read s dest n).1 < 0 -> state s = STREAM_STATE_ERROR).
Proof.
  intros Hdev Hsz Hopen Hok Hcs s.
  destruct (worker_open_live dev slot0 p mem_a mem_b s0 Hsz Hopen) as (Hl0 & _ & _).
  assert (live s) as [Hst _] by (by apply (worker_session_live dev (file_size s0))).
  assert (stream_inv s) as [Hwf _].
  { apply worker_session_inv; [exact Hdev | exact Hok |].
    exact (worker_open_inv dev slot0 p mem_a mem_b s0 Hdev Hopen). }
  split; [exact Hst |]. split.
  { unfold sd_async_stream_eof. rewrite bool_decide_eq_false_2; [done |].
    destruct Hst as [-> | ->]; done. }
  intros dest n Hn Hneg.
  destruct (decide (state s = STREAM_STATE_ERROR)) as [| Hne]; [done | exfalso].
  assert (state s <> STREAM_STATE_EOF) as Hneof by (destruct Hst as [E | E]; congruence).
  destruct (decide (dest = 0 \/ n = 0)) as [Hg | Hg].
  { rewrite worker_read_guard in Hneg by done. cbn in Hneg. lia. }
  assert (dest <> 0 /\ n <> 0) as [Hd Hn0] by lia.
  pose proof (worker_available_bounds s Hwf) as [Hav1 Hav2].
  destruct (Z.lt_ge_cases 0 (sd_async_stream_available s)) as [Hpos | Hzero].
  - destruct (worker_read_active s dest n Hwf Hn Hd Hn0 Hne Hpos) as [E _].
    rewrite E in Hneg. cbn in Hneg. lia.
  - destruct (Z.lt_ge_cases 0 (valid_of s (1 - active_buffer s))) as [Hov | Hov].
    + destruct (worker_read_swap s dest n Hwf Hd Hn0 Hne Hzero Hov) as (Hst' & E & _).
      rewrite E in Hneg.
      destruct (Z.le_gt_cases (other_available s) 0).
      * rewrite worker_read_copy_empty in Hneg by done.
        destruct (decide _) as [Heof | _]; cbn in Hneg; [| lia].
        rewrite Hst' in Heof. done.
      * rewrite worker_read_copy in Hneg by lia. cbn in Hneg. lia.
    + rewrite (worker_read_starved s dest n Hd Hn0 Hne Hzero Hov) in Hneg.
      destruct (decide _); [done | cbn in Hneg; lia].
Qed.


(** *** The initial fill of [sd_async_stream_open] *)

Lemma chunked_sd_read_loop_full dev fil pos total :
  device_reads_fully dev ->
  0 <= pos -> pos + total <= f_size dev fil -> 0 <= total < 2 ^ 32 ->
  forall fuel bytes_read,
    0 <= bytes_read <= total ->
    total - bytes_read <= SD_READ_CHUNK_SIZE * Z.of_nat fuel ->
    chunked_sd_read_loop dev fuel fil pos total bytes_read = total.
Proof.
  intros Hfull Hp Hsz Ht. unfold SD_READ_CHUNK_SIZE.
  induction fuel as [| fuel IH]; intros bytes_read Hb Hfuel; [cbn; lia |].
  cbn [chunked_sd_read_loop].
  destruct (Z.ltb_spec bytes_read total); [| lia].
  rewrite (u32_small (total - bytes_read)) by lia.
  unfold SD_READ_CHUNK_SIZE.
  set (chunk := if total - bytes_read >? 512 then 512 else total - bytes_read).
  assert (0 < chunk <= total - bytes_read /\ (chunk = 512 \/ chunk = total - bytes_read))
    as [Hchunk Hc2]
    by (subst chunk; destruct (Z.gtb_spec (total - bytes_read) 512); lia).
  rewrite Hfull by lia.
  rewrite (u32_small (bytes_read + chunk)) by lia.
  rewrite Z.ltb_irrefl. apply IH; lia.
Qed.

Lemma chunked_sd_read_full dev fil pos total :
  device_reads_fully dev ->
  0 <= pos -> pos + total <= f_size dev fil -> 0 <= total < 2 ^ 32 ->
  chunked_sd_read dev fil pos total = total.
Proof.
  intros Hfull Hp Hsz Ht. unfold chunked_sd_read.
  apply chunked_sd_read_loop_full; try done; unfold SD_READ_CHUNK_SIZE; lia.
Qed.

Lemma work_filling_b_full dev s :
  device_reads_fully dev -> file s <> 0 ->
  file_size s = f_size dev (file s) ->
  0 <= file_pos s < file_size s ->
  file_size s + SD_ASYNC_STREAM_BUFFER_BYTES <= 2 ^ 32 ->
  let n := Z.min SD_ASYNC_STREAM_BUFFER_BYTES (file_size s - file_pos s) in
  work_filling_b dev s
  = {| state := STREAM_STATE_READY; file := file s; file_size := file_size s;
       file_pos := file_pos s + n; buffer_a := buffer_a s; buffer_b := buffer_b s;
       buffer_a_valid := buffer_a_valid s; buffer_b_valid := n;
       buffer_a_consumed := buffer_a_consumed s; buffer_b_consumed := 0;
       active_buffer := active_buffer s; path := path s;
       seek_target := seek_target s; slot := slot s |}.
Proof.
  intros Hfull Hf Hsz Hp Hnw n. unfold work_filling_b.
  destruct (Z.eqb_spec (file s) 0); [done |]. cbn [orb].
  destruct (Z.geb_spec (file_pos s) (file_size s)); [lia |].
  rewrite (fill_to_read_rest s Hp Hnw). fold n.
  assert (0 < n <= 2048 * 4 /\ n <= file_size s - file_pos s) as [Hn1 Hn2]
    by (subst n; unfold SD_ASYNC_STREAM_BUFFER_BYTES, SD_ASYNC_STREAM_BUFFER_SAMPLES in *;
        lia).
  unfold SD_ASYNC_STREAM_BUFFER_BYTES, SD_ASYNC_STREAM_BUFFER_SAMPLES in Hnw.
  rewrite (chunked_sd_read_full dev (file s) (file_pos s) n Hfull) by lia.
  destruct (Z.eqb_spec n 0); [lia |]. cbn [andb].
  rewrite s32_small by lia. cbv zeta.
  cbn [file_pos set_buffer_b_consumed set_buffer_b_valid].
  rewrite (u32_small (file_pos s + n)) by lia.
  reflexivity.
Qed.

Lemma work_filling_a_full dev s :
  device_reads_fully dev -> file s <> 0 ->
  file_size s = f_size dev (file s) ->
  0 <= file_pos s < file_size s -> buffer_b_valid s = 0 ->
  file_size s + SD_ASYNC_STREAM_BUFFER_BYTES <= 2 ^ 32 ->
  let n := Z.min SD_ASYNC_STREAM_BUFFER_BYTES (file_size s - file_pos s) in
  let m := Z.min SD_ASYNC_STREAM_BUFFER_BYTES (file_size s - file_pos s - n) in
  work_filling_a dev s
  = {| state := STREAM_STATE_READY; file := file s; file_size := file_size s;
       file_pos := file_pos s + n + m; buffer_a := buffer_a s; buffer_b := buffer_b s;
       buffer_a_valid := n; buffer_b_valid := m;
       buffer_a_consumed := 0;
       buffer_b_consumed := if 0 <? m then 0 else buffer_b_consumed s;
       active_buffer := active_buffer s; path := path s;
       seek_target := seek_target s; slot := slot s |}.
Proof.
  intros Hfull Hf Hsz Hp Hbv Hnw n m. unfold work_filling_a.
  destruct (Z.eqb_spec (file s) 0); [done |]. cbn [orb].
  destruct (Z.geb_spec (file_pos s) (file_size s)); [lia |].
  rewrite (fill_to_read_rest s Hp Hnw). fold n.
  assert (0 < n <= 2048 * 4 /\ n <= file_size s - file_pos s) as [Hn1 Hn2]
    by (subst n; unfold SD_ASYNC_STREAM_BUFFER_BYTES, SD_ASYNC_STREAM_BUFFER_SAMPLES in *;
        lia).
  assert (0 <= m /\ (0 < m <-> file_pos s + n < file_size s)) as [Hm1 Hm2]
    by (subst m; unfold SD_ASYNC_STREAM_BUFFER_BYTES, SD_ASYNC_STREAM_BUFFER_SAMPLES in *;
        lia).
  pose proof Hnw as Hnw'.
  unfold SD_ASYNC_STREAM_BUFFER_BYTES, SD_ASYNC_STREAM_BUFFER_SAMPLES in Hnw'.
  rewrite (chunked_sd_read_full dev (file s) (file_pos s) n Hfull) by lia.
  destruct (Z.eqb_spec n 0); [lia |]. cbn [andb].
  rewrite s32_small by lia. cbv zeta.
  cbn [buffer_b_valid file_pos file_size set_file_pos set_buffer_a_consumed
       set_buffer_a_valid].
  rewrite (u32_small (file_pos s + n)) by lia.
  rewrite Hbv. change (0 =? 0) with true. cbn [andb].
  destruct (Z.ltb_spec (file_pos s + n) (file_size s)) as [Hmore | Hend].
  - rewrite work_filling_b_full; cbn; try done; try lia.
    destruct (Z.ltb_spec 0 m); [| lia].
    rewrite ?Hbv. f_equal; subst m; lia.
  - destruct (Z.ltb_spec 0 m); [lia |].
    unfold set_state. cbn. rewrite Hbv. f_equal; lia.
Qed.

Lemma work_filling_a_exhausted dev s :
  file_size s <= file_pos s -> buffer_b_valid s = 0 ->
  work_filling_a dev s
  = {| state := STREAM_STATE_EOF; file := file s; file_size := file_size s;
       file_pos := file_pos s; buffer_a := buffer_a s; buffer_b := buffer_b s;
       buffer_a_valid := 0; buffer_b_valid := 0;
       buffer_a_consumed := buffer_a_consumed s;
       buffer_b_consumed := buffer_b_consumed s;
       active_buffer := active_buffer s; path := path s;
       seek_target := seek_target s; slot := slot s |}.
Proof.
  intros Hp Hbv. unfold work_filling_a.
  destruct (Z.geb_spec (file_pos s) (file_size s)); [| lia].
  rewrite orb_true_r. cbv zeta.
  cbn [buffer_b_valid set_buffer_a_valid]. rewrite Hbv. cbn [Z.gtb Z.compare].
  unfold set_state, set_buffer_a_valid. cbn. rewrite Hbv. reflexivity.
Qed.

Lemma worker_open_fields dev s p mem_a mem_b size n m :
  device_ok dev -> device_reads_fully dev ->
  pop_fs_open dev (copy_path p) <> 0 -> mem_a <> 0 -> mem_b <> 0 ->
  f_size dev (pop_fs_open dev (copy_path p)) = size ->
  size + SD_ASYNC_STREAM_BUFFER_BYTES <= 2 ^ 32 ->
  n = Z.min SD_ASYNC_STREAM_BUFFER_BYTES size ->
  m = Z.min SD_ASYNC_STREAM_BUFFER_BYTES (size - n) ->
  sd_async_stream_open dev s p mem_a mem_b
  = (Some {| state := if size =? 0 then STREAM_STATE_EOF else STREAM_STATE_READY;
             file := pop_fs_open dev (copy_path p); file_size := size;
             file_pos := n + m; buffer_a := mem_a; buffer_b := mem_b;
             buffer_a_valid := n; buffer_b_valid := m;
             buffer_a_consumed := 0; buffer_b_consumed := 0;
             active_buffer := 0; path := copy_path p;
             seek_target := 0; slot := slot s |},
     {| state := if size =? 0 then STREAM_STATE_EOF else STREAM_STATE_READY;
        file := pop_fs_open dev (copy_path p); file_size := size;
        file_pos := n + m; buffer_a := mem_a; buffer_b := mem_b;
        buffer_a_valid := n; buffer_b_valid := m;
        buffer_a_consumed := 0; buffer_b_consumed := 0;
        active_buffer := 0; path := copy_path p;
        seek_target := 0; slot := slot s |}).
Proof.
  intros Hdev Hfull Hfile Ha Hb Esize Hnw En Em.
  pose proof (proj2 Hdev (pop_fs_open dev (copy_path p))) as Hsize.
  rewrite Esize in Hsize.
  set (s' := {| state := if size =? 0 then STREAM_STATE_EOF else STREAM_STATE_READY;
                file := pop_fs_open dev (copy_path p); file_size := size;
                file_pos := n + m; buffer_a := mem_a; buffer_b := mem_b;
                buffer_a_valid := n; buffer_b_valid := m;
                buffer_a_consumed := 0; buffer_b_consumed := 0;
                active_buffer := 0; path := copy_path p;
                seek_target := 0; slot := slot s |}).
  unfold sd_async_stream_open.
  cbn [buffer_a buffer_b set_buffers].
  destruct (Z.eqb_spec mem_a 0); [done |].
  destruct (Z.eqb_spec mem_b 0); [done |]. cbn [orb].
  cbv zeta. unfold process_stream_work. cbn [state set_state].
  unfold work_opening. cbn [path set_path set_state file set_file].
  destruct (Z.eqb_spec (pop_fs_open dev (copy_path p)) 0); [done |].
  rewrite Esize.
  match goal with |- context [work_filling_a dev ?x] => set (s2 := x) end.
  assert (file s2 = pop_fs_open dev (copy_path p) /\ file_size s2 = size /\
          file_pos s2 = 0 /\ buffer_b_valid s2 = 0 /\ buffer_a_valid s2 = 0 /\
          buffer_a_consumed s2 = 0 /\ buffer_b_consumed s2 = 0 /\
          active_buffer s2 = 0 /\ buffer_a s2 = mem_a /\ buffer_b s2 = mem_b /\
          path s2 = copy_path p /\ seek_target s2 = 0 /\ slot s2 = slot s)
    as (F1 & F2 & F3 & F4 & F5 & F6 & F7 & F8 & F9 & F10 & F11 & F12 & F13)
    by (subst s2; cbn; repeat split; reflexivity).
  clearbody s2.
  assert (state s' <> STREAM_STATE_ERROR) as Hne
    by (subst s'; cbn [state]; destruct (size =? 0); discriminate).
  assert (work_filling_a dev s2 = s') as ->.
  { destruct (Z.eqb_spec size 0) as [Hz | Hnz].
    - rewrite (work_filling_a_exhausted dev s2) by (rewrite ?F2, ?F3; lia || done).
      subst s' n m.
      rewrite F1, F2, F3, F6, F7, F8, F9, F10, F11, F12, F13, Hz. reflexivity.
    - rewrite (work_filling_a_full dev s2 Hfull); cycle 1.
      { by rewrite F1. }
      { by rewrite F2, F1. }
      { rewrite F3, F2. lia. }
      { exact F4. }
      { by rewrite F2. }
      subst s' n m.
      rewrite ?F1, ?F2, ?F3, ?F4, ?F7, ?F8, ?F9, ?F10, ?F11, ?F12, ?F13, ?Z.sub_0_r,
        ?Z.add_0_l.
      destruct (Z.eqb_spec size 0); [contradiction |].
      destruct (0 <? _); reflexivity. }
  clearbody s'. destruct (decide _); [contradiction | reflexivity].
Qed.

(** XID: what the worker variant's [sd_async_stream_open] leaves in the two
    buffers.  On a card whose reads inside the file deliver every byte
    asked for, with the file found, both buffers allocated and the file
    ending at least 8192 bytes below 4 GiB, the open returns the handle with
    the first 8192 bytes of the file in buffer A and the next 8192 in
    buffer B (less when the file is shorter), nothing consumed, buffer A
    active, and the stream READY, or at EOF when the file is empty. *)
Theorem worker_open_fills_buffers (dev : sd_device)
    (slot0 : sd_async_stream) (p : list Byte.byte) (mem_a mem_b : Z) :
  device_ok dev -> device_reads_fully dev ->
  pop_fs_open dev (copy_path p) <> 0 -> mem_a <> 0 -> mem_b <> 0 ->
  f_size dev (pop_fs_open dev (copy_path p)) + SD_ASYNC_STREAM_BUFFER_BYTES <= 2 ^ 32 ->
  let size := f_size dev (pop_fs_open dev (copy_path p)) in
  exists s,
    sd_async_stream_open dev slot0 p mem_a mem_b = (Some s, s) /\
    state s = (if size =? 0 then STREAM_STATE_EOF else STREAM_STATE_READY) /\
    buffer_a_valid s = Z.min size SD_ASYNC_STREAM_BUFFER_BYTES /\
    buffer_b_valid s = Z.min (size - buffer_a_valid s) SD_ASYNC_STREAM_BUFFER_BYTES /\
    buffer_a_consumed s = 0 /\ buffer_b_consumed s = 0 /\
    active_buffer s = 0 /\
    file_pos s = buffer_a_valid s + buffer_b_valid s /\ file_size s = size.
Proof.
  intros Hdev Hfull Hfile Ha Hb Hnw size.
  eexists. split.
  { exact (worker_open_fields dev slot0 p mem_a mem_b size _ _ Hdev Hfull
             Hfile Ha Hb eq_refl Hnw eq_refl eq_refl). }
  cbn [state buffer_a_valid buffer_b_valid buffer_a_consumed buffer_b_consumed
       active_buffer file_pos file_size].
  repeat split; first [reflexivity | apply Z.min_comm | (f_equal; apply Z.min_comm)].
Qed.


(** *** Memory safety of the two buffers *)

Lemma worker_read_copy_range s dest n :
  stream_wf s -> 0 <= n < 2 ^ 32 ->
  let r := sd_async_stream_read s dest n in
  0 < r.1 ->
  r.1 <= consumed_of r.2 (active_buffer r.2).
Proof.
  intros Hwf Hn r Hpos. subst r.
  pose proof Hwf as (Ha & Hav & Hb & Hbv & Hact).
  destruct (decide (dest = 0 \/ n = 0)) as [Hg | Hg].
  { rewrite worker_read_guard in Hpos by done. cbn in Hpos. lia. }
  assert (dest <> 0 /\ n <> 0) as [Hd Hn0] by lia.
  destruct (decide (state s = STREAM_STATE_ERROR)) as [He | He].
  { rewrite worker_read_dead in Hpos by auto. cbn in Hpos. lia. }
  pose proof (worker_available_bounds s Hwf) as [Hav1 Hav2].
  destruct (Z.lt_ge_cases 0 (sd_async_stream_available s)) as [Hp | Hzero].
  - destruct (worker_read_active s dest n Hwf Hn Hd Hn0 He Hp) as [E _].
    rewrite E in *. cbn [fst snd] in *.
    unfold set_consumed_of, consumed_of, sd_async_stream_available in *.
    destruct Hact as [Ea | Ea]; clear E;
      repeat (progress (rewrite ?Ea in *; wsel_norm; cbn in * )); lia.
  - destruct (Z.lt_ge_cases 0 (valid_of s (1 - active_buffer s))) as [Hov | Hov].
    + destruct (worker_read_swap s dest n Hwf Hd Hn0 He Hzero Hov) as (Hst & E & _).
      rewrite E in *.
      destruct (Z.le_gt_cases (other_available s) 0).
      * rewrite worker_read_copy_empty in Hpos by done.
        destruct (decide _); cbn in Hpos; lia.
      * rewrite worker_read_copy in * by lia. cbn [fst snd] in *.
        unfold set_consumed_of, set_valid_of, set_active_buffer, consumed_of,
          other_available, valid_of in *.
        destruct Hact as [Ea | Ea]; clear E;
          repeat (progress (rewrite ?Ea in *; wsel_norm; cbn in * )); lia.
    + rewrite (worker_read_starved s dest n Hd Hn0 He Hzero Hov) in Hpos.
      destruct (decide _); cbn in Hpos; lia.
Qed.

(** XID: neither buffer of the worker variant is ever overrun.  On a handle
    returned by [sd_async_stream_open], after any run of reads, worker turns
    and seeks, a fill asks [chunked_sd_read] for at most 8192 bytes and gets
    no more than it asked for, and a read that returns a positive count has
    copied that many bytes from below the consumed mark of the active
    buffer, which is within its valid bytes and within the buffer. *)
Theorem worker_buffers_never_overrun (dev : sd_device)
    (slot0 : sd_async_stream) (p : list Byte.byte) (mem_a mem_b : Z)
    (s0 : sd_async_stream) (cs : list stream_call) :
  device_ok dev ->
  (sd_async_stream_open dev slot0 p mem_a mem_b).1 = Some s0 ->
  Forall call_ok cs ->
  let s := handle (session_run dev cs {| handle := s0; user_pos := 0 |}) in
  (file_pos s < file_size s ->
   0 <= chunked_sd_read dev (file s) (file_pos s) (fill_to_read s) <= fill_to_read s /\
   fill_to_read s <= SD_ASYNC_STREAM_BUFFER_BYTES) /\
  (forall dest n, 0 <= n < 2 ^ 32 ->
     let r := sd_async_stream_read s dest n in
     0 < r.1 ->
     0 <= consumed_of r.2 (active_buffer r.2) - r.1 /\
     consumed_of r.2 (active_buffer r.2) <= valid_of r.2 (active_buffer r.2) /\
     valid_of r.2 (active_buffer r.2) <= SD_ASYNC_STREAM_BUFFER_BYTES).
Proof.
  intros Hdev Hopen Hcs s.
  assert (stream_inv s) as (Hwf & Hpos & Hsize & _).
  { apply worker_session_inv; [exact Hdev | exact Hcs |].
    exact (worker_open_inv dev slot0 p mem_a mem_b s0 Hdev Hopen). }
  split.
  - intros Hlt.
    pose proof (fill_to_read_bounds s ltac:(lia) ltac:(lia)) as Hto.
    split; [| lia].
    unfold SD_ASYNC_STREAM_BUFFER_BYTES, SD_ASYNC_STREAM_BUFFER_SAMPLES in Hto.
    apply (chunked_sd_read_loop_bounds dev _ _ _ _ Hdev); lia.
  - intros dest n Hnn r Hp.
    pose proof (worker_read_copy_range s dest n Hwf Hnn Hp) as Hr.
    pose proof (worker_read_wf s dest n Hwf Hnn) as (Ha & Hav & Hb & Hbv & Hact).
    fold r in Hr, Ha, Hav, Hb, Hbv, Hact.
    unfold consumed_of, valid_of in *.
    destruct Hact as [E | E]; rewrite E in *; wsel_norm; cbv iota in *; lia.
Qed.
End WorkerSessionFacts.

Lemma worker_opened_handle :
  (SdWorker.sd_async_stream_open (Fixtures.card_with_file 10000)
     Fixtures.worker_closed_slot Fixtures.some_path 4096 16384).1
  = Some StreamSamples.worker_opened.
Proof. vm_compute. reflexivity. Qed.

Lemma worker_calls_ok : Forall WorkerSession.call_ok WorkerSamples.worker_calls.
Proof. repeat constructor; cbn; lia. Qed.

Lemma worker_tell_counts_delivered_witness :
  let u := WorkerSession.session_run (Fixtures.card_with_file 10000)
             WorkerSamples.worker_calls
             {| WorkerSession.handle := StreamSamples.worker_opened;
                WorkerSession.user_pos := 0 |} in
  WorkerSession.sd_async_stream_tell (WorkerSession.handle u)
  = WorkerSession.user_pos u.
Proof.
  apply (worker_tell_counts_delivered (Fixtures.card_with_file 10000)
           Fixtures.worker_closed_slot Fixtures.some_path 4096 16384
           StreamSamples.worker_opened WorkerSamples.worker_calls
           (card_with_file_ok 10000 ltac:(lia)) ltac:(vm_compute; discriminate)
           worker_opened_handle worker_calls_ok).
  vm_compute. discriminate.
Defined.

Lemma worker_stream_never_ends_witness :
  let s := WorkerSession.handle
             (WorkerSession.session_run (Fixtures.card_with_file 10000)
                WorkerSamples.worker_calls
                {| WorkerSession.handle := StreamSamples.worker_opened;
                   WorkerSession.user_pos := 0 |}) in
  (SdWorker.state s = SdWorker.STREAM_STATE_READY \/
   SdWorker.state s = SdWorker.STREAM_STATE_ERROR) /\
  SdWorker.sd_async_stream_eof s = false.
Proof.
  intros s.
  destruct (worker_stream_never_ends (Fixtures.card_with_file 10000)
              Fixtures.worker_closed_slot Fixtures.some_path 4096 16384
              StreamSamples.worker_opened WorkerSamples.worker_calls
              (card_with_file_ok 10000 ltac:(lia)) ltac:(cbn; lia)
              worker_opened_handle worker_calls_ok) as (H1 & H2 & _).
  { repeat constructor; first [exact I | vm_compute; reflexivity]. }
  split; [exact H1 | exact H2].
Defined.

Lemma worker_open_fills_buffers_witness :
  exists s,
    SdWorker.sd_async_stream_open (Fixtures.card_with_file 10000)
      Fixtures.worker_closed_slot Fixtures.some_path 4096 16384 = (Some s, s) /\
    SdWorker.state s = SdWorker.STREAM_STATE_READY /\
    SdWorker.buffer_a_valid s = 8192 /\ SdWorker.buffer_b_valid s = 1808.
Proof.
  destruct (worker_open_fills_buffers (Fixtures.card_with_file 10000)
              Fixtures.worker_closed_slot Fixtures.some_path 4096 16384
              (card_with_file_ok 10000 ltac:(lia)) (card_with_file_reads_fully 10000)
              ltac:(cbn; lia) ltac:(lia) ltac:(lia) ltac:(vm_compute; discriminate))
    as (s & Ho & Hst & Ha & Hb & _).
  exists s. split; [exact Ho |]. split; [exact Hst |].
  rewrite Hb, Ha. split; reflexivity.
Defined.

Lemma worker_buffers_never_overrun_witness :
  let s := WorkerSession.handle
             (WorkerSession.session_run (Fixtures.card_with_file 10000)
                WorkerSamples.worker_calls
                {| WorkerSession.handle := StreamSamples.worker_opened;
                   WorkerSession.user_pos := 0 |}) in
  forall dest n, 0 <= n < 2 ^ 32 ->
    let r := SdWorker.sd_async_stream_read s dest n in
    0 < r.1 ->
    SdWorker.valid_of r.2 (SdWorker.active_buffer r.2)
    <= SdWorker.SD_ASYNC_STREAM_BUFFER_BYTES.
Proof.
  intros s dest n Hn r Hp.
  destruct (worker_buffers_never_overrun (Fixtures.card_with_file 10000)
              Fixtures.worker_closed_slot Fixtures.some_path 4096 16384
              StreamSamples.worker_opened WorkerSamples.worker_calls
              (card_with_file_ok 10000 ltac:(lia)) worker_opened_handle worker_calls_ok)
    as [_ H].
  exact (proj2 (proj2 (H dest n Hn Hp))).
Defined.
